(** * web-scraper-toolkit: a shallow embedding of the scraper core

    The development follows the Python sources:
    - [engines/requests_engine.py]  (schema extraction, fetch with retry),
    - [utils/robots_txt.py]         (robots.txt cache and politeness check),
    - [utils/proxy_manager.py]      (proxy pool, rotation policies, removal),
    - [utils/user_agent_manager.py] (user agent pool),
    - [utils/__init__.py]           (text cleaning),
    - [scraper.py]                  (Scraper: configuration, single and multi URL jobs),
    - [exporters/csv_exporter.py]   (CSV export),
    - [config.py]                   (ScraperConfig).

    Python dictionaries are insertion ordered, so they are association
    lists here; exceptions are an explicit [result]; module level globals,
    the log, the clock and the network live in a [World] that is threaded
    through a state-and-exception monad.  The library calls the sources
    make ([soup.select], [urlparse], [RobotFileParser.read], [time.sleep],
    [session.get]) return or raise as the libraries do. *)

From Stdlib Require Import String Ascii List Bool Arith ZArith QArith Lia.
From Stdlib Require Import Lqa Permutation Sorted DecimalString.
Import ListNotations.

Local Open Scope string_scope.
Local Open Scope list_scope.
Local Open Scope nat_scope.

(* ================================================================== *)
(** ** Python dictionaries (insertion ordered, string keys)           *)
(* ================================================================== *)

Module PyDict.
Section Dict.
Context {V : Type}.

Definition dict := list (string * V).

  (** [d.get(k)] *)
Fixpoint get (d : dict) (k : string) : option V :=
    match d with
    | [] => None
    | (k', v) :: d' => if String.eqb k' k then Some v else get d' k
    end.

  (** [k in d] *)
Definition contains (d : dict) (k : string) : bool :=
    match get d k with Some _ => true | None => false end.

  (** [d[k] = v]: an existing key keeps its position, a new key goes last. *)
Fixpoint set (d : dict) (k : string) (v : V) : dict :=
    match d with
    | [] => [(k, v)]
    | (k', v') :: d' =>
        if String.eqb k' k then (k', v) :: d' else (k', v') :: set d' k v
    end.

  (** [del d[k]]; [None] stands for the [KeyError] of a missing key. *)
Fixpoint del (d : dict) (k : string) : option dict :=
    match d with
    | [] => None
    | (k', v') :: d' =>
        if String.eqb k' k then Some d'
        else match del d' k with
             | Some d'' => Some ((k', v') :: d'')
             | None => None
             end
    end.

  (** [list(d.keys())] *)
Definition keys (d : dict) : list string := map fst d.

  (** [bool(d)] *)
Definition truthy (d : dict) : bool :=
    match d with [] => false | _ => true end.
End Dict.
Arguments dict : clear implicits.
End PyDict.

Abbreviation dict := PyDict.dict.

(** [x in l] for a list of strings. *)
Fixpoint str_in (x : string) (l : list string) : bool :=
  match l with
  | [] => false
  | y :: l' => String.eqb y x || str_in x l'
  end.

(* ================================================================== *)
(** ** Values, exceptions, results                                    *)
(* ================================================================== *)

(** The Python values that flow through a record. *)
#[local] Set Warnings "-register-all".
Inductive value : Type :=
| VNone
| VStr (s : string)
| VNum (z : Z)
| VList (l : list value)
| VDict (d : list (string * value)).

Definition record := dict value.

Definition is_none (v : value) : bool :=
  match v with VNone => true | _ => false end.

(** [isinstance(value, (list, dict))] *)
Definition is_list_or_dict (v : value) : bool :=
  match v with VList _ | VDict _ => true | _ => false end.

Inductive exn : Type :=
| ProcessorFault (msg : string)      (* whatever a schema processor raised *)
| ConnectionError (msg : string)     (* requests: transport failure *)
| HTTPError (status_code : Z)        (* requests: raise_for_status *)
| RetryError (last_attempt : exn)    (* tenacity: budget exhausted *)
| URLError (msg : string)            (* urllib: robots.txt unreachable *)
| IndexError
| KeyError (key : string)
| ValueError (msg : string)
| OSError (msg : string)
| OverflowError (msg : string)
| SelectorSyntaxError (msg : string). (* soupsieve: selector rejected *)

Inductive result (A : Type) : Type :=
| Ok (a : A)
| Raise (e : exn).
Arguments Ok {A} a.
Arguments Raise {A} e.

Definition rbind {A B} (r : result A) (f : A -> result B) : result B :=
  match r with
  | Ok a => f a
  | Raise e => Raise e
  end.

(* ================================================================== *)
(** ** Text: [str.strip] and BeautifulSoup's [get_text(strip=True)]   *)
(* ================================================================== *)

(** [str.isspace] on the characters below 256. *)
Definition isspace (c : ascii) : bool :=
  let n := nat_of_ascii c in
  ((9 <=? n) && (n <=? 13)) || ((28 <=? n) && (n <=? 32))
  || (n =? 133) || (n =? 160).

Fixpoint lstrip (s : string) : string :=
  match s with
  | EmptyString => EmptyString
  | String c s' => if isspace c then lstrip s' else s
  end.

Fixpoint rstrip (s : string) : string :=
  match s with
  | EmptyString => EmptyString
  | String c s' =>
      match rstrip s' with
      | EmptyString => if isspace c then EmptyString else String c EmptyString
      | r => String c r
      end
  end.

(** [s.strip()] *)
Definition strip (s : string) : string := lstrip (rstrip s).

Definition nonempty (s : string) : bool :=
  match s with EmptyString => false | _ => true end.

(** A matched element as the engine sees it: the text strings below it in
    document order, and its attributes (a string, or a list of strings
    for a multi-valued attribute such as [class]). *)
Record Tag : Type := mkTag {
  tag_strings : list string;
  tag_attrs : dict value
}.

(** [element.get(attribute)] *)
Definition tag_get (element : Tag) (attribute : string) : value :=
  match PyDict.get (tag_attrs element) attribute with
  | Some v => v
  | None => VNone
  end.

(** [element.get_text(strip=True)]: every text string is stripped, the
    empty ones are dropped, the rest is joined with the empty separator. *)
Definition get_text_strip (element : Tag) : string :=
  String.concat EmptyString (filter nonempty (map strip (tag_strings element))).

(** The parsed document, seen through [soup.select(selector)]:
    [select_error] is the [SelectorSyntaxError] that soupsieve raises for
    a selector it cannot compile (an unbalanced bracket, the empty
    selector), [select] the elements a compiled selector matches, in
    document order. *)
Record Soup : Type := mkSoup {
  select_error : string -> option exn;
  select : string -> list Tag
}.

(** [soup.select(selector)] *)
Definition soup_select (soup : Soup) (selector : string)
  : result (list Tag) :=
  match select_error soup selector with
  | Some e => Raise e
  | None => Ok (select soup selector)
  end.

(** [text.split()]: the maximal runs of non-whitespace characters. *)
Fixpoint split_from (s : string) (cur : string) : list string :=
  match s with
  | EmptyString => if nonempty cur then [cur] else []
  | String c s' =>
      if isspace c then
        (if nonempty cur then cur :: split_from s' EmptyString
         else split_from s' EmptyString)
      else split_from s' (cur ++ String c EmptyString)
  end.

Definition split (s : string) : list string := split_from s EmptyString.

(** [clean_text] of [utils/__init__.py]: trims and collapses every run of
    whitespace to one space.  The engine does not call it. *)
Definition clean_text (text : string) : string :=
  if nonempty text then strip (String.concat " " (split text))
  else EmptyString.

(* ================================================================== *)
(** ** Schemas                                                        *)
(* ================================================================== *)

Definition processor := value -> result value.

(** One entry of a schema. *)
Inductive field_schema : Type :=
| FStr (selector : string)
| FDict (selector : option string) (attribute : option string)
        (multiple : bool) (processors : list processor)
| FOther.

Definition schema := list (string * field_schema).

(** Truthiness of an optional string: [None] and the empty string are
    false. *)
Definition str_truthy (o : option string) : bool :=
  match o with
  | Some s => nonempty s
  | None => false
  end.


(* ================================================================== *)
(** ** Configuration: [ScraperConfig]                                 *)
(* ================================================================== *)

Record ScraperConfig : Type := mkConfig {
  engine : string;
  browser : string;
  headless : bool;
  user_agent : string;
  user_agent_rotation : bool;
  user_agent_list_path : string;
  use_proxies : bool;
  proxy_rotation_policy : string;
  proxy_list_path : string;
  respect_robots_txt : bool;
  request_delay : Q;
  max_requests_per_minute : Z;
  max_retries : Z;
  timeout : Z;
  verify_ssl : bool;
  cookies : dict string;
  headers : dict string;
  solve_captchas : bool;
  captcha_service : string;
  captcha_api_key : string;
  log_level : string;
  data_dir : string
}.

(** [self.config.engine = engine] *)
Definition set_engine (c : ScraperConfig) (e : string) : ScraperConfig :=
  mkConfig e (browser c) (headless c) (user_agent c) (user_agent_rotation c)
    (user_agent_list_path c) (use_proxies c) (proxy_rotation_policy c)
    (proxy_list_path c) (respect_robots_txt c) (request_delay c)
    (max_requests_per_minute c) (max_retries c) (timeout c) (verify_ssl c)
    (cookies c) (headers c) (solve_captchas c) (captcha_service c)
    (captcha_api_key c) (log_level c) (data_dir c).

Definition set_max_retries (c : ScraperConfig) (n : Z) : ScraperConfig :=
  mkConfig (engine c) (browser c) (headless c) (user_agent c)
    (user_agent_rotation c) (user_agent_list_path c) (use_proxies c)
    (proxy_rotation_policy c) (proxy_list_path c) (respect_robots_txt c)
    (request_delay c) (max_requests_per_minute c) n (timeout c) (verify_ssl c)
    (cookies c) (headers c) (solve_captchas c) (captcha_service c)
    (captcha_api_key c) (log_level c) (data_dir c).

Definition default_user_agent : string :=
  "Mozilla/5.0 (Windows NT 10.0; Win64; x64) AppleWebKit/537.36 (KHTML, like Gecko) Chrome/91.0.4472.124 Safari/537.36".

(** The headers [__post_init__] installs when none are given. *)
Definition default_headers (ua : string) : dict string :=
  [ ("User-Agent", ua);
    ("Accept", "text/html,application/xhtml+xml,application/xml;q=0.9,image/webp,*/*;q=0.8");
    ("Accept-Language", "en-US,en;q=0.5");
    ("Accept-Encoding", "gzip, deflate, br");
    ("Connection", "keep-alive");
    ("Upgrade-Insecure-Requests", "1");
    ("Cache-Control", "max-age=0") ].

(** [ScraperConfig()] with no environment override. *)
Definition default_config : ScraperConfig :=
  mkConfig "requests" "chrome" true default_user_agent false
    "./config/user_agents.txt" false "round-robin" "./config/proxies.txt"
    true (2 # 1) 30 3 30 true [] (default_headers default_user_agent)
    false "2captcha" EmptyString "INFO" "./data".

(* ================================================================== *)
(** ** The world: globals, log, clock, network                        *)
(* ================================================================== *)

Inductive level : Type := DEBUG | INFO | WARNING | ERROR.

(** One constructor per logging call of the sources that the model reaches. *)
Inductive message : Type :=
| MsgScrapingURL (url : string)
| MsgRobotsDisallows (url : string)
| MsgApplyingDelay (d : Q)
| MsgScraped (url : string)
| MsgErrorScraping (url : string) (e : exn)
| MsgScrapingMany (n : nat)
| MsgScrapedMany (k n : nat)
| MsgNoSelector (field_name : string)
| MsgErrorCheckingRobots (url : string) (e : exn)
| MsgErrorReadingRobots (base_url : string) (e : exn)
| MsgProxyFileNotFound (file_path : string)
| MsgNoProxiesFound (file_path : string)
| MsgLoadedProxies (n : nat) (file_path : string)
| MsgErrorLoadingProxies (file_path : string) (e : exn)
| MsgUnknownRotationPolicy (policy : string)
| MsgUserAgentFileNotFound (file_path : string)
| MsgNoUserAgentsFound (file_path : string)
| MsgLoadedUserAgents (n : nat) (file_path : string)
| MsgErrorLoadingUserAgents (file_path : string) (e : exn)
| MsgProxyNotInFile (proxy file_path : string)
| MsgRemovedProxy (proxy file_path : string)
| MsgErrorRemovingProxy (proxy file_path : string) (e : exn).

(** [urllib.robotparser.RobotFileParser]: the flags that [read()] and
    [parse()] set, and the answer of the parsed entries for a user agent
    and a path ([last_checked] is whether the time stamp is non-zero). *)
Record RobotFileParser : Type := mkParser {
  disallow_all : bool;
  allow_all : bool;
  last_checked : bool;
  rules : string -> string -> bool
}.

(** [parser.can_fetch(useragent, url)] *)
Definition rp_can_fetch (parser : RobotFileParser) (useragent url : string)
  : bool :=
  if disallow_all parser then false
  else if allow_all parser then true
  else if negb (last_checked parser) then false
  else rules parser useragent url.

(** What [session.get] is called with. *)
Record Request : Type := mkRequest {
  req_url : string;
  req_headers : dict string;
  req_timeout : Z;
  req_verify : bool;
  req_proxies : option (dict string)
}.

Inductive http_outcome : Type :=
| Response (status_code : Z) (text : string)
| Failed (e : exn).

Inductive file_outcome : Type :=
| Missing                       (* [os.path.exists] is false *)
| Unreadable (e : exn)          (* [open] or the read raises *)
| Lines (ls : list string).

(** What [urllib.request.urlopen] makes of a robots.txt URL. *)
Inductive robots_outcome : Type :=
| RobotsBody (rules : string -> string -> bool) (* fetched, decoded, parsed *)
| RobotsHTTPError (code : Z)    (* [urlopen] raised [HTTPError] *)
| RobotsFailed (e : exn).       (* [urlopen] or the decoding raised another *)

Record ParseResult : Type := mkParse {
  scheme : string;
  netloc : string;
  path : string
}.

(** The outside: every interaction is indexed by the number of
    interactions made before it, so that answers may change over time.
    [urlopen_robots] is the [urlopen] call of [RobotFileParser.read()];
    [urlparse] raises [ValueError] on a URL it rejects (an unbalanced
    bracket in the host); [write_file] is the exception, if any, of
    opening a file and writing lines to it. *)
Record Env : Type := mkEnv {
  session_get : nat -> Request -> http_outcome;
  BeautifulSoup : string -> Soup;
  urlopen_robots : nat -> string -> robots_outcome;
  urlparse : string -> result ParseResult;
  time_time : nat -> Q;
  randbelow : nat -> nat -> nat;
  read_file : nat -> string -> file_outcome;
  write_file : nat -> string -> list string -> option exn
}.

(** [parser.read()] on a fresh parser with its URL set: an [HTTPError] is
    absorbed (401 and 403 set [disallow_all], the other 4xx set
    [allow_all], anything else leaves the parser as it is, unchecked);
    another exception is raised; a body is parsed. *)
Definition robots_read (env : Env) (t : nat) (url : string)
  : result RobotFileParser :=
  match urlopen_robots env t url with
  | RobotsFailed e => Raise e
  | RobotsHTTPError code =>
      if ((code =? 401) || (code =? 403))%Z
      then Ok (mkParser true false false (fun _ _ => true))
      else if ((400 <=? code) && (code <? 500))%Z
      then Ok (mkParser false true false (fun _ _ => true))
      else Ok (mkParser false false false (fun _ _ => true))
  | RobotsBody rules => Ok (mkParser false false true rules)
  end.

Record World : Type := mkWorld {
  tick : nat;
  log : list (level * message);
  sleeps : list Q;
  sent : list Request;
  config : ScraperConfig;
  session_headers : dict string;
  _robots_parsers : dict RobotFileParser;
  _robots_parsers_last_used : dict Q;
  _proxies_cache : option (list string);
  _current_proxy_index : nat;
  _user_agents_cache : option (list string);
  urlopened : list string
}.

(** State that survives exceptions, as in Python. *)
Definition M (A : Type) : Type := World -> result A * World.

Definition ret {A} (a : A) : M A := fun w => (Ok a, w).

Definition raise {A} (e : exn) : M A := fun w => (Raise e, w).

Definition bind {A B} (m : M A) (f : A -> M B) : M B :=
  fun w => match m w with
           | (Ok a, w') => f a w'
           | (Raise e, w') => (Raise e, w')
           end.

(** [try: body  except Exception as e: handler(e)] *)
Definition try_except {A} (body : M A) (handler : exn -> M A) : M A :=
  fun w => match body w with
           | (Ok a, w') => (Ok a, w')
           | (Raise e, w') => handler e w'
           end.

Declare Scope py_scope.
Delimit Scope py_scope with py.
Notation "x <- c1 ;; c2" := (bind c1 (fun x => c2))
  (at level 61, c1 at next level, right associativity) : py_scope.
Notation "c1 ;; c2" := (bind c1 (fun _ => c2))
  (at level 61, right associativity) : py_scope.
Local Open Scope py_scope.

Definition gets {A} (f : World -> A) : M A := fun w => (Ok (f w), w).

Definition modify (f : World -> World) : M unit := fun w => (Ok tt, f w).

Definition with_tick (w : World) (t : nat) : World :=
  mkWorld t (log w) (sleeps w) (sent w) (config w) (session_headers w)
    (_robots_parsers w) (_robots_parsers_last_used w) (_proxies_cache w)
    (_current_proxy_index w) (_user_agents_cache w) (urlopened w).

Definition with_log (w : World) (l : list (level * message)) : World :=
  mkWorld (tick w) l (sleeps w) (sent w) (config w) (session_headers w)
    (_robots_parsers w) (_robots_parsers_last_used w) (_proxies_cache w)
    (_current_proxy_index w) (_user_agents_cache w) (urlopened w).

Definition with_sleeps (w : World) (l : list Q) : World :=
  mkWorld (tick w) (log w) l (sent w) (config w) (session_headers w)
    (_robots_parsers w) (_robots_parsers_last_used w) (_proxies_cache w)
    (_current_proxy_index w) (_user_agents_cache w) (urlopened w).

Definition with_sent (w : World) (l : list Request) : World :=
  mkWorld (tick w) (log w) (sleeps w) l (config w) (session_headers w)
    (_robots_parsers w) (_robots_parsers_last_used w) (_proxies_cache w)
    (_current_proxy_index w) (_user_agents_cache w) (urlopened w).

Definition with_session_headers (w : World) (h : dict string) : World :=
  mkWorld (tick w) (log w) (sleeps w) (sent w) (config w) h
    (_robots_parsers w) (_robots_parsers_last_used w) (_proxies_cache w)
    (_current_proxy_index w) (_user_agents_cache w) (urlopened w).

Definition with_robots (w : World) (ps : dict RobotFileParser) (lu : dict Q)
  : World :=
  mkWorld (tick w) (log w) (sleeps w) (sent w) (config w) (session_headers w)
    ps lu (_proxies_cache w) (_current_proxy_index w) (_user_agents_cache w) (urlopened w).

Definition with_proxies_cache (w : World) (c : option (list string)) : World :=
  mkWorld (tick w) (log w) (sleeps w) (sent w) (config w) (session_headers w)
    (_robots_parsers w) (_robots_parsers_last_used w) c
    (_current_proxy_index w) (_user_agents_cache w) (urlopened w).

Definition with_proxy_index (w : World) (i : nat) : World :=
  mkWorld (tick w) (log w) (sleeps w) (sent w) (config w) (session_headers w)
    (_robots_parsers w) (_robots_parsers_last_used w) (_proxies_cache w)
    i (_user_agents_cache w) (urlopened w).

Definition with_user_agents_cache (w : World) (c : option (list string))
  : World :=
  mkWorld (tick w) (log w) (sleeps w) (sent w) (config w) (session_headers w)
    (_robots_parsers w) (_robots_parsers_last_used w) (_proxies_cache w)
    (_current_proxy_index w) c (urlopened w).

Definition with_urlopened (w : World) (l : list string) : World :=
  mkWorld (tick w) (log w) (sleeps w) (sent w) (config w) (session_headers w)
    (_robots_parsers w) (_robots_parsers_last_used w) (_proxies_cache w)
    (_current_proxy_index w) (_user_agents_cache w) l.

(** [logger.<level>(...)] *)
Definition logger (l : level) (m : message) : M unit :=
  modify (fun w => with_log w (log w ++ [(l, m)])).

(** The first delay, in seconds, that does not fit the C time type of
    [time.sleep]: 2^63 nanoseconds. *)
Definition sleep_limit : Q := 9223372036854775808 # 1000000000.

(** [time.sleep(d)]: a delay that does not fit raises [OverflowError] (as
    does an infinite one, which no rational reaches). *)
Definition sleep (d : Q) : M unit :=
  if Qle_bool sleep_limit d
  then raise (OverflowError "timestamp too large to convert to C _PyTime_t")
  else modify (fun w => with_sleeps w (sleeps w ++ [d])).

(** One interaction with the outside: read the index, advance it. *)
Definition next_tick : M nat :=
  fun w => (Ok (tick w), with_tick w (S (tick w))).

(** [random.choice(seq)] *)
Definition random_choice (env : Env) {A} (seq : list A) : M A :=
  t <- next_tick ;;
  match nth_error seq (randbelow env t (length seq) mod length seq) with
  | Some a => ret a
  | None => raise IndexError
  end.

Definition with_config (w : World) (c : ScraperConfig) : World :=
  mkWorld (tick w) (log w) (sleeps w) (sent w) c (session_headers w)
    (_robots_parsers w) (_robots_parsers_last_used w) (_proxies_cache w)
    (_current_proxy_index w) (_user_agents_cache w) (urlopened w).

(** [time.time()] *)
Definition time (env : Env) : M Q :=
  t <- next_tick ;; ret (time_time env t).

(** [for x in xs: body(x)] *)
Fixpoint for_each {A} (xs : list A) (body : A -> M unit) : M unit :=
  match xs with
  | [] => ret tt
  | x :: xs' => body x ;; for_each xs' body
  end.

(** [[line.strip() for line in f if line.strip()]] *)
Definition stripped_lines (ls : list string) : list string :=
  filter nonempty (map strip ls).

(* ================================================================== *)
(** ** [utils/user_agent_manager.py]                                  *)
(* ================================================================== *)

Module user_agent_manager.
Section WithEnv.
Variable env : Env.

Definition DEFAULT_USER_AGENTS : list string :=
    [ "Mozilla/5.0 (Windows NT 10.0; Win64; x64) AppleWebKit/537.36 (KHTML, like Gecko) Chrome/91.0.4472.124 Safari/537.36";
      "Mozilla/5.0 (Macintosh; Intel Mac OS X 10_15_7) AppleWebKit/537.36 (KHTML, like Gecko) Chrome/91.0.4472.114 Safari/537.36";
      "Mozilla/5.0 (X11; Linux x86_64) AppleWebKit/537.36 (KHTML, like Gecko) Chrome/91.0.4472.101 Safari/537.36";
      "Mozilla/5.0 (Windows NT 10.0; Win64; x64; rv:89.0) Gecko/20100101 Firefox/89.0";
      "Mozilla/5.0 (Macintosh; Intel Mac OS X 10.15; rv:89.0) Gecko/20100101 Firefox/89.0";
      "Mozilla/5.0 (X11; Linux i686; rv:89.0) Gecko/20100101 Firefox/89.0";
      "Mozilla/5.0 (Macintosh; Intel Mac OS X 10_15_7) AppleWebKit/605.1.15 (KHTML, like Gecko) Version/14.1.1 Safari/605.1.15";
      "Mozilla/5.0 (Windows NT 10.0; Win64; x64) AppleWebKit/537.36 (KHTML, like Gecko) Chrome/91.0.4472.124 Safari/537.36 Edg/91.0.864.59";
      "Mozilla/5.0 (Windows NT 10.0; Win64; x64) AppleWebKit/537.36 (KHTML, like Gecko) Chrome/91.0.4472.124 Safari/537.36 OPR/77.0.4054.254" ].

Definition _load_user_agents (file_path : string) : M (list string) :=
    c <- gets _user_agents_cache ;;
    match c with
    | Some user_agents => ret user_agents
    | None =>
        t <- next_tick ;;
        match read_file env t file_path with
        | Missing =>
            logger WARNING (MsgUserAgentFileNotFound file_path) ;;
            ret DEFAULT_USER_AGENTS
        | Unreadable e =>
            logger ERROR (MsgErrorLoadingUserAgents file_path e) ;;
            ret DEFAULT_USER_AGENTS
        | Lines ls =>
            let user_agents := stripped_lines ls in
            match user_agents with
            | [] =>
                logger WARNING (MsgNoUserAgentsFound file_path) ;;
                ret DEFAULT_USER_AGENTS
            | _ =>
                modify (fun w => with_user_agents_cache w (Some user_agents)) ;;
                logger INFO (MsgLoadedUserAgents (length user_agents) file_path) ;;
                ret user_agents
            end
        end
    end.

  (** The branch taken for a path that is a string. *)
Definition get_random_user_agent (file_path : string) : M string :=
    user_agents <- _load_user_agents file_path ;;
    random_choice env user_agents.
End WithEnv.
End user_agent_manager.

(* ================================================================== *)
(** ** [utils/proxy_manager.py]                                       *)
(* ================================================================== *)

Module proxy_manager.
Section WithEnv.
Variable env : Env.

Definition _load_proxies (file_path : string) : M (list string) :=
    c <- gets _proxies_cache ;;
    match c with
    | Some proxies => ret proxies
    | None =>
        t <- next_tick ;;
        match read_file env t file_path with
        | Missing =>
            logger WARNING (MsgProxyFileNotFound file_path) ;; ret []
        | Unreadable e =>
            logger ERROR (MsgErrorLoadingProxies file_path e) ;; ret []
        | Lines ls =>
            let proxies := stripped_lines ls in
            match proxies with
            | [] => logger WARNING (MsgNoProxiesFound file_path) ;; ret []
            | _ =>
                modify (fun w => with_proxies_cache w (Some proxies)) ;;
                logger INFO (MsgLoadedProxies (length proxies) file_path) ;;
                ret proxies
            end
        end
    end.

Definition get_proxy (file_path rotation_policy : string)
    : M (option string) :=
    proxies <- _load_proxies file_path ;;
    match proxies with
    | [] => ret None
    | _ =>
        if String.eqb rotation_policy "random" then
          p <- random_choice env proxies ;; ret (Some p)
        else if String.eqb rotation_policy "round-robin" then
          i <- gets _current_proxy_index ;;
          match nth_error proxies i with
          | Some proxy =>
              modify (fun w => with_proxy_index w ((i + 1) mod length proxies)) ;;
              ret (Some proxy)
          | None => raise IndexError
          end
        else
          logger WARNING (MsgUnknownRotationPolicy rotation_policy) ;;
          p <- random_choice env proxies ;; ret (Some p)
    end.

  (** [proxies.remove(proxy)]: the list without the first occurrence. *)
Fixpoint list_remove (proxy : string) (proxies : list string)
    : list string :=
    match proxies with
    | [] => []
    | p :: rest =>
        if String.eqb p proxy then rest else p :: list_remove proxy rest
    end.

  (** [remove_proxy].  The list that [_load_proxies] returns, when it is
      not empty, is the list object of the cache (a load returns the
      cached list, or caches the list it returns), so that
      [proxies.remove(proxy)] takes the entry out of the cache in place,
      before the file is written; the cursor is left as it is. *)
Definition remove_proxy (file_path proxy : string) : M unit :=
    proxies <- _load_proxies file_path ;;
    if negb (str_in proxy proxies) then
      logger INFO (MsgProxyNotInFile proxy file_path)
    else
      let proxies := list_remove proxy proxies in
      modify (fun w => match _proxies_cache w with
                       | Some _ => with_proxies_cache w (Some proxies)
                       | None => w
                       end) ;;
      t <- next_tick ;;
      match write_file env t file_path proxies with
      | Some e => logger ERROR (MsgErrorRemovingProxy proxy file_path e)
      | None =>
          modify (fun w => match _proxies_cache w with
                           | Some _ => with_proxies_cache w (Some proxies)
                           | None => w
                           end) ;;
          logger INFO (MsgRemovedProxy proxy file_path)
      end.

  (** [n] consecutive calls, results in call order. *)
Fixpoint get_proxy_times (n : nat) (file_path rotation_policy : string)
    : M (list (option string)) :=
    match n with
    | 0 => ret []
    | S n' =>
        p <- get_proxy file_path rotation_policy ;;
        ps <- get_proxy_times n' file_path rotation_policy ;;
        ret (p :: ps)
    end.
End WithEnv.
End proxy_manager.

(* ================================================================== *)
(** ** [utils/robots_txt.py]                                          *)
(* ================================================================== *)

Definition Qltb (a b : Q) : bool := negb (Qle_bool b a).

Module RobotsTxtChecker.
Section WithEnv.
Variable env : Env.

Definition _robots_parsers_max_cache_size : nat := 100.
Definition _robots_parsers_cache_ttl : Q := 3600 # 1.

  (** [del _robots_parsers[base_url]; del _robots_parsers_last_used[base_url]] *)
Definition del_entry (base_url : string) : M unit :=
    ps <- gets _robots_parsers ;;
    match PyDict.del ps base_url with
    | None => raise (KeyError base_url)
    | Some ps' =>
        modify (fun w => with_robots w ps' (_robots_parsers_last_used w)) ;;
        lu <- gets _robots_parsers_last_used ;;
        match PyDict.del lu base_url with
        | None => raise (KeyError base_url)
        | Some lu' => modify (fun w => with_robots w (_robots_parsers w) lu')
        end
    end.

  (** [sorted(items, key=lambda x: x[1])], a stable sort. *)
Fixpoint insert_by_time (x : string * Q) (l : list (string * Q))
    : list (string * Q) :=
    match l with
    | [] => [x]
    | y :: l' =>
        if Qle_bool (snd x) (snd y) then x :: y :: l'
        else y :: insert_by_time x l'
    end.

Fixpoint sorted_by_time (l : list (string * Q)) : list (string * Q) :=
    match l with
    | [] => []
    | x :: l' => insert_by_time x (sorted_by_time l')
    end.

Definition _cleanup_old_parsers : M unit :=
    ps <- gets _robots_parsers ;;
    if length ps <=? _robots_parsers_max_cache_size then ret tt
    else
      current_time <- time env ;;
      for_each (PyDict.keys ps)
        (fun base_url =>
           lu <- gets _robots_parsers_last_used ;;
           let last_used :=
             match PyDict.get lu base_url with Some t => t | None => 0%Q end in
           if Qltb _robots_parsers_cache_ttl (current_time - last_used)%Q
           then del_entry base_url
           else ret tt) ;;
      ps' <- gets _robots_parsers ;;
      if _robots_parsers_max_cache_size <? length ps' then
        lu <- gets _robots_parsers_last_used ;;
        let sorted_urls := sorted_by_time lu in
        for_each
          (firstn (length ps' - _robots_parsers_max_cache_size) sorted_urls)
          (fun entry => del_entry (fst entry))
      else ret tt.

Definition _get_robots_parser (base_url : string)
    : M (option RobotFileParser) :=
    _cleanup_old_parsers ;;
    ps <- gets _robots_parsers ;;
    match PyDict.get ps base_url with
    | Some parser =>
        now <- time env ;;
        modify (fun w => with_robots w (_robots_parsers w)
                           (PyDict.set (_robots_parsers_last_used w) base_url now)) ;;
        ret (Some parser)
    | None =>
        t <- next_tick ;;
        modify (fun w => with_urlopened w
                           (urlopened w
                            ++ [(base_url ++ "/robots.txt")%string])) ;;
        match robots_read env t (base_url ++ "/robots.txt") with
        | Ok parser =>
            modify (fun w => with_robots w
                               (PyDict.set (_robots_parsers w) base_url parser)
                               (_robots_parsers_last_used w)) ;;
            now <- time env ;;
            modify (fun w => with_robots w (_robots_parsers w)
                               (PyDict.set (_robots_parsers_last_used w) base_url now)) ;;
            ret (Some parser)
        | Raise e =>
            logger ERROR (MsgErrorReadingRobots base_url e) ;;
            ret None
        end
    end.

  (** [self.user_agent] is the first argument. *)
Definition can_fetch (self_user_agent : string) (url : string) : M bool :=
    match urlparse env url with
    | Raise e => raise e           (* outside the [try] *)
    | Ok parsed_url =>
        let base_url :=
          (scheme parsed_url ++ "://" ++ netloc parsed_url)%string in
        let path :=
          if nonempty (path parsed_url) then path parsed_url else "/" in
        try_except
          (parser <- _get_robots_parser base_url ;;
           match parser with
           | Some p => ret (rp_can_fetch p self_user_agent path)
           | None => ret true
           end)
          (fun e => logger ERROR (MsgErrorCheckingRobots url e) ;; ret true)
    end.
End WithEnv.
End RobotsTxtChecker.

(* ================================================================== *)
(** ** [engines/requests_engine.py]                                   *)
(* ================================================================== *)

Module RequestsEngine.

  (** [for processor in processors: if value is not None: value = processor(value)] *)
Fixpoint apply_processors (processors : list processor) (v : value)
    : result value :=
    match processors with
    | [] => Ok v
    | p :: ps =>
        if is_none v then apply_processors ps v
        else rbind (p v) (apply_processors ps)
    end.

  (** The body of the loop over the matched elements. *)
Definition extract_element (attribute : option string)
             (processors : list processor) (element : Tag) : result value :=
    let v := match attribute with
             | Some a => if nonempty a then tag_get element a
                         else VStr (get_text_strip element)
             | None => VStr (get_text_strip element)
             end in
    apply_processors processors v.

  (** [for element in elements: ...; extracted_data.append(value)] *)
Fixpoint extract_elements (attribute : option string)
           (processors : list processor) (elements : list Tag)
           (extracted_data : list value) : result (list value) :=
    match elements with
    | [] => Ok extracted_data
    | element :: rest =>
        rbind (extract_element attribute processors element)
              (fun v => extract_elements attribute processors rest
                          (extracted_data ++ [v]))
    end.

  (** One iteration of [for field_name, field_schema in schema.items()]. *)
Definition extract_field (soup : Soup) (res : record)
             (field_name : string) (fs : field_schema) : result record :=
    match fs with
    | FStr selector =>
        rbind (soup_select soup selector)
          (fun elements =>
             match elements with
             | [] => Ok (PyDict.set res field_name VNone)
             | [e] => Ok (PyDict.set res field_name (VStr (get_text_strip e)))
             | _ => Ok (PyDict.set res field_name
                          (VList (map (fun e => VStr (get_text_strip e))
                                      elements)))
             end)
    | FDict selector attribute multiple processors =>
        match selector with
        | Some sel =>
            if nonempty sel then
              rbind (soup_select soup sel)
                (fun elements =>
                   match elements with
                   | [] => Ok (PyDict.set res field_name
                                 (if multiple then VList [] else VNone))
                   | _ =>
                       rbind (extract_elements attribute processors elements [])
                         (fun extracted_data =>
                            if multiple then
                              Ok (PyDict.set res field_name
                                    (VList extracted_data))
                            else
                              Ok (PyDict.set res field_name
                                    (match extracted_data with
                                     | v :: _ => v
                                     | [] => VNone
                                     end)))
                   end)
            else Ok res          (* warning, [continue] *)
        | None => Ok res         (* warning, [continue] *)
        end
    | FOther => Ok res
    end.

Fixpoint extract_fields (soup : Soup) (items : schema) (res : record)
    : result record :=
    match items with
    | [] => Ok res
    | (field_name, fs) :: rest =>
        rbind (extract_field soup res field_name fs)
              (extract_fields soup rest)
    end.

Definition _extract_data (soup : Soup) (sch : schema) : result record :=
    extract_fields soup sch [].

  (** The warning of the [if not selector] branch. *)
Definition field_warning (field_name : string) (fs : field_schema)
    : list message :=
    match fs with
    | FDict selector _ _ _ =>
        if str_truthy selector then [] else [MsgNoSelector field_name]
    | _ => []
    end.

  (** The warnings [_extract_data] logs until it returns or raises. *)
Fixpoint extract_fields_log (soup : Soup) (items : schema) (res : record)
    : list message :=
    match items with
    | [] => []
    | (field_name, fs) :: rest =>
        field_warning field_name fs ++
        match extract_field soup res field_name fs with
        | Ok res' => extract_fields_log soup rest res'
        | Raise _ => []
        end
    end.

Definition _extract_data_log (soup : Soup) (sch : schema) : list message :=
    extract_fields_log soup sch [].

Section WithEnv.
Variable env : Env.

  (** [raise_for_status]: 4xx and 5xx raise. *)
Definition is_error_status (status_code : Z) : bool :=
    ((400 <=? status_code) && (status_code <? 600))%Z.

  (** The body of [_fetch_page]: one attempt. *)
Definition fetch_attempt (url : string) : M string :=
    rotation <- gets (fun w => user_agent_rotation (config w)) ;;
    (if rotation then
       list_path <- gets (fun w => user_agent_list_path (config w)) ;;
       ua <- user_agent_manager.get_random_user_agent env list_path ;;
       modify (fun w => with_session_headers w
                          (PyDict.set (session_headers w) "User-Agent" ua))
     else ret tt) ;;
    use <- gets (fun w => use_proxies (config w)) ;;
    proxies <-
      (if use then
         cfg <- gets config ;;
         proxy <- proxy_manager.get_proxy env (proxy_list_path cfg)
                    (proxy_rotation_policy cfg) ;;
         ret (if str_truthy proxy then
                match proxy with
                | Some p => Some [("http", p); ("https", p)]
                | None => None
                end
              else None)
       else ret None) ;;
    cfg <- gets config ;;
    hs <- gets session_headers ;;
    let request := mkRequest url hs (timeout cfg) (verify_ssl cfg) proxies in
    t <- next_tick ;;
    modify (fun w => with_sent w (sent w ++ [request])) ;;
    match session_get env t request with
    | Failed e => raise e
    | Response status_code text =>
        if is_error_status status_code then raise (HTTPError status_code)
        else ret text
    end.

  (** tenacity: after a failed attempt, stop when the budget is used up,
      otherwise wait and call again. [more] is the number of further
      attempts allowed. *)
Fixpoint retry_loop {A} (more : nat) (wait : Q) (fn : M A) : M A :=
    try_except fn
      (fun e => match more with
                | 0 => raise (RetryError e)
                | S more' => sleep wait ;; retry_loop more' wait fn
                end).

  (** [@retry(stop=stop_after_attempt(n), wait=wait_fixed(d))] *)
Definition retry {A} (stop_after_attempt : nat) (wait_fixed : Q) (fn : M A)
    : M A :=
    retry_loop (stop_after_attempt - 1) wait_fixed fn.

Definition _fetch_page (url : string) : M string :=
    retry 3 (2 # 1) (fetch_attempt url).

Definition lift {A} (r : result A) : M A := fun w => (r, w).

Definition scrape (url : string) (sch : schema) : M record :=
    try_except
      (html <- _fetch_page url ;;
       let soup := BeautifulSoup env html in
       for_each (_extract_data_log soup sch) (logger WARNING) ;;
       lift (_extract_data soup sch))
      (fun e => logger ERROR (MsgErrorScraping url e) ;; ret []).
End WithEnv.
End RequestsEngine.

(* ================================================================== *)
(** ** [scraper.py]                                                   *)
(* ================================================================== *)

Module Scraper.

  (** The instance: [self.config] and the engine's [self.config] are the
      configuration object of the world; [self.robots_checker] holds the
      user agent it was built with. *)
Record t : Type := mkScraper {
    robots_checker : option string
  }.

Section WithEnv.
Variable env : Env.

  (** The names in the engine registry. *)
Variable _engines : list string.

  (** [Scraper(engine, config)]: the configuration object of the world is
      the one passed in (or the fresh one when none is passed). *)
Definition init (engine_arg : string) : M t :=
    cfg <- gets config ;;
    (if nonempty engine_arg && negb (String.eqb engine_arg (engine cfg))
     then modify (fun w => with_config w (set_engine (config w) engine_arg))
     else ret tt) ;;
    cfg <- gets config ;;
    if str_in (engine cfg) _engines then
      (* RequestsEngine.__init__: self.session.headers.update(config.headers) *)
      modify (fun w => with_session_headers w
                (fold_left (fun h kv => PyDict.set h (fst kv) (snd kv))
                           (headers cfg) (session_headers w))) ;;
      ret (mkScraper (if respect_robots_txt cfg then Some (user_agent cfg)
                      else None))
    else raise (ValueError "Engine not found").

Definition scrape (self : t) (url : string) (sch : schema) : M record :=
    logger INFO (MsgScrapingURL url) ;;
    allowed <- match robots_checker self with
               | Some ua => RobotsTxtChecker.can_fetch env ua url
               | None => ret true
               end ;;
    if negb allowed then
      logger WARNING (MsgRobotsDisallows url) ;; ret []
    else
      delay <- gets (fun w => request_delay (config w)) ;;
      (if Qltb 0 delay then
         logger DEBUG (MsgApplyingDelay delay) ;; sleep delay
       else ret tt) ;;
      try_except
        (result <- RequestsEngine.scrape env url sch ;;
         logger INFO (MsgScraped url) ;;
         ret result)
        (fun e => logger ERROR (MsgErrorScraping url e) ;; ret []).

  (** [for url in urls: ...] with the list [results] built so far. *)
Fixpoint scrape_loop (self : t) (urls : list string) (sch : schema)
           (results : list record) : M (list record) :=
    match urls with
    | [] => ret results
    | url :: rest =>
        result <- scrape self url sch ;;
        if PyDict.truthy result then
          scrape_loop self rest sch
            (results ++ [PyDict.set result "url" (VStr url)])
        else scrape_loop self rest sch results
    end.

Definition scrape_multiple (self : t) (urls : list string) (sch : schema)
    : M (list record) :=
    logger INFO (MsgScrapingMany (length urls)) ;;
    results <- scrape_loop self urls sch [] ;;
    logger INFO (MsgScrapedMany (length results) (length urls)) ;;
    ret results.
End WithEnv.
End Scraper.

(* ================================================================== *)
(** ** [exporters/csv_exporter.py]                                    *)
(* ================================================================== *)

Module CSVExporter.

  (** [data] is one record or a list of records. *)
Inductive export_data : Type :=
  | OneRecord (r : record)
  | Records (l : list record).

Section WithStr.
  (** Python's [str] on a list or a dict. *)
Variable py_str : value -> string.

  (** [for key in item.keys(): if key not in fieldnames: fieldnames.append(key)] *)
Fixpoint add_keys (fieldnames : list string) (ks : list string)
    : list string :=
    match ks with
    | [] => fieldnames
    | key :: ks' =>
        if str_in key fieldnames then add_keys fieldnames ks'
        else add_keys (fieldnames ++ [key]) ks'
    end.

  (** [for item in data[1:]: ...] *)
Fixpoint add_items (fieldnames : list string) (items : list record)
    : list string :=
    match items with
    | [] => fieldnames
    | item :: rest => add_items (add_keys fieldnames (PyDict.keys item)) rest
    end.

Definition fieldnames_of (data : list record) : list string :=
    match data with
    | [] => []
    | first :: rest => add_items (PyDict.keys first) rest
    end.

  (** [for key, value in item.items(): row[key] = ...] *)
Fixpoint make_row (items : list (string * value)) (row : record) : record :=
    match items with
    | [] => row
    | (key, v) :: rest =>
        make_row rest
          (PyDict.set row key (if is_list_or_dict v then VStr (py_str v) else v))
    end.

  (** [csv.DictWriter._dict_to_list] with [restval=''] and
      [extrasaction='raise']. *)
Definition _dict_to_list (fieldnames : list string) (rowdict : record)
    : result (list value) :=
    if forallb (fun k => str_in k fieldnames) (PyDict.keys rowdict) then
      Ok (map (fun key => match PyDict.get rowdict key with
                          | Some v => v
                          | None => VStr EmptyString
                          end) fieldnames)
    else Raise (ValueError "dict contains fields not in fieldnames").

  (** What [csv.writer] puts in a column, before quoting. *)
Definition cell_text (v : value) : string :=
    match v with
    | VNone => EmptyString
    | VStr s => s
    | _ => py_str v
    end.

  (** [for item in data: ...; writer.writerow(row)], with the rows
      written so far. *)
Fixpoint write_rows (fieldnames : list string) (data : list record)
           (written : list (list string)) : result (list (list string)) :=
    match data with
    | [] => Ok written
    | item :: rest =>
        rbind (_dict_to_list fieldnames (make_row item []))
              (fun cells =>
                 write_rows fieldnames rest (written ++ [map cell_text cells]))
    end.

  (** The rows of the file [export] writes: the header, then one row per
      record. *)
Definition export (data : export_data) : result (list (list string)) :=
    let data := match data with OneRecord r => [r] | Records l => l end in
    match data with
    | [] => Ok []
    | _ =>
        let fieldnames := fieldnames_of data in
        write_rows fieldnames data [fieldnames]
    end.
End WithStr.
End CSVExporter.

(* ================================================================== *)
(** ** Specification-level definitions used to state the properties   *)
(* ================================================================== *)

Module Spec.

  (** The text of a node: its text strings in document order. *)
Definition node_text (node : Tag) : string :=
    String.concat EmptyString (tag_strings node).

  (** The value of one matched node in the words of the specification:
      the named attribute's value, null when the node lacks it, or the
      node's trimmed text when no attribute is named. *)
Definition node_value (attribute : option string) (node : Tag) : value :=
    match attribute with
    | Some name =>
        match PyDict.get (tag_attrs node) name with
        | Some v => v
        | None => VNone
        end
    | None => VStr (strip (node_text node))
    end.

  (** The text strings of a node, each trimmed, put one after the other. *)
Fixpoint trimmed_pieces (strings : list string) : string :=
    match strings with
    | [] => EmptyString
    | s :: rest => strip s ++ trimmed_pieces rest
    end.

  (** The value of one matched node, as amended: an attribute name that
      is empty counts as not given, and the text is made of the trimmed
      text strings of the node. *)
Definition node_value_pieces (attribute : option string) (node : Tag)
    : value :=
    match attribute with
    | Some (String c name) =>
        match PyDict.get (tag_attrs node) (String c name) with
        | Some v => v
        | None => VNone
        end
    | _ => VStr (trimmed_pieces (tag_strings node))
    end.

  (** Processors in declared order; once the value is null the remaining
      processors are skipped. *)
Fixpoint chain (processors : list processor) (v : value) : result value :=
    match v with
    | VNone => Ok VNone
    | _ =>
        match processors with
        | [] => Ok v
        | p :: rest => rbind (p v) (chain rest)
        end
    end.

Fixpoint map_result {A B} (f : A -> result B) (l : list A)
    : result (list B) :=
    match l with
    | [] => Ok []
    | a :: l' =>
        rbind (f a) (fun b => rbind (map_result f l') (fun bs => Ok (b :: bs)))
    end.

  (** The value of a structured field over the matched nodes, given the
      value [value_of] that one node yields. *)
Definition structured_field (value_of : Tag -> value) (nodes : list Tag)
             (multiple : bool) (processors : list processor) : result value :=
    match nodes with
    | [] => Ok (if multiple then VList [] else VNone)
    | _ =>
        rbind (map_result (fun n => chain processors (value_of n)) nodes)
              (fun vs => Ok (if multiple then VList vs
                             else match vs with v :: _ => v | [] => VNone end))
    end.

  (** Keys in first-seen order: each key once, at its first position. *)
Fixpoint first_seen (seen : list string) (ks : list string) : list string :=
    match ks with
    | [] => []
    | k :: ks' =>
        if str_in k seen then first_seen seen ks'
        else k :: first_seen (k :: seen) ks'
    end.

Definition key_union (data : list record) : list string :=
    first_seen [] (concat (map PyDict.keys data)).

  (** The value a row holds under a key of the record. *)
Definition row_value (py_str : value -> string) (v : value) : value :=
    if is_list_or_dict v then VStr (py_str v) else v.

  (** The columns of one record under a header: empty for a key the
      record lacks, the string representation of a list or dictionary. *)
Definition row_cells (py_str : value -> string) (header : list string)
             (item : record) : list string :=
    map (fun k => match PyDict.get item k with
                  | None => EmptyString
                  | Some v => if is_list_or_dict v then py_str v
                              else CSVExporter.cell_text py_str v
                  end) header.

  (** The records of a job in the words of the specification: the URLs
      are scraped one after the other, each from the world the one before
      it left; a URL that produced a record contributes it, with the URL
      stored under ["url"], and a URL that produced none contributes
      nothing. *)
Fixpoint job_records (scrape : string -> M record) (urls : list string)
    : M (list record) :=
    match urls with
    | [] => ret []
    | url :: rest =>
        r <- scrape url ;;
        rs <- job_records scrape rest ;;
        ret (match r with
             | [] => rs
             | _ => PyDict.set r "url" (VStr url) :: rs
             end)
    end.

  (** The URLs whose scrape was started, read off the log. *)
Definition started (l : list (level * message)) : list string :=
    flat_map (fun entry => match entry with
                           | (INFO, MsgScrapingURL url) => [url]
                           | _ => []
                           end) l.

Definition is_failure (o : http_outcome) : Prop :=
    match o with
    | Failed _ => True
    | Response status_code _ =>
        RequestsEngine.is_error_status status_code = true
    end.

End Spec.

(* ================================================================== *)
(** ** A small concrete world, for examples                           *)
(* ================================================================== *)

Module Demo.

Definition h1 : Tag := mkTag ["Hi"] [].
Definition a1 : Tag := mkTag ["first"] [("href", VStr "/a")].
Definition a2 : Tag := mkTag ["second"] [("href", VStr "/b")].
Definition para : Tag := mkTag ["  a  b "] [].
Definition price : Tag := mkTag ["$5"] [].
  (** [<div>Hello <b> big </b> world</div>] *)
Definition mixed : Tag := mkTag ["Hello "; " big "; " world"] [].

  (** A page with one [h1], two anchors, one paragraph, one price and one
      [div]; the selector [h1[] and the empty selector are rejected. *)
Definition page : Soup :=
    mkSoup (fun selector =>
              if String.eqb selector "h1[" || negb (nonempty selector)
              then Some (SelectorSyntaxError selector) else None)
           (fun selector =>
              if String.eqb selector "h1" then [h1]
              else if String.eqb selector "a" then [a1; a2]
              else if String.eqb selector "p" then [para]
              else if String.eqb selector ".price" then [price]
              else if String.eqb selector "div" then [mixed]
              else []).

  (** [s] holds the character [c]. *)
Definition has_char (c : string) (s : string) : bool :=
    match index 0 c s with Some _ => true | None => false end.

  (** Scheme, host and path of a URL of the shape [scheme://host/path];
      a host with one square bracket and not the other is rejected. *)
Definition urlparse (url : string) : result ParseResult :=
    match index 0 "://" url with
    | Some i =>
        let rest := substring (i + 3) (String.length url - (i + 3)) url in
        let host := match index 0 "/" rest with
                    | Some j => substring 0 j rest
                    | None => rest
                    end in
        if xorb (has_char "[" host) (has_char "]" host)
        then Raise (ValueError "Invalid IPv6 URL")
        else
          match index 0 "/" rest with
          | Some j => Ok (mkParse (substring 0 i url) host
                                  (substring j (String.length rest - j) rest))
          | None => Ok (mkParse (substring 0 i url) rest EmptyString)
          end
    | None => Ok (mkParse EmptyString EmptyString url)
    end.

  (** The rules of a robots.txt with [Disallow: /private] for every agent. *)
Definition rules_x : string -> string -> bool :=
    fun _ path => negb (prefix "/private" path).

  (** The parser that reading this robots.txt leaves. *)
Definition robots_x : RobotFileParser :=
    mkParser false false true rules_x.

  (** Host [x] serves the page and the robots.txt; [https://x/broken]
      and every other host are unreachable. *)
Definition env : Env :=
    mkEnv
      (fun _ req =>
         if prefix "https://x/" (req_url req)
            && negb (String.eqb (req_url req) "https://x/broken")
         then Response 200 "<html/>"
         else Failed (ConnectionError "unreachable"))
      (fun _ => page)
      (fun _ url =>
         if String.eqb url "https://x/robots.txt" then RobotsBody rules_x
         else RobotsFailed (URLError "unreachable"))
      urlparse
      (fun t => inject_Z (Z.of_nat t))
      (fun _ _ => 0)
      (fun _ file_path =>
         if String.eqb file_path "./config/proxies.txt"
         then Lines ["http://p1:8080"; " http://p2:8080 "; EmptyString; "http://p3:8080"]
         else Missing)
      (fun _ _ _ => None).

Definition world0 : World :=
    mkWorld 0 [] [] [] default_config [] [] [] None 0 None [].

  (** The same world with [max_retries = 5]. *)
Definition world_retries5 : World :=
    with_config world0 (set_max_retries default_config 5).

  (** A transport that fails four times and then answers. *)
Definition env_flaky : Env :=
    mkEnv
      (fun t _ => if t <? 4 then Failed (ConnectionError "reset")
                  else Response 200 "<html/>")
      (fun _ => page)
      (fun _ _ => RobotsFailed (URLError "unreachable"))
      urlparse
      (fun t => inject_Z (Z.of_nat t))
      (fun _ _ => 0)
      (fun _ _ => Missing)
      (fun _ _ _ => None).

Definition fault : processor := fun _ => Raise (ProcessorFault "bad value").

Definition scenario : schema :=
    [ ("title", FStr "h1");
      ("links", FDict (Some "a") (Some "href") true []) ].

Definition faulty : schema :=
    [ ("title", FStr "h1");
      ("price", FDict (Some ".price") None false [fault]) ].

  (** A scraper whose robots.txt checker identifies as ["bot"]. *)
Definition bot : Scraper.t := Scraper.mkScraper (Some "bot").

  (** A configuration object asking for another engine. *)
Definition world_selenium : World :=
    with_config world0 (set_engine default_config "selenium").

Definition py_str (v : value) : string :=
    match v with
    | VList _ => "[...]"
    | VDict _ => "{...}"
    | _ => EmptyString
    end.

End Demo.

(* ================================================================== *)
(** ** Predicates used in the statements                              *)
(* ================================================================== *)

(** A string with no leading whitespace. *)
Definition starts_clean (s : string) : Prop :=
  match s with
  | EmptyString => True
  | String c _ => isspace c = false
  end.

(** A computation that returns normally from every world. *)
Definition total {A} (m : M A) : Prop :=
  forall w, exists a w', m w = (Ok a, w').

(** A computation that raises from every world. *)
Definition raises {A} (m : M A) : Prop :=
  forall w, exists e w', m w = (Raise e, w').

(** A property of the world that a computation keeps, whether it returns
    or raises. *)
Definition preserves (P : World -> Prop) {A} (m : M A) : Prop :=
  forall w, P w -> P (snd (m w)).

(** A relation between the world before and after that holds of every
    run of a computation, whether it returns or raises. *)
Definition steps (R : World -> World -> Prop) {A} (m : M A) : Prop :=
  forall w, R w (snd (m w)).

(** The configuration object is untouched and the log has grown by
    entries that do not announce the start of a scrape. *)
Definition frame (w w' : World) : Prop :=
  config w' = config w
  /\ exists l, log w' = log w ++ l /\ Spec.started l = [].

(** A record of a multi-URL job: what [Scraper.scrape] extracted for one
    of the URLs, non-empty, with the URL stored under ["url"]. *)
Definition job_record (env : Env) (self : Scraper.t) (sch : schema)
           (urls : list string) (r : record) : Prop :=
  exists url extracted w0,
    In url urls
    /\ fst (Scraper.scrape env self url sch w0) = Ok extracted
    /\ extracted <> []
    /\ r = PyDict.set extracted "url" (VStr url).

(** A URL that the robots.txt gate of a scraper gets through: the
    scraper has no checker, or [urlparse] accepts the URL. *)
Definition checkable (env : Env) (self : Scraper.t) (url : string) : Prop :=
  Scraper.robots_checker self = None
  \/ exists parsed, urlparse env url = Ok parsed.

(** The configured request delay is one that [time.sleep] accepts. *)
Definition delay_fits (w : World) : Prop :=
  Qle_bool sleep_limit (request_delay (config w)) = false.

(** A list of keys without the first occurrence of [k]. *)
Fixpoint remove_key (k : string) (l : list string) : list string :=
  match l with
  | [] => []
  | x :: l' => if String.eqb x k then l' else x :: remove_key k l'
  end.

(** Every parser cached in [w'] is cached, under the same origin, in [w]. *)
Definition parsers_within (w w' : World) : Prop :=
  forall k v, PyDict.get (_robots_parsers w') k = Some v ->
              PyDict.get (_robots_parsers w) k = Some v.

(** An origin with no cached parser before has none after. *)
Definition stays_absent (base_url : string) (w w' : World) : Prop :=
  PyDict.get (_robots_parsers w) base_url = None ->
  PyDict.get (_robots_parsers w') base_url = None.

(** The two cache dictionaries of [robots_txt.py] hold the same keys in
    the same order, each once: entries are added and deleted in pairs. *)
Definition cache_ok (w : World) : Prop :=
  PyDict.keys (_robots_parsers w) = PyDict.keys (_robots_parsers_last_used w)
  /\ NoDup (PyDict.keys (_robots_parsers w)).

(* ================================================================== *)
(** ** Further predicates                                             *)
(* ================================================================== *)

(** A string without whitespace characters. *)
Fixpoint no_space (s : string) : bool :=
  match s with
  | EmptyString => true
  | String c s' => negb (isspace c) && no_space s'
  end.

(** A word: not empty, no whitespace. *)
Definition is_word (s : string) : Prop :=
  nonempty s = true /\ no_space s = true.

(** The schema entries that put a key in the record: plain selectors and
    structured entries with a non-empty selector. *)
Definition extractable (fs : field_schema) : bool :=
  match fs with
  | FStr _ => true
  | FDict selector _ _ _ => str_truthy selector
  | FOther => false
  end.

(** The selector a schema entry passes to [soup.select]. *)
Definition selector_of (fs : field_schema) : option string :=
  match fs with
  | FStr selector => Some selector
  | FDict (Some selector) _ _ _ =>
      if nonempty selector then Some selector else None
  | _ => None
  end.

(** The processors of a schema entry. *)
Definition processors_of (fs : field_schema) : list processor :=
  match fs with
  | FDict _ _ _ processors => processors
  | _ => []
  end.

(** A processor that returns a value on every input. *)
Definition never_faults (p : processor) : Prop :=
  forall v, exists v', p v = Ok v'.

(** What an attempt makes of the transport's answer: a transport failure
    and a 4xx or 5xx status raise, any other status gives the body. *)
Definition attempt_outcome (o : http_outcome) : result string :=
  match o with
  | Failed e => Raise e
  | Response status_code text =>
      if RequestsEngine.is_error_status status_code
      then Raise (HTTPError status_code) else Ok text
  end.

(** The [proxies] argument of a request sent through [proxy]. *)
Definition through (proxy : string) : option (dict string) :=
  Some [("http", proxy); ("https", proxy)].

(** Neither user-agent rotation nor proxies. *)
Definition plain_config (c : ScraperConfig) : Prop :=
  user_agent_rotation c = false /\ use_proxies c = false.

(** Proxies in round-robin, no user-agent rotation. *)
Definition round_robin_config (c : ScraperConfig) : Prop :=
  user_agent_rotation c = false /\ use_proxies c = true
  /\ proxy_rotation_policy c = "round-robin".

(** Worlds for the examples of this part. *)
Module Examples.

(** The default configuration with proxies switched on. *)
Definition proxied_config : ScraperConfig :=
  mkConfig "requests" "chrome" true default_user_agent false
    "./config/user_agents.txt" true "round-robin" "./config/proxies.txt"
    true (2 # 1) 30 3 30 true [] (default_headers default_user_agent)
    false "2captcha" EmptyString "INFO" "./data".

(** Three proxies cached, the cursor on the second. *)
Definition world_proxied : World :=
  with_proxy_index
    (with_proxies_cache (with_config Demo.world0 proxied_config)
       (Some ["http://p1:8080"; "http://p2:8080"; "http://p3:8080"]))
    1.

(** One proxy left in the cache, the cursor still on position 2. *)
Definition world_stale_cursor : World :=
  with_proxy_index
    (with_proxies_cache (with_config Demo.world0 proxied_config)
       (Some ["http://p1:8080"]))
    2.

(** A transport that fails once and then answers. *)
Definition env_recovers : Env :=
  mkEnv
    (fun t _ => if t <? 1 then Failed (ConnectionError "reset")
                else Response 200 "<html/>")
    (fun _ => Demo.page)
    (fun _ _ => RobotsFailed (URLError "unreachable"))
    Demo.urlparse
    (fun t => inject_Z (Z.of_nat t))
    (fun _ _ => 0)
    (fun _ _ => Missing)
    (fun _ _ _ => None).

(** A transport that never answers. *)
Definition env_down : Env :=
  mkEnv
    (fun _ _ => Failed (ConnectionError "unreachable"))
    (fun _ => Demo.page)
    (fun _ _ => RobotsFailed (URLError "unreachable"))
    Demo.urlparse
    (fun t => inject_Z (Z.of_nat t))
    (fun _ _ => 0)
    (fun _ _ => Missing)
    (fun _ _ _ => None).

End Examples.

Module Outage.

(** Host [x] serves its pages, and answers the request for its
    robots.txt with the status 503. *)
Definition env : Env :=
  mkEnv
    (session_get Demo.env)
    (BeautifulSoup Demo.env)
    (fun _ _ => RobotsHTTPError 503)
    Demo.urlparse
    (time_time Demo.env)
    (randbelow Demo.env)
    (read_file Demo.env)
    (write_file Demo.env).

End Outage.

(** A proxy or user-agent file that yields no entry: missing, unreadable,
    or without a non-blank line. *)
Definition yields_nothing (o : file_outcome) : Prop :=
  match o with
  | Missing => True
  | Unreadable _ => True
  | Lines ls => stripped_lines ls = []
  end.

(** A component of the world that is the same before and after. *)
Definition same {X} (f : World -> X) (w w' : World) : Prop := f w' = f w.

(** [l1] is [l2] with some elements left out, the order kept. *)
Inductive subseq {A} : list A -> list A -> Prop :=
| subseq_nil : subseq [] []
| subseq_skip x l1 l2 : subseq l1 l2 -> subseq l1 (x :: l2)
| subseq_take x l1 l2 : subseq l1 l2 -> subseq (x :: l1) (x :: l2).

(** A computation that sends at most [n] requests, all of them
    satisfying [P], whether it returns or raises. *)
Definition sends (P : Request -> Prop) (n : nat) {A} (m : M A) : Prop :=
  forall w, exists l,
    sent (snd (m w)) = sent w ++ l /\ length l <= n /\ Forall P l.

(** A computation that opens at most [n] robots.txt URLs, all of them
    satisfying [P], whether it returns or raises. *)
Definition opens (P : string -> Prop) (n : nat) {A} (m : M A) : Prop :=
  forall w, exists l,
    urlopened (snd (m w)) = urlopened w ++ l /\ length l <= n /\ Forall P l.

(** The robots.txt URL of the origin of [url]. *)
Definition robots_url_of (env : Env) (url : string) (u : string) : Prop :=
  exists parsed,
    urlparse env url = Ok parsed
    /\ u = ((scheme parsed ++ "://" ++ netloc parsed) ++ "/robots.txt")%string.

(** [current_time - _robots_parsers_last_used.get(base_url, 0) > ttl] *)
Definition is_stale (now : Q) (last_used : dict Q) (base_url : string) : bool :=
  Qltb RobotsTxtChecker._robots_parsers_cache_ttl
       (now - match PyDict.get last_used base_url with
              | Some t => t
              | None => 0
              end)%Q.

(** Every time stamp recorded in [w'] is recorded, for the same origin,
    in [w]. *)
Definition times_within (w w' : World) : Prop :=
  forall k t, PyDict.get (_robots_parsers_last_used w') k = Some t ->
              PyDict.get (_robots_parsers_last_used w) k = Some t.

(** No string occurs twice. *)
Fixpoint distinct (l : list string) : bool :=
  match l with
  | [] => true
  | x :: l' => negb (str_in x l') && distinct l'
  end.

Module FullCache.

(** The origin [https://site<i>]. *)
Definition origin (i : nat) : string :=
  "https://site" ++ NilEmpty.string_of_uint (Nat.to_uint i).

(** A cache of 101 origins, none stale at time 0, the origin [i] last
    used at [37 * i mod 101]. *)
Definition world : World :=
  with_robots Demo.world0
    (map (fun i => (origin i, Demo.robots_x)) (seq 0 101))
    (map (fun i => (origin i, inject_Z (Z.of_nat ((37 * i) mod 101))))
         (seq 0 101)).

End FullCache.

(* ================================================================== *)
(** * Properties                                                      *)
(* ================================================================== *)

(** ** Dictionaries *)

Section DictFacts.
Context {V : Type}.
Implicit Types (d : dict V) (k : string) (v : V).

Lemma get_set_same d k v : PyDict.get (PyDict.set d k v) k = Some v.
  Proof.
    induction d as [|[k' v'] d IH]; simpl.
    - now rewrite String.eqb_refl.
    - destruct (String.eqb k' k) eqn:E; simpl; rewrite E; auto.
  Qed.

Lemma get_set_other d k k' v :
    k <> k' -> PyDict.get (PyDict.set d k v) k' = PyDict.get d k'.
  Proof.
    intros Hne. induction d as [|[k0 v0] d IH]; simpl.
    - destruct (String.eqb k k') eqn:E; auto.
      apply String.eqb_eq in E. contradiction.
    - destruct (String.eqb k0 k) eqn:E; simpl.
      + apply String.eqb_eq in E. subst k0.
        destruct (String.eqb k k') eqn:E'; auto.
        apply String.eqb_eq in E'. contradiction.
      + destruct (String.eqb k0 k'); auto.
  Qed.

Lemma set_not_nil d k v : PyDict.set d k v <> [].
  Proof.
    destruct d as [|[k' v'] d]; simpl; try discriminate.
    destruct (String.eqb k' k); discriminate.
  Qed.

Lemma keys_set_other d k v k' :
    In k' (PyDict.keys (PyDict.set d k v)) <-> k' = k \/ In k' (PyDict.keys d).
  Proof.
    induction d as [|[k0 v0] d IH]; simpl.
    - intuition.
    - destruct (String.eqb k0 k) eqn:E; simpl.
      + apply String.eqb_eq in E. subst. intuition.
      + rewrite IH. intuition.
  Qed.

Lemma get_none_not_in d k :
    PyDict.get d k = None <-> ~ In k (PyDict.keys d).
  Proof.
    induction d as [|[k0 v0] d IH]; simpl.
    - intuition.
    - destruct (String.eqb k0 k) eqn:E.
      + apply String.eqb_eq in E. subst. split; [discriminate | intuition].
      + apply String.eqb_neq in E. rewrite IH. intuition.
  Qed.

Lemma get_some_in d k v : PyDict.get d k = Some v -> In (k, v) d.
  Proof.
    induction d as [|[k0 v0] d IH]; simpl; [discriminate|].
    destruct (String.eqb k0 k) eqn:E.
    - apply String.eqb_eq in E. intros [= ->]. subst. now left.
    - auto.
  Qed.
End DictFacts.

Lemma str_in_In x l : str_in x l = true <-> In x l.
Proof.
  induction l as [|y l IH]; simpl.
  - split; [discriminate | tauto].
  - rewrite orb_true_iff, IH, String.eqb_eq. tauto.
Qed.

Lemma str_in_app x l1 l2 : str_in x (l1 ++ l2) = str_in x l1 || str_in x l2.
Proof.
  induction l1 as [|y l1 IH]; simpl; auto.
  rewrite IH. now rewrite orb_assoc.
Qed.

(** ** Stripping *)

Lemma lstrip_fixed c s : isspace c = false -> lstrip (String c s) = String c s.
Proof. intros H. simpl. now rewrite H. Qed.

Lemma lstrip_starts_clean s : starts_clean (lstrip s).
Proof.
  induction s as [|c s IH]; simpl; auto.
  destruct (isspace c) eqn:E; simpl; auto.
Qed.

Lemma starts_clean_lstrip s : starts_clean s -> lstrip s = s.
Proof. destruct s as [|c s]; simpl; auto. intros ->. reflexivity. Qed.

Lemma rstrip_idem s : rstrip (rstrip s) = rstrip s.
Proof.
  induction s as [|c s IH]; simpl; auto.
  destruct (rstrip s) as [|c' r] eqn:E.
  - destruct (isspace c) eqn:Ec; simpl; auto. now rewrite Ec.
  - simpl in *. rewrite IH. reflexivity.
Qed.

Lemma rstrip_tail c s : rstrip (String c s) = String c s -> rstrip s = s.
Proof.
  simpl. destruct (rstrip s) as [|c' r] eqn:E.
  - destruct (isspace c); [discriminate|]. now intros [= <-].
  - now intros [= <-].
Qed.

Lemma rstrip_lstrip_fixed s : rstrip s = s -> rstrip (lstrip s) = lstrip s.
Proof.
  induction s as [|c s IH]; [auto|].
  intros H. cbn [lstrip]. destruct (isspace c) eqn:Ec.
  - apply IH. apply (rstrip_tail c). exact H.
  - exact H.
Qed.

Lemma strip_fixed s : rstrip s = s -> starts_clean s -> strip s = s.
Proof.
  intros Hr Hl. unfold strip. rewrite Hr. now apply starts_clean_lstrip.
Qed.

Lemma strip_rstrip s : rstrip (strip s) = strip s.
Proof. unfold strip. apply rstrip_lstrip_fixed. apply rstrip_idem. Qed.

Lemma strip_starts_clean s : starts_clean (strip s).
Proof. apply lstrip_starts_clean. Qed.

Lemma rstrip_append a b :
  b <> EmptyString -> rstrip b = b -> rstrip (a ++ b) = (a ++ b)%string.
Proof.
  intros Hb Hr. induction a as [|c a IH]; simpl; auto.
  rewrite IH. destruct (a ++ b)%string eqn:E; auto.
  destruct a; simpl in E; congruence.
Qed.

Lemma starts_clean_append a b :
  a <> EmptyString -> starts_clean a -> starts_clean (a ++ b).
Proof. destruct a; simpl; auto. congruence. Qed.

(** Joining trimmed, non-empty pieces gives a trimmed string. *)
Lemma concat_trimmed (pieces : list string) :
  Forall (fun p => p <> EmptyString /\ rstrip p = p /\ starts_clean p) pieces ->
  rstrip (String.concat EmptyString pieces) = String.concat EmptyString pieces
  /\ starts_clean (String.concat EmptyString pieces)
  /\ (pieces <> [] -> String.concat EmptyString pieces <> EmptyString).
Proof.
  induction 1 as [|p ps [Hne [Hr Hs]] HF [IHr [IHs IHn]]]; simpl.
  - repeat split; auto; congruence.
  - destruct ps as [|q ps].
    + repeat split; auto.
    + assert (Hq : String.concat EmptyString (q :: ps) <> EmptyString)
        by (apply IHn; discriminate).
      simpl. repeat split.
      * apply rstrip_append; auto.
      * apply starts_clean_append; auto.
      * intros _. destruct p; simpl; congruence.
Qed.

Lemma nonempty_true s : nonempty s = true <-> s <> EmptyString.
Proof. destruct s; simpl; split; congruence. Qed.

Lemma get_text_strip_trimmed (e : Tag) :
  strip (get_text_strip e) = get_text_strip e.
Proof.
  unfold get_text_strip.
  destruct (concat_trimmed (filter nonempty (map strip (tag_strings e))))
    as [Hr [Hs _]].
  - apply Forall_forall. intros p Hp. apply filter_In in Hp.
    destruct Hp as [Hin Hne]. apply in_map_iff in Hin.
    destruct Hin as [s [<- _]]. split; [now apply nonempty_true|].
    split; [apply strip_rstrip | apply strip_starts_clean].
  - now apply strip_fixed.
Qed.

Lemma get_text_strip_single (e : Tag) (s : string) :
  tag_strings e = [s] -> get_text_strip e = strip s.
Proof.
  intros H. unfold get_text_strip. rewrite H. simpl.
  destruct (strip s) eqn:E; reflexivity.
Qed.

(** ** Extraction *)

Section ExtractionFacts.
Import RequestsEngine.

Lemma extract_field_shape soup res name fs res' :
    extract_field soup res name fs = Ok res' ->
    res' = res \/ exists v, res' = PyDict.set res name v.
  Proof.
    destruct fs as [sel | sel attribute multiple ps | ]; simpl.
    - unfold soup_select.
      destruct (select_error soup sel); simpl; [discriminate|].
      destruct (select soup sel) as [|e [|e' es]]; intros [= <-]; eauto.
    - destruct sel as [sel|]; [|intros [= <-]; auto].
      destruct (nonempty sel); [|intros [= <-]; auto].
      unfold soup_select.
      destruct (select_error soup sel); simpl; [discriminate|].
      destruct (select soup sel) as [|e es]; [intros [= <-]; eauto|].
      destruct (extract_elements attribute ps (e :: es) []) as [vs|x];
        simpl; [|discriminate].
      destruct multiple; intros [= <-]; eauto.
    - intros [= <-]; auto.
  Qed.

Lemma extract_fields_keeps soup items : forall res rec name,
    extract_fields soup items res = Ok rec ->
    ~ In name (map fst items) ->
    PyDict.get rec name = PyDict.get res name.
  Proof.
    induction items as [|[fn fs] items IH]; simpl; intros res rec name H Hn.
    - now inversion H.
    - destruct (extract_field soup res fn fs) as [res'|x] eqn:E;
        simpl in H; [|discriminate].
      rewrite (IH _ _ _ H) by tauto.
      destruct (extract_field_shape _ _ _ _ _ E) as [-> | [v ->]]; auto.
      apply get_set_other. tauto.
  Qed.

Lemma extract_fields_app soup items1 : forall items2 res rec,
    extract_fields soup (items1 ++ items2) res = Ok rec ->
    exists res1, extract_fields soup items1 res = Ok res1
                 /\ extract_fields soup items2 res1 = Ok rec.
  Proof.
    induction items1 as [|[fn fs] items1 IH]; simpl; intros items2 res rec H.
    - eauto.
    - destruct (extract_field soup res fn fs) as [res'|x]; simpl in *;
        [|discriminate].
      apply IH. exact H.
  Qed.

Lemma extract_fields_raise_app soup items1 : forall items2 res,
    (forall res1, exists x, extract_fields soup items2 res1 = Raise x) ->
    exists x, extract_fields soup (items1 ++ items2) res = Raise x.
  Proof.
    induction items1 as [|[fn fs] items1 IH]; simpl; intros items2 res H.
    - apply H.
    - destruct (extract_field soup res fn fs) as [res'|x]; simpl; eauto.
  Qed.

  (** The loop over the elements is a map that stops at the first fault. *)
Lemma extract_elements_map attribute ps elements : forall acc,
    extract_elements attribute ps elements acc =
    rbind (Spec.map_result (extract_element attribute ps) elements)
          (fun vs => Ok (acc ++ vs)).
  Proof.
    induction elements as [|e es IH]; simpl; intros acc.
    - now rewrite app_nil_r.
    - destruct (extract_element attribute ps e) as [v|x]; simpl; auto.
      rewrite IH.
      destruct (Spec.map_result (extract_element attribute ps) es); simpl; auto.
      now rewrite <- app_assoc.
  Qed.

Lemma extract_elements_fault attribute ps elements e x :
    In e elements ->
    extract_element attribute ps e = Raise x ->
    forall acc, exists x', extract_elements attribute ps elements acc = Raise x'.
  Proof.
    induction elements as [|e0 es IH]; simpl; [tauto|].
    intros [-> | Hin] Hx acc.
    - rewrite Hx. simpl. eauto.
    - destruct (extract_element attribute ps e0); simpl; eauto.
  Qed.

  (** Skipping by [if value is not None] is the same as stopping. *)
Lemma apply_processors_none ps : apply_processors ps VNone = Ok VNone.
  Proof. induction ps; simpl; auto. Qed.

Lemma apply_processors_chain ps : forall v,
    apply_processors ps v = Spec.chain ps v.
  Proof.
    induction ps as [|p ps IH]; intros v.
    - destruct v; reflexivity.
    - destruct v; simpl; try apply apply_processors_none;
        match goal with
        | |- rbind ?r _ = _ => destruct r; simpl; auto
        end.
  Qed.

Lemma map_result_ext {A B} (f g : A -> result B) l :
    (forall a, f a = g a) -> Spec.map_result f l = Spec.map_result g l.
  Proof.
    intros H. induction l as [|a l IH]; simpl; auto. now rewrite H, IH.
  Qed.

  (** A processor fault anywhere in the schema makes [_extract_data]
      raise: no record is produced. *)
Lemma extract_data_fault soup sch name sel attribute multiple ps e x :
    In (name, FDict (Some sel) attribute multiple ps) sch ->
    nonempty sel = true ->
    In e (select soup sel) ->
    extract_element attribute ps e = Raise x ->
    exists x', _extract_data soup sch = Raise x'.
  Proof.
    intros Hin Hsel He Hx. apply in_split in Hin.
    destruct Hin as [sch1 [sch2 ->]]. unfold _extract_data.
    apply extract_fields_raise_app. intros res1. simpl. rewrite Hsel.
    unfold soup_select. destruct (select_error soup sel); simpl; [eauto|].
    destruct (select soup sel) as [|e0 es] eqn:Es; [contradiction|].
    destruct (extract_elements_fault attribute ps (e0 :: es) e x He Hx [])
      as [x' Hx'].
    rewrite Hx'. simpl. eauto.
  Qed.
End ExtractionFacts.

(** C3 (as amended).  A plain-selector field of a schema whose extraction
    returns a record has the value null when the selector matches no node,
    the node's text when it matches one node, and the sequence of the
    nodes' texts when it matches several.  Each text is the concatenation
    of the node's text strings, each trimmed, so it has no surrounding
    whitespace; whitespace inside a text string is kept as it is. *)
Theorem plain_selector_field :
  forall (soup : Soup) (sch1 sch2 : schema) (name sel : string) (rec : record),
    ~ In name (map fst sch2) ->
    RequestsEngine._extract_data soup (sch1 ++ (name, FStr sel) :: sch2) = Ok rec ->
    PyDict.get rec name =
      Some (match select soup sel with
            | [] => VNone
            | [e] => VStr (get_text_strip e)
            | es => VList (map (fun e => VStr (get_text_strip e)) es)
            end)
    /\ (forall e, In e (select soup sel) ->
                  strip (get_text_strip e) = get_text_strip e)
    /\ (forall e s, In e (select soup sel) -> tag_strings e = [s] ->
                    get_text_strip e = strip s).
Proof.
  intros soup sch1 sch2 name sel rec Hlater H.
  split; [|split].
  - unfold RequestsEngine._extract_data in H.
    apply extract_fields_app in H. destruct H as [res1 [_ H]].
    simpl in H.
    set (v := match select soup sel with
              | [] => VNone
              | [e] => VStr (get_text_strip e)
              | es => VList (map (fun e => VStr (get_text_strip e)) es)
              end).
    assert (E : RequestsEngine.extract_field soup res1 name (FStr sel)
                = Ok (PyDict.set res1 name v)).
    { unfold v. simpl in *. unfold soup_select in *.
      destruct (select_error soup sel); simpl in *; [discriminate|].
      destruct (select soup sel) as [|e [|e' es]]; auto. }
    simpl in E. rewrite E in H. simpl in H.
    rewrite (extract_fields_keeps _ _ _ _ _ H Hlater).
    apply get_set_same.
  - intros e _. apply get_text_strip_trimmed.
  - intros e s _. apply get_text_strip_single.
Qed.

Lemma plain_selector_field_witness :
  ~ In "title" (map fst [("links", FDict (Some "a") (Some "href") true [])])
  /\ RequestsEngine._extract_data Demo.page
       ([] ++ ("title", FStr "h1")
           :: [("links", FDict (Some "a") (Some "href") true [])])
     = Ok [("title", VStr "Hi"); ("links", VList [VStr "/a"; VStr "/b"])]
  /\ PyDict.get [("title", VStr "Hi"); ("links", VList [VStr "/a"; VStr "/b"])]
                "title" = Some (VStr "Hi").
Proof.
  assert (H1 : ~ In "title"
                 (map fst [("links", FDict (Some "a") (Some "href") true [])]))
    by (simpl; intros [H|[]]; discriminate).
  split; [exact H1|]. split; [reflexivity|].
  exact (proj1 (plain_selector_field Demo.page []
           [("links", FDict (Some "a") (Some "href") true [])] "title" "h1"
           [("title", VStr "Hi"); ("links", VList [VStr "/a"; VStr "/b"])]
           H1 eq_refl)).
Defined.

(** C3, refuted as stated: the text of a paragraph whose only text string
    is ["  a  b "] is extracted as ["a  b"], with the inner run of two
    spaces kept, whereas collapsing runs of whitespace gives ["a b"]. *)
Lemma plain_selector_keeps_inner_whitespace :
  RequestsEngine._extract_data Demo.page [("t", FStr "p")]
    = Ok [("t", VStr "a  b")]
  /\ clean_text "a  b" = "a b"
  /\ "a  b" <> "a b".
Proof. repeat split. discriminate. Qed.

Lemma string_app_nil_r (a : string) : (a ++ EmptyString)%string = a.
Proof. induction a as [|c a IH]; simpl; congruence. Qed.

(** The text the engine takes from a node is made of the node's trimmed
    text strings. *)
Lemma get_text_strip_pieces (e : Tag) :
  get_text_strip e = Spec.trimmed_pieces (tag_strings e).
Proof.
  unfold get_text_strip. induction (tag_strings e) as [|s l IH]; simpl; auto.
  destruct (strip s) as [|c r] eqn:E; simpl; [exact IH|].
  rewrite <- IH. clear IH.
  destruct (filter nonempty (map strip l)) as [|x xs]; simpl; auto.
  now rewrite string_app_nil_r.
Qed.

(** C4 (as amended).  A structured field with a selector that the
    document accepts computes this value: no match gives the empty
    sequence when [multiple] is set and null otherwise, with no error;
    otherwise every matched node yields its attribute (null when absent)
    or, when no attribute or an empty attribute name is given, its text
    strings, each trimmed, one after the other; the processors run in
    declared order and stop at a null value, and the values collapse to
    the first one unless [multiple] is set.  The record holds that value
    under the field's name.  For a node with one text string the text is
    the trimmed text, and the scenario with one heading and two anchors
    yields the title and both links. *)
Theorem structured_field_pieces :
  (forall soup res name sel attribute multiple ps nodes,
      nonempty sel = true -> soup_select soup sel = Ok nodes ->
      RequestsEngine.extract_field soup res name
        (FDict (Some sel) attribute multiple ps)
      = rbind (Spec.structured_field (Spec.node_value_pieces attribute)
                 nodes multiple ps)
              (fun v => Ok (PyDict.set res name v)))
  /\ (forall soup res name sel attribute multiple ps,
         nonempty sel = true -> soup_select soup sel = Ok [] ->
         RequestsEngine.extract_field soup res name
           (FDict (Some sel) attribute multiple ps)
         = Ok (PyDict.set res name (if multiple then VList [] else VNone)))
  /\ (forall soup sch1 sch2 name sel attribute multiple ps rec,
         nonempty sel = true ->
         ~ In name (map fst sch2) ->
         RequestsEngine._extract_data soup
           (sch1 ++ (name, FDict (Some sel) attribute multiple ps) :: sch2)
         = Ok rec ->
         exists v,
           soup_select soup sel = Ok (select soup sel)
           /\ Spec.structured_field (Spec.node_value_pieces attribute)
                (select soup sel) multiple ps = Ok v
           /\ PyDict.get rec name = Some v)
  /\ (forall node s,
         tag_strings node = [s] ->
         Spec.node_value_pieces None node = Spec.node_value None node)
  /\ RequestsEngine._extract_data Demo.page Demo.scenario
     = Ok [("title", VStr "Hi"); ("links", VList [VStr "/a"; VStr "/b"])].
Proof.
  assert (A : forall soup res name sel attribute multiple ps nodes,
      nonempty sel = true -> soup_select soup sel = Ok nodes ->
      RequestsEngine.extract_field soup res name
        (FDict (Some sel) attribute multiple ps)
      = rbind (Spec.structured_field (Spec.node_value_pieces attribute)
                 nodes multiple ps)
              (fun v => Ok (PyDict.set res name v))).
  { intros soup res name sel attribute multiple ps nodes Hsel Hnodes.
    unfold Spec.structured_field. cbn [RequestsEngine.extract_field].
    rewrite Hsel, Hnodes. cbn [rbind].
    destruct nodes as [|e es]; [reflexivity|].
    rewrite extract_elements_map.
    rewrite (map_result_ext (RequestsEngine.extract_element attribute ps)
               (fun n => Spec.chain ps (Spec.node_value_pieces attribute n))).
    - cbv beta iota.
      destruct (Spec.map_result
                  (fun n => Spec.chain ps (Spec.node_value_pieces attribute n))
                  (e :: es)) as [vs|x]; [|reflexivity].
      cbn [rbind app]. destruct multiple; reflexivity.
    - intros n.
      unfold RequestsEngine.extract_element, Spec.node_value_pieces, tag_get.
      rewrite apply_processors_chain, get_text_strip_pieces.
      destruct attribute as [[|c a]|]; reflexivity. }
  split; [exact A|]. split; [|split; [|split]].
  - intros soup res name sel attribute multiple ps Hsel Hnone.
    rewrite (A _ _ _ _ _ _ _ _ Hsel Hnone). reflexivity.
  - intros soup sch1 sch2 name sel attribute multiple ps rec Hsel Hn H.
    unfold RequestsEngine._extract_data in H.
    apply extract_fields_app in H. destruct H as [res1 [_ H]].
    cbn [RequestsEngine.extract_fields] in H.
    assert (Hs : soup_select soup sel = Ok (select soup sel)).
    { unfold soup_select. cbn [RequestsEngine.extract_field] in H.
      rewrite Hsel in H. unfold soup_select in H.
      destruct (select_error soup sel); [discriminate|reflexivity]. }
    rewrite (A soup res1 name sel attribute multiple ps _ Hsel Hs) in H.
    destruct (Spec.structured_field (Spec.node_value_pieces attribute)
                (select soup sel) multiple ps) as [v|x];
      simpl in H; [|discriminate].
    exists v. split; [exact Hs|]. split; auto.
    rewrite (extract_fields_keeps _ _ _ _ _ H Hn). apply get_set_same.
  - intros node s Hs. unfold Spec.node_value_pieces, Spec.node_value,
      Spec.node_text. rewrite Hs. simpl.
    now rewrite string_app_nil_r.
  - reflexivity.
Qed.

Lemma structured_field_pieces_witness :
  nonempty "a" = true
  /\ soup_select Demo.page "a" = Ok [Demo.a1; Demo.a2]
  /\ RequestsEngine.extract_field Demo.page [("title", VStr "Hi")] "links"
       (FDict (Some "a") (Some "href") true [])
     = rbind (Spec.structured_field (Spec.node_value_pieces (Some "href"))
                [Demo.a1; Demo.a2] true [])
             (fun v => Ok (PyDict.set [("title", VStr "Hi")] "links" v)).
Proof.
  split; [reflexivity|]. split; [reflexivity|].
  exact (proj1 structured_field_pieces Demo.page [("title", VStr "Hi")]
           "links" "a" (Some "href") true [] [Demo.a1; Demo.a2]
           eq_refl eq_refl).
Defined.

(** C4, refuted as stated: the [div] whose text strings are ["Hello "],
    [" big "] and [" world"] has the trimmed text ["Hello  big  world"],
    and that is the value the specification gives the field; the engine
    extracts ["Hellobigworld"]. *)
Lemma structured_field_text_not_trimmed :
  soup_select Demo.page "div" = Ok [Demo.mixed]
  /\ Spec.structured_field (Spec.node_value None) [Demo.mixed] false []
     = Ok (VStr "Hello  big  world")
  /\ RequestsEngine.extract_field Demo.page [] "t"
       (FDict (Some "div") None false [])
     = Ok [("t", VStr "Hellobigworld")]
  /\ VStr "Hellobigworld" <> VStr "Hello  big  world".
Proof. repeat split. discriminate. Qed.

(** ** The monad *)

Lemma for_each_logger l (msgs : list message) : forall w,
  for_each msgs (logger l) w
  = (Ok tt, with_log w (log w ++ map (fun m => (l, m)) msgs)).
Proof.
  induction msgs as [|m msgs IH]; intros w; simpl.
  - rewrite app_nil_r. destruct w; reflexivity.
  - unfold bind, logger, modify at 1. cbn. rewrite IH. cbn.
    now rewrite <- app_assoc.
Qed.




(** ** Fetching with retries *)

(** A delay below the limit is slept. *)
Lemma sleep_fits d :
  Qle_bool sleep_limit d = false ->
  sleep d = modify (fun w => with_sleeps w (sleeps w ++ [d])).
Proof. intros H. unfold sleep. now rewrite H. Qed.

(** The wait between two attempts. *)
Lemma sleep_wait :
  sleep (2 # 1) = modify (fun w => with_sleeps w (sleeps w ++ [2 # 1])).
Proof. reflexivity. Qed.

Section FetchFacts.
Variable env : Env.

  (** With rotation and proxies off, an attempt is one request. *)
Lemma fetch_attempt_plain url w :
    user_agent_rotation (config w) = false ->
    use_proxies (config w) = false ->
    let request := mkRequest url (session_headers w) (timeout (config w))
                             (verify_ssl (config w)) None in
    RequestsEngine.fetch_attempt env url w
    = (match session_get env (tick w) request with
       | Failed e => Raise e
       | Response status_code text =>
           if RequestsEngine.is_error_status status_code
           then Raise (HTTPError status_code) else Ok text
       end,
       with_sent (with_tick w (S (tick w))) (sent w ++ [request])).
  Proof.
    intros Hr Hp. unfold RequestsEngine.fetch_attempt, bind, gets.
    cbv beta. rewrite Hr. cbn. rewrite Hp. cbn.
    destruct (session_get env (tick w) _) as [sc text|e]; cbn; auto.
    destruct (RequestsEngine.is_error_status sc); reflexivity.
  Qed.

  (** Whatever [max_retries] says, a transport that always fails is tried
      three times, with a wait of two seconds after the first and after
      the second failure. *)
Lemma fetch_page_three_attempts url w :
    user_agent_rotation (config w) = false ->
    use_proxies (config w) = false ->
    (forall t req, Spec.is_failure (session_get env t req)) ->
    exists e w',
      RequestsEngine._fetch_page env url w = (Raise (RetryError e), w')
      /\ length (sent w') = length (sent w) + 3
      /\ sleeps w' = sleeps w ++ [2 # 1; 2 # 1].
  Proof.
    intros Hr Hp Hfail.
    assert (step : forall w0,
      user_agent_rotation (config w0) = false ->
      use_proxies (config w0) = false ->
      exists e req, RequestsEngine.fetch_attempt env url w0
        = (Raise e, with_sent (with_tick w0 (S (tick w0))) (sent w0 ++ [req]))).
    { intros w0 H1 H2. rewrite (fetch_attempt_plain url w0 H1 H2). cbv zeta.
      match goal with |- context [session_get env ?t ?r] =>
        specialize (Hfail t r); destruct (session_get env t r) as [sc text|e]
      end.
      - simpl in Hfail. rewrite Hfail. eauto.
      - eauto. }
    unfold RequestsEngine._fetch_page, RequestsEngine.retry.
    cbn [Nat.sub RequestsEngine.retry_loop]. unfold try_except, bind.
    destruct (step w Hr Hp) as [e1 [r1 ->]]. rewrite sleep_wait. cbn [modify].
    match goal with |- context [RequestsEngine.fetch_attempt env url ?w1] =>
      destruct (step w1 Hr Hp) as [e2 [r2 ->]] end.
    cbn [modify].
    match goal with |- context [RequestsEngine.fetch_attempt env url ?w2] =>
      destruct (step w2 Hr Hp) as [e3 [r3 ->]] end.
    exists e3. eexists. split; [reflexivity|]. cbn.
    rewrite !length_app. cbn. rewrite <- !app_assoc. split; [lia|reflexivity].
  Qed.
End FetchFacts.

(** C2, evaluated on the code at the failing inputs.  With
    [max_retries = 5] and a transport that always fails, the page fetch
    gives up after three attempts, having waited two seconds twice; with a
    transport that fails four times and would then answer, it gives up
    after three attempts as well. *)
Theorem fetch_page_ignores_max_retries :
  max_retries (config Demo.world_retries5) = 5%Z
  /\ (let (r, w') := RequestsEngine._fetch_page Demo.env "https://x/broken"
                       Demo.world_retries5 in
      r = Raise (RetryError (ConnectionError "unreachable"))
      /\ length (sent w') = 3
      /\ sleeps w' = [2 # 1; 2 # 1])
  /\ (let (r, w') := RequestsEngine._fetch_page Demo.env_flaky "https://x/page"
                       Demo.world_retries5 in
      r = Raise (RetryError (ConnectionError "reset"))
      /\ length (sent w') = 3
      /\ sleeps w' = [2 # 1; 2 # 1]).
Proof. vm_compute. repeat split. Qed.

(** ** Proxy rotation *)

Section ProxyFacts.
Variable env : Env.
Variable file_path : string.

Lemma load_cached pool w :
    _proxies_cache w = Some pool ->
    proxy_manager._load_proxies env file_path w = (Ok pool, w).
  Proof.
    intros H. unfold proxy_manager._load_proxies, bind, gets.
    rewrite H. reflexivity.
  Qed.

  (** One round-robin selection: the entry under the cursor, and the
      cursor moves on modulo the pool size. *)
Lemma round_robin_step pool w x :
    _proxies_cache w = Some pool ->
    nth_error pool (_current_proxy_index w) = Some x ->
    proxy_manager.get_proxy env file_path "round-robin" w
    = (Ok (Some x),
       with_proxy_index w ((_current_proxy_index w + 1) mod length pool)).
  Proof.
    intros Hc Hx. unfold proxy_manager.get_proxy, bind at 1.
    rewrite (load_cached pool w Hc).
    destruct pool as [|p pool]; [destruct (_current_proxy_index w); discriminate|].
    cbn [String.eqb Ascii.eqb Bool.eqb andb]. unfold bind, gets.
    rewrite Hx. reflexivity.
  Qed.

Lemma skipn_nth_error (l : list string) : forall c x,
    nth_error l c = Some x -> skipn c l = x :: skipn (S c) l.
  Proof.
    induction l as [|y l IHl]; intros [|c] x E; try discriminate.
    - now inversion E.
    - simpl in E. apply IHl in E. exact E.
  Qed.

  (** Selections that do not pass the end of the pool. *)
Lemma round_robin_run pool : forall k w,
    _proxies_cache w = Some pool ->
    _current_proxy_index w < length pool ->
    _current_proxy_index w + k <= length pool ->
    exists w',
      proxy_manager.get_proxy_times env k file_path "round-robin" w
      = (Ok (map Some (firstn k (skipn (_current_proxy_index w) pool))), w')
      /\ _proxies_cache w' = Some pool
      /\ _current_proxy_index w' = (_current_proxy_index w + k) mod length pool.
  Proof.
    induction k as [|k IH]; intros w Hc Hlt Hle.
    - exists w. cbn. repeat split; auto.
      rewrite Nat.add_0_r. symmetry. now apply Nat.mod_small.
    - set (c := _current_proxy_index w) in *.
      destruct (nth_error pool c) as [x|] eqn:Ex;
        [|apply nth_error_None in Ex; lia].
      assert (Hskip := skipn_nth_error pool c x Ex).
      cbn [proxy_manager.get_proxy_times]. unfold bind at 1.
      rewrite (round_robin_step pool w x Hc Ex). fold c.
      set (w1 := with_proxy_index w ((c + 1) mod length pool)).
      destruct (Nat.eq_dec (c + 1) (length pool)) as [Hend|Hmid].
      + assert (k = 0) by lia. subst k.
        exists w1. cbn. rewrite Hskip. cbn. repeat split; auto.
      + assert (Hidx : _current_proxy_index w1 = S c).
        { unfold w1. cbn. rewrite Nat.mod_small by lia. lia. }
        destruct (IH w1) as [w' [Hrun [Hc' Hi']]]; auto.
        * rewrite Hidx. lia.
        * rewrite Hidx. lia.
        * rewrite Hidx in Hrun, Hi'. exists w'. unfold bind.
          rewrite Hrun, Hskip. split; [reflexivity|].
          split; [exact Hc'|]. rewrite Hi'. f_equal. lia.
  Qed.

Lemma get_proxy_times_add policy : forall a b w,
    proxy_manager.get_proxy_times env (a + b) file_path policy w
    = match proxy_manager.get_proxy_times env a file_path policy w with
      | (Ok l1, w1) =>
          match proxy_manager.get_proxy_times env b file_path policy w1 with
          | (Ok l2, w2) => (Ok (l1 ++ l2), w2)
          | (Raise e, w2) => (Raise e, w2)
          end
      | (Raise e, w1) => (Raise e, w1)
      end.
  Proof.
    induction a as [|a IH]; intros b w.
    - cbn. destruct (proxy_manager.get_proxy_times env b file_path policy w)
        as [[l2|e] w2]; reflexivity.
    - cbn [Nat.add proxy_manager.get_proxy_times]. unfold bind at 1 3.
      destruct (proxy_manager.get_proxy env file_path policy w) as [[p|e] w1];
        [|reflexivity].
      unfold bind. rewrite IH.
      destruct (proxy_manager.get_proxy_times env a file_path policy w1)
        as [[l1|e] w2]; [|reflexivity].
      unfold ret.
      destruct (proxy_manager.get_proxy_times env b file_path policy w2)
        as [[l2|e] w3]; reflexivity.
  Qed.

Lemma random_choice_in (pool : list string) w :
    pool <> [] ->
    exists p, In p pool
      /\ random_choice env pool w = (Ok p, with_tick w (S (tick w))).
  Proof.
    intros Hne. unfold random_choice, bind, next_tick.
    set (i := randbelow env (tick w) (length pool) mod length pool).
    assert (Hi : i < length pool).
    { apply Nat.mod_upper_bound. destruct pool; simpl; congruence. }
    destruct (nth_error pool i) as [p|] eqn:E.
    - exists p. split; [eapply nth_error_In; eauto | reflexivity].
    - apply nth_error_None in E. lia.
  Qed.

Lemma get_proxy_random pool w :
    _proxies_cache w = Some pool -> pool <> [] ->
    proxy_manager.get_proxy env file_path "random" w
    = bind (random_choice env pool) (fun p => ret (Some p)) w.
  Proof.
    intros Hc Hne. unfold proxy_manager.get_proxy, bind at 1.
    rewrite (load_cached pool w Hc).
    destruct pool as [|p pool]; [congruence|]. reflexivity.
  Qed.
End ProxyFacts.

(** X22.  With a pool of [N] entries in the cache and the cursor inside
    the pool, [N] consecutive round-robin selections return the entries
    from the cursor to the end and then from the start to the cursor:
    each entry once, and the cursor, which advances by one modulo [N] at
    every selection, is back where it started.  A policy that is neither
    ["round-robin"] nor ["random"] logs a warning and then picks as
    ["random"] does, an entry of the pool, leaving the cursor alone.  An
    empty pool yields no proxy. *)
Theorem round_robin_cycle :
  forall (env : Env) (file_path : string) (pool : list string) (w : World),
    _proxies_cache w = Some pool ->
    _current_proxy_index w < length pool ->
    (exists w',
        proxy_manager.get_proxy_times env (length pool) file_path
          "round-robin" w
        = (Ok (map Some (skipn (_current_proxy_index w) pool
                         ++ firstn (_current_proxy_index w) pool)), w')
        /\ Permutation (skipn (_current_proxy_index w) pool
                        ++ firstn (_current_proxy_index w) pool) pool
        /\ _current_proxy_index w' = _current_proxy_index w)
    /\ (proxy_manager.get_proxy env file_path "round-robin" w
        = (Ok (nth_error pool (_current_proxy_index w)),
           with_proxy_index w
             ((_current_proxy_index w + 1) mod length pool)))
    /\ (forall policy,
           policy <> "random" -> policy <> "round-robin" ->
           proxy_manager.get_proxy env file_path policy w
           = proxy_manager.get_proxy env file_path "random"
               (with_log w
                  (log w ++ [(WARNING, MsgUnknownRotationPolicy policy)]))
           /\ exists p w',
               proxy_manager.get_proxy env file_path policy w = (Ok (Some p), w')
               /\ In p pool
               /\ _current_proxy_index w' = _current_proxy_index w)
    /\ (forall policy w0 w1,
           proxy_manager._load_proxies env file_path w0 = (Ok [], w1) ->
           proxy_manager.get_proxy env file_path policy w0 = (Ok None, w1)).
Proof.
  intros env file_path pool w Hc Hlt.
  set (c := _current_proxy_index w) in *.
  assert (Hne : pool <> []) by (destruct pool; simpl in *; [lia|discriminate]).
  split; [|split; [|split]].
  - assert (E : proxy_manager.get_proxy_times env (length pool) file_path
                  "round-robin" w
                = proxy_manager.get_proxy_times env ((length pool - c) + c)
                    file_path "round-robin" w) by (f_equal; lia).
    rewrite E, get_proxy_times_add. clear E.
    destruct (round_robin_run env file_path pool (length pool - c) w Hc Hlt)
      as [w1 [Hrun1 [Hc1 Hi1]]]; [fold c; lia|].
    fold c in Hrun1, Hi1. rewrite Hrun1.
    replace (c + (length pool - c)) with (length pool) in Hi1 by lia.
    rewrite Nat.Div0.mod_same in Hi1.
    destruct (round_robin_run env file_path pool c w1 Hc1)
      as [w2 [Hrun2 [Hc2 Hi2]]]; [rewrite Hi1; lia | rewrite Hi1; lia|].
    rewrite Hi1 in Hrun2, Hi2. cbn [skipn Nat.add] in Hrun2, Hi2.
    rewrite Hrun2. exists w2.
    rewrite firstn_all2 by (rewrite length_skipn; lia).
    rewrite <- map_app. split; [reflexivity|]. split.
    + rewrite Permutation_app_comm. now rewrite firstn_skipn.
    + rewrite Hi2. now apply Nat.mod_small.
  - destruct (nth_error pool c) as [x|] eqn:Ex;
      [|apply nth_error_None in Ex; lia].
    apply round_robin_step; auto.
  - intros policy Hr Hrr.
    apply String.eqb_neq in Hr. apply String.eqb_neq in Hrr.
    set (w1 := with_log w
                 (log w ++ [(WARNING, MsgUnknownRotationPolicy policy)])).
    assert (Hc1 : _proxies_cache w1 = Some pool) by exact Hc.
    assert (E : proxy_manager.get_proxy env file_path policy w
                = proxy_manager.get_proxy env file_path "random" w1).
    { rewrite (get_proxy_random env file_path pool w1 Hc1 Hne).
      unfold proxy_manager.get_proxy, bind at 1.
      rewrite (load_cached env file_path pool w Hc).
      destruct pool as [|p pool]; [congruence|].
      rewrite Hr, Hrr. reflexivity. }
    split; [exact E|]. rewrite E.
    rewrite (get_proxy_random env file_path pool w1 Hc1 Hne).
    destruct (random_choice_in env pool w1 Hne) as [p [Hin Hp]].
    unfold bind. rewrite Hp. exists p. eexists. split; [reflexivity|].
    split; [exact Hin | reflexivity].
  - intros policy w0 w1 Hload. unfold proxy_manager.get_proxy, bind.
    rewrite Hload. reflexivity.
Qed.

Lemma round_robin_cycle_witness :
  let w := with_proxy_index
             (with_proxies_cache Demo.world0 (Some ["p1"; "p2"; "p3"])) 1 in
  _proxies_cache w = Some ["p1"; "p2"; "p3"]
  /\ _current_proxy_index w < length ["p1"; "p2"; "p3"]
  /\ exists w',
       proxy_manager.get_proxy_times Demo.env 3 "./config/proxies.txt"
         "round-robin" w
       = (Ok [Some "p2"; Some "p3"; Some "p1"], w')
       /\ Permutation ["p2"; "p3"; "p1"] ["p1"; "p2"; "p3"]
       /\ _current_proxy_index w' = 1.
Proof.
  cbv zeta. split; [reflexivity|]. split; [simpl; lia|].
  exact (proj1 (round_robin_cycle Demo.env "./config/proxies.txt"
                  ["p1"; "p2"; "p3"]
                  (with_proxy_index
                     (with_proxies_cache Demo.world0 (Some ["p1"; "p2"; "p3"])) 1)
                  eq_refl ltac:(simpl; lia))).
Defined.

(** ** CSV export *)

Section CsvFacts.
Variable py_str : value -> string.

Lemma first_seen_ext ks : forall s1 s2,
    (forall x, str_in x s1 = str_in x s2) ->
    Spec.first_seen s1 ks = Spec.first_seen s2 ks.
  Proof.
    induction ks as [|k ks IH]; intros s1 s2 H; simpl; auto.
    rewrite (H k). destruct (str_in k s2); [now apply IH|].
    f_equal. apply IH. intros x. simpl. now rewrite H.
  Qed.

Lemma first_seen_app a : forall s b,
    Spec.first_seen s (a ++ b)
    = Spec.first_seen s a ++ Spec.first_seen (s ++ a) b.
  Proof.
    induction a as [|k a IH]; intros s b; simpl.
    - now rewrite app_nil_r.
    - destruct (str_in k s) eqn:E.
      + rewrite IH. f_equal. apply first_seen_ext. intros x.
        rewrite !str_in_app. simpl.
        destruct (String.eqb k x) eqn:Ek; [|reflexivity].
        apply String.eqb_eq in Ek. subst x. rewrite E. reflexivity.
      + simpl. f_equal. rewrite IH. f_equal. apply first_seen_ext. intros x.
        rewrite !str_in_app. simpl.
        destruct (String.eqb k x), (str_in x s), (str_in x a); reflexivity.
  Qed.

Lemma first_seen_fresh l : forall s,
    NoDup l -> (forall x, In x l -> str_in x s = false) ->
    Spec.first_seen s l = l.
  Proof.
    induction l as [|k l IH]; intros s Hnd Hfresh; simpl; auto.
    inversion Hnd as [|? ? Hk Hnd']; subst.
    rewrite (Hfresh k) by (now left). f_equal. apply IH; auto.
    intros x Hx. simpl. rewrite (Hfresh x) by (now right).
    destruct (String.eqb k x) eqn:E; auto.
    apply String.eqb_eq in E. subst. contradiction.
  Qed.

Lemma first_seen_In l : forall s x,
    In x (Spec.first_seen s l) <-> In x l /\ str_in x s = false.
  Proof.
    induction l as [|k l IH]; intros s x; simpl.
    - tauto.
    - destruct (str_in k s) eqn:E.
      + rewrite IH. split; [tauto|]. intros [[->|H] Hs]; [congruence|tauto].
      + simpl. rewrite IH. simpl.
        destruct (String.eqb k x) eqn:Ek.
        * apply String.eqb_eq in Ek. subst. intuition congruence.
        * apply String.eqb_neq in Ek. intuition congruence.
  Qed.

Lemma first_seen_NoDup l : forall s, NoDup (Spec.first_seen s l).
  Proof.
    induction l as [|k l IH]; intros s; simpl; [constructor|].
    destruct (str_in k s); auto. constructor; auto.
    rewrite first_seen_In. simpl. rewrite String.eqb_refl. simpl.
    intros [_ H]. discriminate.
  Qed.

  (** The loops over the keys append the keys not seen yet. *)
Lemma add_keys_first_seen ks : forall fieldnames,
    CSVExporter.add_keys fieldnames ks
    = fieldnames ++ Spec.first_seen fieldnames ks.
  Proof.
    induction ks as [|k ks IH]; intros fieldnames; simpl.
    - now rewrite app_nil_r.
    - destruct (str_in k fieldnames) eqn:E; [apply IH|].
      rewrite IH, <- app_assoc. simpl. do 2 f_equal.
      apply first_seen_ext. intros x. rewrite str_in_app. simpl.
      destruct (String.eqb k x), (str_in x fieldnames); reflexivity.
  Qed.

Lemma add_items_first_seen items : forall fieldnames,
    CSVExporter.add_items fieldnames items
    = fieldnames
      ++ Spec.first_seen fieldnames (concat (map PyDict.keys items)).
  Proof.
    induction items as [|item items IH]; intros fieldnames; simpl.
    - now rewrite app_nil_r.
    - rewrite IH, add_keys_first_seen, first_seen_app, <- app_assoc.
      do 2 f_equal. apply first_seen_ext. intros x.
      rewrite !str_in_app.
      destruct (str_in x fieldnames) eqn:E1; simpl; auto.
      destruct (str_in x (PyDict.keys item)) eqn:E2.
      + apply str_in_In. apply first_seen_In. split; [now apply str_in_In|auto].
      + destruct (str_in x (Spec.first_seen fieldnames (PyDict.keys item)))
          eqn:E3; auto.
        apply str_in_In, first_seen_In in E3. destruct E3 as [E3 _].
        apply str_in_In in E3. congruence.
  Qed.

Lemma fieldnames_key_union (first : record) (rest : list record) :
    NoDup (PyDict.keys first) ->
    CSVExporter.fieldnames_of (first :: rest) = Spec.key_union (first :: rest).
  Proof.
    intros Hnd. unfold CSVExporter.fieldnames_of, Spec.key_union. simpl.
    rewrite add_items_first_seen, first_seen_app.
    now rewrite (first_seen_fresh (PyDict.keys first) []).
  Qed.

Lemma key_union_In data k :
    In k (Spec.key_union data)
    <-> exists r, In r data /\ In k (PyDict.keys r).
  Proof.
    unfold Spec.key_union. rewrite first_seen_In, in_concat. split.
    - intros [[ks [Hks Hk]] _]. apply in_map_iff in Hks.
      destruct Hks as [r [<- Hr]]. eauto.
    - intros [r [Hr Hk]]. split; [|reflexivity].
      exists (PyDict.keys r). split; [now apply in_map | exact Hk].
  Qed.

Lemma make_row_get items : forall row k,
    NoDup (PyDict.keys items) ->
    PyDict.get (CSVExporter.make_row py_str items row) k
    = match PyDict.get items k with
      | Some v => Some (Spec.row_value py_str v)
      | None => PyDict.get row k
      end.
  Proof.
    induction items as [|[k0 v0] items IH]; intros row k Hnd; simpl; auto.
    inversion Hnd as [|? ? Hk0 Hnd']; subst. rewrite IH by assumption.
    destruct (String.eqb k0 k) eqn:E.
    - apply String.eqb_eq in E. subst k0.
      apply get_none_not_in in Hk0. rewrite Hk0. apply get_set_same.
    - apply String.eqb_neq in E.
      destruct (PyDict.get items k); auto. now apply get_set_other.
  Qed.

Lemma make_row_keys items : forall row k,
    In k (PyDict.keys (CSVExporter.make_row py_str items row))
    -> In k (PyDict.keys items) \/ In k (PyDict.keys row).
  Proof.
    induction items as [|[k0 v0] items IH]; intros row k; simpl; auto.
    intros H. apply IH in H. destruct H as [H|H]; auto.
    apply keys_set_other in H. destruct H as [->|H]; auto.
  Qed.

Lemma dict_to_list_row header item :
    NoDup (PyDict.keys item) ->
    (forall k, In k (PyDict.keys item) -> In k header) ->
    rbind (CSVExporter._dict_to_list header
             (CSVExporter.make_row py_str item []))
          (fun cells => Ok (map (CSVExporter.cell_text py_str) cells))
    = Ok (Spec.row_cells py_str header item).
  Proof.
    intros Hnd Hcov. unfold CSVExporter._dict_to_list.
    replace (forallb _ _) with true.
    - simpl. f_equal. unfold Spec.row_cells. rewrite map_map.
      apply map_ext. intros k. rewrite make_row_get by assumption.
      destruct (PyDict.get item k) as [v|]; simpl; auto.
      unfold Spec.row_value. destruct (is_list_or_dict v); reflexivity.
    - symmetry. apply forallb_forall. intros k Hk. apply str_in_In.
      apply make_row_keys in Hk. destruct Hk as [Hk|[]]. auto.
  Qed.

Lemma write_rows_ok header data : forall written,
    Forall (fun r => NoDup (PyDict.keys r)) data ->
    (forall r k, In r data -> In k (PyDict.keys r) -> In k header) ->
    CSVExporter.write_rows py_str header data written
    = Ok (written ++ map (Spec.row_cells py_str header) data).
  Proof.
    induction data as [|item data IH]; intros written Hnd Hcov; simpl.
    - now rewrite app_nil_r.
    - inversion Hnd as [|? ? Hi Hd]; subst.
      pose proof (dict_to_list_row header item Hi
                    (fun k => Hcov item k (or_introl eq_refl))) as E.
      destruct (CSVExporter._dict_to_list header
                  (CSVExporter.make_row py_str item [])) as [cells|x];
        simpl in E; [|discriminate].
      simpl. inversion E as [E']. rewrite E'. rewrite IH; auto.
      + now rewrite <- app_assoc.
      + intros r k Hr. apply Hcov. now right.
  Qed.
End CsvFacts.

(** C8.  For a non-empty list of records, the CSV export writes as header
    the keys of all records in first-seen order, each once, and one row
    per record: under a key the record lacks the column is empty, a list
    or a dictionary is written as its string representation, and any
    other value as it is. *)
Theorem csv_export_header_and_rows :
  forall (py_str : value -> string) (data : list record),
    data <> [] ->
    Forall (fun r => NoDup (PyDict.keys r)) data ->
    CSVExporter.export py_str (CSVExporter.Records data)
    = Ok (Spec.key_union data
          :: map (fun item =>
                    map (fun k =>
                           match PyDict.get item k with
                           | None => EmptyString
                           | Some v =>
                               if is_list_or_dict v then py_str v
                               else CSVExporter.cell_text py_str v
                           end) (Spec.key_union data)) data)
    /\ NoDup (Spec.key_union data)
    /\ (forall k, In k (Spec.key_union data)
                  <-> exists r, In r data /\ In k (PyDict.keys r)).
Proof.
  intros py_str data Hne Hnd. split; [|split].
  - destruct data as [|first rest]; [congruence|].
    unfold CSVExporter.export.
    rewrite fieldnames_key_union by (now inversion Hnd).
    rewrite write_rows_ok; auto.
    intros r k Hr Hk. apply key_union_In. eauto.
  - apply first_seen_NoDup.
  - apply key_union_In.
Qed.

Lemma csv_export_header_and_rows_witness :
  let data := [ [("a", VStr "1"); ("b", VList [VStr "x"])];
                [("c", VNone); ("a", VStr "2")] ] in
  data <> []
  /\ Forall (fun r => NoDup (PyDict.keys r)) data
  /\ CSVExporter.export Demo.py_str (CSVExporter.Records data)
     = Ok [ ["a"; "b"; "c"]; ["1"; "[...]"; EmptyString]; ["2"; EmptyString; EmptyString] ].
Proof.
  cbv zeta.
  assert (H1 : [ [("a", VStr "1"); ("b", VList [VStr "x"])];
                 [("c", VNone); ("a", VStr "2")] ] <> [])
    by discriminate.
  assert (H2 : Forall (fun r : record => NoDup (PyDict.keys r))
                 [ [("a", VStr "1"); ("b", VList [VStr "x"])];
                   [("c", VNone); ("a", VStr "2")] ]).
  { repeat constructor; simpl; intuition discriminate. }
  split; [exact H1|]. split; [exact H2|].
  exact (proj1 (csv_export_header_and_rows Demo.py_str _ H1 H2)).
Defined.

(** ** Reasoning about computations *)

Section MonadFacts.
Context {A B : Type}.

Lemma total_ret (a : A) : total (ret a).
  Proof. intros w. now exists a, w. Qed.

Lemma total_bind (m : M A) (f : A -> M B) :
    total m -> (forall a, total (f a)) -> total (bind m f).
  Proof.
    intros Hm Hf w. unfold bind. destruct (Hm w) as [a [w' ->]]. apply Hf.
  Qed.

Lemma total_try_except (body : M A) (handler : exn -> M A) :
    (forall e, total (handler e)) -> total (try_except body handler).
  Proof.
    intros Hh w. unfold try_except.
    destruct (body w) as [[a|e] w']; [now exists a, w' | apply Hh].
  Qed.

Lemma raises_bind (m : M A) (f : A -> M B) :
    (forall a, raises (f a)) -> raises (bind m f).
  Proof.
    intros Hf w. unfold bind.
    destruct (m w) as [[a|e] w']; [apply Hf | now exists e, w'].
  Qed.

Variable R : World -> World -> Prop.
Hypothesis R_refl : forall w, R w w.
Hypothesis R_trans : forall w1 w2 w3, R w1 w2 -> R w2 w3 -> R w1 w3.

Lemma steps_ret (a : A) : steps R (ret a).
  Proof. intros w. apply R_refl. Qed.

Lemma steps_raise (e : exn) : steps R (@raise A e).
  Proof. intros w. apply R_refl. Qed.

Lemma steps_gets (f : World -> A) : steps R (gets f).
  Proof. intros w. apply R_refl. Qed.

Lemma steps_modify (f : World -> World) :
    (forall w, R w (f w)) -> steps R (modify f).
  Proof. intros H w. apply H. Qed.

Lemma steps_bind (m : M A) (f : A -> M B) :
    steps R m -> (forall a, steps R (f a)) -> steps R (bind m f).
  Proof.
    intros Hm Hf w. unfold bind. specialize (Hm w).
    destruct (m w) as [[a|e] w']; simpl in *; auto.
    eapply R_trans; [exact Hm | apply Hf].
  Qed.

Lemma steps_try_except (body : M A) (handler : exn -> M A) :
    steps R body -> (forall e, steps R (handler e)) ->
    steps R (try_except body handler).
  Proof.
    intros Hb Hh w. unfold try_except. specialize (Hb w).
    destruct (body w) as [[a|e] w']; simpl in *; auto.
    eapply R_trans; [exact Hb | apply Hh].
  Qed.

Lemma steps_for_each (xs : list A) (body : A -> M unit) :
    (forall x, steps R (body x)) -> steps R (for_each xs body).
  Proof.
    intros Hb. induction xs as [|x xs IH]; simpl.
    - intros w. apply R_refl.
    - intros w. unfold bind. specialize (Hb x w).
      destruct (body x w) as [[[]|e] w']; simpl in *; auto.
      eapply R_trans; [exact Hb | apply IH].
  Qed.

Lemma steps_retry_loop (wait : Q) (fn : M A) :
    steps R fn -> steps R (sleep wait) ->
    forall more, steps R (RequestsEngine.retry_loop more wait fn).
  Proof.
    intros Hfn Hsleep. induction more as [|more IH]; intros w; simpl;
      unfold try_except; specialize (Hfn w);
      destruct (fn w) as [[a|e] w']; simpl in *; auto.
    unfold bind. specialize (Hsleep w').
    destruct (sleep wait w') as [[[]|e'] w'']; simpl in *.
    - eapply R_trans; [exact Hfn|]. eapply R_trans; [exact Hsleep|]. apply IH.
    - eapply R_trans; [exact Hfn|]. exact Hsleep.
  Qed.
End MonadFacts.

Lemma bind_run {A B} (m : M A) (f : A -> M B) w :
  bind m f w
  = match m w with
    | (Ok a, w') => f a w'
    | (Raise e, w') => (Raise e, w')
    end.
Proof. reflexivity. Qed.

Lemma bind_logger {A} l msg (k : M A) w :
  bind (logger l msg) (fun _ => k) w
  = k (with_log w (log w ++ [(l, msg)])).
Proof. reflexivity. Qed.

Lemma started_app l1 l2 :
  Spec.started (l1 ++ l2) = Spec.started l1 ++ Spec.started l2.
Proof. unfold Spec.started. apply flat_map_app. Qed.

Lemma frame_refl w : frame w w.
Proof. split; auto. exists []. now rewrite app_nil_r. Qed.

Lemma frame_trans w1 w2 w3 : frame w1 w2 -> frame w2 w3 -> frame w1 w3.
Proof.
  intros [Hc1 [l1 [Hl1 Hs1]]] [Hc2 [l2 [Hl2 Hs2]]]. split; [congruence|].
  exists (l1 ++ l2). rewrite Hl2, Hl1, <- app_assoc. split; auto.
  now rewrite started_app, Hs1, Hs2.
Qed.

(** A state change that leaves the configuration and the log alone. *)
Lemma frame_silent (f : World -> World) :
  (forall w, config (f w) = config w) -> (forall w, log (f w) = log w) ->
  steps frame (modify f).
Proof.
  intros Hc Hl w. split; [apply Hc|]. exists []. cbn.
  now rewrite Hl, app_nil_r.
Qed.

Lemma frame_logger l m :
  Spec.started [(l, m)] = [] -> steps frame (logger l m).
Proof. intros H w. split; [reflexivity|]. now exists [(l, m)]. Qed.

Lemma frame_sleep d : steps frame (sleep d).
Proof.
  unfold sleep. destruct (Qle_bool sleep_limit d).
  - apply (steps_raise frame frame_refl).
  - now apply frame_silent.
Qed.

Lemma frame_next_tick : steps frame next_tick.
Proof. intros w. split; [reflexivity|]. exists []. cbn. now rewrite app_nil_r. Qed.

Create HintDb frames.

(** Decomposes a computation along its binds, handlers and branches. *)
Ltac frames :=
  repeat first
    [ solve [auto with frames]
    | apply (steps_ret frame frame_refl)
    | apply (steps_raise frame frame_refl)
    | apply (steps_gets frame frame_refl)
    | apply frame_next_tick
    | apply frame_sleep
    | apply frame_logger; reflexivity
    | apply frame_silent; reflexivity
    | apply (steps_bind frame frame_trans); [|intros ?]
    | apply (steps_try_except frame frame_trans); [|intros ?]
    | apply (steps_for_each frame frame_refl frame_trans); intros ?
    | match goal with
      | |- steps frame (let _ := _ in _) => cbv zeta
      | |- steps frame (if ?b then _ else _) => destruct b
      | |- steps frame (match ?x with _ => _ end) => destruct x
      end ].

Section FrameFacts.
Variable env : Env.

Lemma frame_time : steps frame (time env).
  Proof. unfold time. frames. Qed.

Lemma frame_random_choice {A} (l : list A) : steps frame (random_choice env l).
  Proof. unfold random_choice. frames. Qed.
Hint Resolve frame_time frame_random_choice : frames.

Lemma frame_load_user_agents file_path :
    steps frame (user_agent_manager._load_user_agents env file_path).
  Proof. unfold user_agent_manager._load_user_agents. frames. Qed.
Hint Resolve frame_load_user_agents : frames.

Lemma frame_get_random_user_agent file_path :
    steps frame (user_agent_manager.get_random_user_agent env file_path).
  Proof. unfold user_agent_manager.get_random_user_agent. frames. Qed.
Hint Resolve frame_get_random_user_agent : frames.

Lemma frame_load_proxies file_path :
    steps frame (proxy_manager._load_proxies env file_path).
  Proof. unfold proxy_manager._load_proxies. frames. Qed.
Hint Resolve frame_load_proxies : frames.

Lemma frame_get_proxy file_path policy :
    steps frame (proxy_manager.get_proxy env file_path policy).
  Proof. unfold proxy_manager.get_proxy. frames. Qed.
Hint Resolve frame_get_proxy : frames.

Lemma frame_del_entry base_url :
    steps frame (RobotsTxtChecker.del_entry base_url).
  Proof. unfold RobotsTxtChecker.del_entry. frames. Qed.
Hint Resolve frame_del_entry : frames.

Lemma frame_cleanup : steps frame (RobotsTxtChecker._cleanup_old_parsers env).
  Proof. unfold RobotsTxtChecker._cleanup_old_parsers. frames. Qed.
Hint Resolve frame_cleanup : frames.

Lemma frame_get_robots_parser base_url :
    steps frame (RobotsTxtChecker._get_robots_parser env base_url).
  Proof. unfold RobotsTxtChecker._get_robots_parser. frames. Qed.
Hint Resolve frame_get_robots_parser : frames.

Lemma frame_can_fetch ua url :
    steps frame (RobotsTxtChecker.can_fetch env ua url).
  Proof. unfold RobotsTxtChecker.can_fetch. frames. Qed.
Hint Resolve frame_can_fetch : frames.

Lemma frame_fetch_attempt url :
    steps frame (RequestsEngine.fetch_attempt env url).
  Proof. unfold RequestsEngine.fetch_attempt. frames. Qed.
Hint Resolve frame_fetch_attempt : frames.

Lemma frame_fetch_page url : steps frame (RequestsEngine._fetch_page env url).
  Proof.
    unfold RequestsEngine._fetch_page, RequestsEngine.retry.
    apply (steps_retry_loop frame frame_trans); frames.
  Qed.
Hint Resolve frame_fetch_page : frames.

Lemma frame_engine_scrape url sch :
    steps frame (RequestsEngine.scrape env url sch).
  Proof.
    unfold RequestsEngine.scrape. frames.
  Qed.
Hint Resolve frame_engine_scrape : frames.

  (** [Scraper.scrape] logs the start of the scrape first; the rest of
      the call is framed. *)
Lemma scraper_scrape_log self url sch w :
    let w' := snd (Scraper.scrape env self url sch w) in
    config w' = config w
    /\ exists l, log w' = log w ++ (INFO, MsgScrapingURL url) :: l
                 /\ Spec.started l = [].
  Proof.
    cbv zeta. unfold Scraper.scrape. rewrite bind_logger.
    match goal with |- context [bind ?m ?f ?w0] =>
      assert (H : steps frame (bind m f)); [|specialize (H w0)] end.
    { frames. }
    destruct H as [Hc [l [Hl Hs]]]. split; [exact Hc|].
    exists l. split; [|exact Hs]. etransitivity; [exact Hl|].
    cbn. now rewrite <- app_assoc.
  Qed.
End FrameFacts.

(** ** The scraper *)

Lemma total_logger l m : total (logger l m).
Proof. intros w. eexists. eexists. reflexivity. Qed.

Lemma total_sleep d : Qle_bool sleep_limit d = false -> total (sleep d).
Proof. intros H w. rewrite (sleep_fits d H). eexists. eexists. reflexivity. Qed.

Lemma total_gets {A} (f : World -> A) : total (gets f).
Proof. intros w. eexists. eexists. reflexivity. Qed.

Section ScraperFacts.
Variable env : Env.
Variable self : Scraper.t.
Variable sch : schema.

  (** The check returns on a URL that parses. *)
Lemma can_fetch_total ua url parsed :
    urlparse env url = Ok parsed ->
    total (RobotsTxtChecker.can_fetch env ua url).
  Proof.
    intros Hp. unfold RobotsTxtChecker.can_fetch. rewrite Hp.
    apply total_try_except. intros e.
    apply total_bind; [apply total_logger | intros _; apply total_ret].
  Qed.

  (** The check raises, and does nothing else, on a URL that does not. *)
Lemma can_fetch_unparsed ua url e w :
    urlparse env url = Raise e ->
    RobotsTxtChecker.can_fetch env ua url w = (Raise e, w).
  Proof.
    intros Hp. unfold RobotsTxtChecker.can_fetch. now rewrite Hp.
  Qed.

  (** The robots.txt gate of [Scraper.scrape] returns on a checkable
      URL. *)
Lemma gate_returns url w :
    checkable env self url ->
    exists allowed w1,
      match Scraper.robots_checker self with
      | Some ua => RobotsTxtChecker.can_fetch env ua url
      | None => ret true
      end w = (Ok allowed, w1)
      /\ config w1 = config w.
  Proof.
    intros Hchk. destruct (Scraper.robots_checker self) as [ua|] eqn:Eself.
    - destruct Hchk as [Hnone | [parsed Hp]]; [congruence|].
      destruct (can_fetch_total ua url parsed Hp w) as [a [w1 E]].
      exists a, w1. split; [exact E|].
      pose proof (frame_can_fetch env ua url w) as [Hcfg _].
      now rewrite E in Hcfg.
    - exists true, w. split; reflexivity.
  Qed.

  (** The politeness delay of [Scraper.scrape] returns when the delay
      fits. *)
Lemma delay_returns w :
    delay_fits w ->
    exists w2,
      (if Qltb 0 (request_delay (config w))
       then logger DEBUG (MsgApplyingDelay (request_delay (config w))) ;;
            sleep (request_delay (config w))
       else ret tt) w = (Ok tt, w2)
      /\ config w2 = config w.
  Proof.
    intros Hfit. destruct (Qltb 0 (request_delay (config w))).
    - rewrite bind_logger, (sleep_fits _ Hfit). eexists. split; reflexivity.
    - exists w. split; reflexivity.
  Qed.

  (** [Scraper.scrape] returns a record on a checkable URL when the delay
      fits. *)
Lemma scraper_scrape_returns url w :
    checkable env self url -> delay_fits w ->
    exists result w', Scraper.scrape env self url sch w = (Ok result, w').
  Proof.
    intros Hchk Hfit. unfold Scraper.scrape. rewrite bind_logger.
    unfold bind at 1.
    destruct (gate_returns url (with_log w (log w ++ [(INFO, MsgScrapingURL url)]))
                Hchk) as [allowed [w1 [E Hcfg]]].
    rewrite E. destruct allowed; cbn [negb].
    - unfold bind at 1. cbn [gets]. unfold bind at 1.
      assert (Hfit1 : delay_fits w1) by (unfold delay_fits in *; now rewrite Hcfg).
      destruct (delay_returns w1 Hfit1) as [w2 [E2 _]]. rewrite E2.
      match goal with |- context [try_except ?b ?h w2] =>
        destruct (total_try_except b h) with (w := w2) as [r [w3 E3]]
      end.
      { intros e.
        apply total_bind; [apply total_logger | intros _; apply total_ret]. }
      rewrite E3. eauto.
    - rewrite bind_logger. eexists. eexists. reflexivity.
  Qed.

Lemma scrape_loop_cons url urls acc w :
    Scraper.scrape_loop env self (url :: urls) sch acc w
    = match Scraper.scrape env self url sch w with
      | (Ok result, w1) =>
          if PyDict.truthy result then
            Scraper.scrape_loop env self urls sch
              (acc ++ [PyDict.set result "url" (VStr url)]) w1
          else Scraper.scrape_loop env self urls sch acc w1
      | (Raise e, w1) => (Raise e, w1)
      end.
  Proof.
    cbn [Scraper.scrape_loop]. unfold bind.
    destruct (Scraper.scrape env self url sch w) as [[result|e] w1];
      [destruct (PyDict.truthy result)|]; reflexivity.
  Qed.

Lemma scrape_loop_acc urls : forall acc w,
    Scraper.scrape_loop env self urls sch acc w
    = match Scraper.scrape_loop env self urls sch [] w with
      | (Ok rs, w') => (Ok (acc ++ rs), w')
      | (Raise e, w') => (Raise e, w')
      end.
  Proof.
    induction urls as [|url urls IH]; intros acc w.
    - cbn. now rewrite app_nil_r.
    - rewrite !scrape_loop_cons.
      destruct (Scraper.scrape env self url sch w) as [[result|e] w1]; auto.
      destruct (PyDict.truthy result); auto.
      rewrite (IH (acc ++ _)), (IH ([] ++ _)).
      destruct (Scraper.scrape_loop env self urls sch [] w1) as [[rs|e] w2];
        auto.
      now rewrite <- app_assoc.
  Qed.

Lemma scrape_loop_app urls1 : forall urls2 acc w,
    Scraper.scrape_loop env self (urls1 ++ urls2) sch acc w
    = match Scraper.scrape_loop env self urls1 sch acc w with
      | (Ok acc1, w1) => Scraper.scrape_loop env self urls2 sch acc1 w1
      | (Raise e, w1) => (Raise e, w1)
      end.
  Proof.
    induction urls1 as [|url urls1 IH]; intros urls2 acc w.
    - reflexivity.
    - cbn [app]. rewrite !scrape_loop_cons.
      destruct (Scraper.scrape env self url sch w) as [[result|e] w1]; auto.
      destruct (PyDict.truthy result); apply IH.
  Qed.

  (** The loop leaves the configuration alone, however it ends. *)
Lemma scrape_loop_config urls : forall acc w,
    config (snd (Scraper.scrape_loop env self urls sch acc w)) = config w.
  Proof.
    induction urls as [|url urls IH]; intros acc w; [reflexivity|].
    rewrite scrape_loop_cons.
    pose proof (proj1 (scraper_scrape_log env self url sch w)) as Hc.
    destruct (Scraper.scrape env self url sch w) as [[result|e] w1];
      cbn [snd] in *; [|exact Hc].
    destruct (PyDict.truthy result); rewrite IH; exact Hc.
  Qed.

  (** The loop returns when every URL is checkable and the delay fits. *)
Lemma scrape_loop_returns urls :
    Forall (checkable env self) urls ->
    forall acc w, delay_fits w ->
    exists rs w', Scraper.scrape_loop env self urls sch acc w = (Ok rs, w').
  Proof.
    induction 1 as [|url urls Hurl Hurls IH]; intros acc w Hfit.
    - exists acc, w. reflexivity.
    - rewrite scrape_loop_cons.
      destruct (scraper_scrape_returns url w Hurl Hfit) as [result [w1 E]].
      pose proof (proj1 (scraper_scrape_log env self url sch w)) as Hc.
      rewrite E in *. cbn [snd] in Hc.
      assert (Hfit1 : delay_fits w1) by (unfold delay_fits in *; now rewrite Hc).
      destruct (PyDict.truthy result); apply IH; exact Hfit1.
  Qed.

  (** A loop that returns has started a scrape for every URL, in order. *)
Lemma scrape_loop_started urls : forall acc w rs w',
    Scraper.scrape_loop env self urls sch acc w = (Ok rs, w') ->
    exists l, log w' = log w ++ l /\ Spec.started l = urls.
  Proof.
    induction urls as [|url urls IH]; intros acc w rs w' H.
    - cbn in H. inversion H; subst. exists []. now rewrite app_nil_r.
    - rewrite scrape_loop_cons in H.
      pose proof (scraper_scrape_log env self url sch w) as Hlog.
      cbv zeta in Hlog.
      destruct (Scraper.scrape env self url sch w) as [[result|e] w1];
        [|discriminate].
      cbn [snd] in Hlog. destruct Hlog as [_ [l1 [Hl1 Hs1]]].
      assert (G : forall acc',
                 Scraper.scrape_loop env self urls sch acc' w1 = (Ok rs, w') ->
                 exists l, log w' = log w ++ l
                           /\ Spec.started l = url :: urls).
      { intros acc' H'. destruct (IH _ _ _ _ H') as [l2 [Hl2 Hs2]].
        exists (((INFO, MsgScrapingURL url) :: l1) ++ l2).
        rewrite Hl2, Hl1, <- app_assoc. split; auto.
        rewrite started_app. cbn [app].
        change (Spec.started ((INFO, MsgScrapingURL url) :: l1))
          with (url :: Spec.started l1).
        rewrite Hs1, Hs2. reflexivity. }
      destruct (PyDict.truthy result); eapply G; exact H.
  Qed.

  (** The job is its loop between two log entries. *)
Lemma scrape_multiple_unfold urls w :
    Scraper.scrape_multiple env self urls sch w
    = match Scraper.scrape_loop env self urls sch []
              (with_log w (log w ++ [(INFO, MsgScrapingMany (length urls))]))
      with
      | (Ok results, w1) =>
          (Ok results,
           with_log w1
             (log w1 ++ [(INFO, MsgScrapedMany (length results)
                                  (length urls))]))
      | (Raise e, w1) => (Raise e, w1)
      end.
  Proof.
    unfold Scraper.scrape_multiple. rewrite bind_logger. unfold bind at 1.
    destruct (Scraper.scrape_loop env self urls sch [] _) as [[rs|e] w1];
      reflexivity.
  Qed.

  (** The loop collects the records as the specification says. *)
Lemma scrape_loop_collects urls : forall acc w,
    Scraper.scrape_loop env self urls sch acc w
    = match Spec.job_records (fun url => Scraper.scrape env self url sch)
              urls w with
      | (Ok rs, w') => (Ok (acc ++ rs), w')
      | (Raise e, w') => (Raise e, w')
      end.
  Proof.
    induction urls as [|url urls IH]; intros acc w.
    - cbn. now rewrite app_nil_r.
    - rewrite scrape_loop_cons. cbn [Spec.job_records]. rewrite bind_run.
      destruct (Scraper.scrape env self url sch w) as [[result|e] w1]; auto.
      rewrite bind_run.
      destruct (PyDict.truthy result) eqn:Et; rewrite IH;
        destruct (Spec.job_records _ urls w1) as [[rs|e] w2]; auto;
        destruct result as [|kv result]; try discriminate; cbn [ret].
      + now rewrite <- app_assoc.
      + reflexivity.
  Qed.

  (** An attempt on a URL the transport never serves raises. *)
Lemma fetch_attempt_raises url :
    (forall t req, req_url req = url ->
                   Spec.is_failure (session_get env t req)) ->
    raises (RequestsEngine.fetch_attempt env url).
  Proof.
    intros Hfail. unfold RequestsEngine.fetch_attempt.
    repeat first [ apply raises_bind; intros ? | progress cbv zeta ].
    intros w.
    match goal with |- context [session_get env ?t ?r] =>
      specialize (Hfail t r eq_refl);
      destruct (session_get env t r) as [sc text|e]
    end.
    - simpl in Hfail. rewrite Hfail. eexists. eexists. reflexivity.
    - eexists. eexists. reflexivity.
  Qed.

Lemma retry_loop_raises {A} (fn : M A) :
    raises fn ->
    forall more, raises (RequestsEngine.retry_loop more (2 # 1) fn).
  Proof.
    intros Hfn. induction more as [|more IH]; intros w; simpl;
      unfold try_except; destruct (Hfn w) as [e [w' ->]].
    - eexists. eexists. reflexivity.
    - rewrite sleep_wait. unfold bind. cbn. apply IH.
  Qed.

  (** A URL whose fetch always fails yields the empty record. *)
Lemma scraper_scrape_unreachable url :
    (forall t req, req_url req = url ->
                   Spec.is_failure (session_get env t req)) ->
    forall w, checkable env self url -> delay_fits w ->
    exists w', Scraper.scrape env self url sch w = (Ok [], w').
  Proof.
    intros Hfail w Hchk Hfit.
    assert (Hengine : forall w0, exists w1,
               RequestsEngine.scrape env url sch w0 = (Ok [], w1)).
    { intros w0. unfold RequestsEngine.scrape, try_except, bind.
      destruct (retry_loop_raises _ (fetch_attempt_raises url Hfail)
                  2 w0) as [e [w1 E]].
      unfold RequestsEngine._fetch_page, RequestsEngine.retry.
      cbn [Nat.sub]. rewrite E. eexists. reflexivity. }
    unfold Scraper.scrape. rewrite bind_logger. unfold bind at 1.
    destruct (gate_returns url (with_log w (log w ++ [(INFO, MsgScrapingURL url)]))
                Hchk) as [allowed [w1 [E Hcfg]]].
    rewrite E. destruct allowed; cbn [negb].
    - unfold bind at 1. cbn [gets]. unfold bind at 1.
      assert (Hfit1 : delay_fits w1) by (unfold delay_fits in *; now rewrite Hcfg).
      destruct (delay_returns w1 Hfit1) as [w2 [E2 _]]. rewrite E2.
      unfold try_except, bind. destruct (Hengine w2) as [w3 E3].
      rewrite E3. eexists. reflexivity.
    - eexists. reflexivity.
  Qed.

  (** A URL that the robots.txt check cannot parse makes [Scraper.scrape]
      raise after its first log entry. *)
Lemma scraper_scrape_unparsed ua url e w :
    Scraper.robots_checker self = Some ua ->
    urlparse env url = Raise e ->
    Scraper.scrape env self url sch w
    = (Raise e, with_log w (log w ++ [(INFO, MsgScrapingURL url)])).
  Proof.
    intros Hself Hp. unfold Scraper.scrape. rewrite bind_logger.
    rewrite Hself, bind_run, (can_fetch_unparsed ua url e _ Hp). reflexivity.
  Qed.
End ScraperFacts.

(** C6, evaluated on the code at the failing input.  With the robots.txt
    check on, a URL that [urlparse] rejects stops the job: the exception
    leaves [scrape_multiple], the records of the URLs before it are lost
    with it, and no scrape is started for the URLs after it. *)
Theorem scrape_multiple_stops_at_unparsable_url :
  forall (env : Env) (self : Scraper.t) (ua : string) (sch : schema)
         (urls1 : list string) (url : string) (urls2 : list string)
         (e : exn) (w : World) (rs1 : list record) (w1 : World),
    Scraper.robots_checker self = Some ua ->
    urlparse env url = Raise e ->
    Scraper.scrape_loop env self urls1 sch []
      (with_log w (log w ++ [(INFO, MsgScrapingMany
                                      (length (urls1 ++ url :: urls2)))]))
    = (Ok rs1, w1) ->
    exists w' l,
      Scraper.scrape_multiple env self (urls1 ++ url :: urls2) sch w
      = (Raise e, w')
      /\ log w' = log w ++ l
      /\ Spec.started l = urls1 ++ [url].
Proof.
  intros env self ua sch urls1 url urls2 e w rs1 w1 Hself Hp H1.
  rewrite scrape_multiple_unfold, scrape_loop_app, H1, scrape_loop_cons.
  rewrite (scraper_scrape_unparsed env self sch ua url e w1 Hself Hp).
  destruct (scrape_loop_started env self sch urls1 _ _ _ _ H1)
    as [l1 [Hl1 Hs1]].
  eexists. eexists. split; [reflexivity|]. cbn [log with_log] in *.
  rewrite Hl1, <- !app_assoc. split; [reflexivity|].
  rewrite !started_app, Hs1. reflexivity.
Qed.

Lemma scrape_multiple_stops_at_unparsable_url_witness :
  let urls := ["https://x/one"] ++ "http://[" :: ["https://x/three"] in
  let w0 := with_log Demo.world0
              (log Demo.world0 ++ [(INFO, MsgScrapingMany (length urls))]) in
  let r1 := [("title", VStr "Hi"); ("links", VList [VStr "/a"; VStr "/b"]);
             ("url", VStr "https://x/one")] in
  let r3 := [("title", VStr "Hi"); ("links", VList [VStr "/a"; VStr "/b"]);
             ("url", VStr "https://x/three")] in
  Scraper.robots_checker Demo.bot = Some "bot"
  /\ urlparse Demo.env "http://[" = Raise (ValueError "Invalid IPv6 URL")
  /\ Scraper.scrape_loop Demo.env Demo.bot ["https://x/one"] Demo.scenario
       [] w0
     = (Ok [r1],
        snd (Scraper.scrape_loop Demo.env Demo.bot ["https://x/one"]
               Demo.scenario [] w0))
  /\ (exists w' l,
         Scraper.scrape_multiple Demo.env Demo.bot urls Demo.scenario
           Demo.world0
         = (Raise (ValueError "Invalid IPv6 URL"), w')
         /\ log w' = log Demo.world0 ++ l
         /\ Spec.started l = ["https://x/one"] ++ ["http://["])
  /\ fst (Scraper.scrape_multiple Demo.env (Scraper.mkScraper None) urls
            Demo.scenario Demo.world0)
     = Ok [r1; r3].
Proof.
  cbv zeta.
  assert (H1 : Scraper.scrape_loop Demo.env Demo.bot ["https://x/one"]
                 Demo.scenario []
                 (with_log Demo.world0
                    (log Demo.world0
                     ++ [(INFO, MsgScrapingMany
                                  (length (["https://x/one"]
                                           ++ "http://["
                                              :: ["https://x/three"])))]))
               = (Ok [[("title", VStr "Hi");
                       ("links", VList [VStr "/a"; VStr "/b"]);
                       ("url", VStr "https://x/one")]],
                  snd (Scraper.scrape_loop Demo.env Demo.bot ["https://x/one"]
                         Demo.scenario []
                         (with_log Demo.world0
                            (log Demo.world0
                             ++ [(INFO, MsgScrapingMany
                                          (length (["https://x/one"]
                                                   ++ "http://["
                                                      :: ["https://x/three"])))])))))
    by (vm_compute; reflexivity).
  split; [reflexivity|]. split; [reflexivity|].
  split; [exact H1|]. split; [|vm_compute; reflexivity].
  exact (scrape_multiple_stops_at_unparsable_url Demo.env Demo.bot "bot"
           Demo.scenario ["https://x/one"] "http://[" ["https://x/three"]
           (ValueError "Invalid IPv6 URL") Demo.world0 _ _
           eq_refl eq_refl H1).
Defined.

(** X23.  Isolation of failures in a multi-URL job.  The loop of the job
    collects the records the specification describes: the URLs are
    scraped in turn, a non-empty result is kept with its URL and an empty
    one is dropped.  When the robots.txt gate gets through every URL of
    the list (the scraper has no checker, or [urlparse] accepts the URL)
    and the request delay is one that [time.sleep] accepts, the job
    returns normally and has started a scrape for every URL, in order;
    and a URL of the list whose fetch always fails yields the empty
    record, the loop returning the records of the URLs before it followed
    by the records of the URLs after it. *)
Theorem scrape_multiple_isolates_failures :
  forall (env : Env) (self : Scraper.t) (sch : schema),
    (forall urls w,
        Scraper.scrape_loop env self urls sch [] w
        = Spec.job_records (fun url => Scraper.scrape env self url sch) urls w)
    /\ (forall urls w,
           Forall (checkable env self) urls -> delay_fits w ->
           exists results w',
             Scraper.scrape_multiple env self urls sch w = (Ok results, w')
             /\ exists l, log w' = log w ++ l /\ Spec.started l = urls)
    /\ (forall urls1 url urls2 w,
           Forall (checkable env self) (urls1 ++ url :: urls2) ->
           delay_fits w ->
           (forall t req, req_url req = url ->
                          Spec.is_failure (session_get env t req)) ->
           exists rs1 w1 w2 rs2 w3,
             Scraper.scrape_loop env self urls1 sch [] w = (Ok rs1, w1)
             /\ Scraper.scrape env self url sch w1 = (Ok [], w2)
             /\ Scraper.scrape_loop env self urls2 sch [] w2 = (Ok rs2, w3)
             /\ Scraper.scrape_loop env self (urls1 ++ url :: urls2) sch [] w
                = (Ok (rs1 ++ rs2), w3)).
Proof.
  intros env self sch.
  assert (Hfit : forall urls acc w,
             delay_fits w ->
             delay_fits (snd (Scraper.scrape_loop env self urls sch acc w))).
  { intros urls acc w H. unfold delay_fits in *.
    now rewrite scrape_loop_config. }
  split; [|split].
  - intros urls w. rewrite scrape_loop_collects.
    destruct (Spec.job_records _ urls w) as [[rs|e] w']; reflexivity.
  - intros urls w Hurls Hw. rewrite scrape_multiple_unfold.
    set (w0 := with_log w (log w ++ [(INFO, MsgScrapingMany (length urls))])).
    destruct (scrape_loop_returns env self sch urls Hurls [] w0 Hw)
      as [rs [w1 E]].
    destruct (scrape_loop_started env self sch urls _ _ _ _ E)
      as [l [Hl Hs]].
    rewrite E. exists rs. eexists. split; [reflexivity|].
    exists ([(INFO, MsgScrapingMany (length urls))] ++ l
            ++ [(INFO, MsgScrapedMany (length rs) (length urls))]).
    cbn [log with_log]. rewrite Hl. unfold w0. cbn [log with_log].
    rewrite <- !app_assoc. split; [reflexivity|].
    rewrite !started_app, Hs. cbn. now rewrite app_nil_r.
  - intros urls1 url urls2 w Hurls Hw Hfail.
    apply Forall_app in Hurls. destruct Hurls as [H1 H2].
    inversion H2 as [|? ? Hurl H3]; subst.
    destruct (scrape_loop_returns env self sch urls1 H1 [] w Hw)
      as [rs1 [w1 E1]].
    pose proof (Hfit urls1 [] w Hw) as Hw1. rewrite E1 in Hw1. cbn [snd] in Hw1.
    destruct (scraper_scrape_unreachable env self sch url Hfail w1 Hurl Hw1)
      as [w2 E2].
    assert (Hw2 : delay_fits w2).
    { pose proof (proj1 (scraper_scrape_log env self url sch w1)) as Hc.
      rewrite E2 in Hc. cbn [snd] in Hc. unfold delay_fits in *.
      now rewrite Hc. }
    destruct (scrape_loop_returns env self sch urls2 H3 [] w2 Hw2)
      as [rs2 [w3 E3]].
    exists rs1, w1, w2, rs2, w3. repeat split; auto.
    rewrite scrape_loop_app, E1, scrape_loop_cons, E2. cbn [PyDict.truthy].
    rewrite scrape_loop_acc, E3. reflexivity.
Qed.

Lemma scrape_multiple_isolates_failures_witness :
  let urls := ["https://x/one"] ++ "https://x/broken" :: ["https://x/three"] in
  Forall (checkable Demo.env Demo.bot) urls
  /\ delay_fits Demo.world0
  /\ (forall t req, req_url req = "https://x/broken" ->
                    Spec.is_failure (session_get Demo.env t req))
  /\ fst (Scraper.scrape_multiple Demo.env Demo.bot urls Demo.scenario
            Demo.world0)
     = Ok [ [("title", VStr "Hi"); ("links", VList [VStr "/a"; VStr "/b"]);
             ("url", VStr "https://x/one")];
            [("title", VStr "Hi"); ("links", VList [VStr "/a"; VStr "/b"]);
             ("url", VStr "https://x/three")] ]
  /\ (exists results w',
         Scraper.scrape_multiple Demo.env Demo.bot urls Demo.scenario
           Demo.world0 = (Ok results, w')
         /\ exists l, log w' = log Demo.world0 ++ l /\ Spec.started l = urls)
  /\ exists rs1 w1 w2 rs2 w3,
       Scraper.scrape_loop Demo.env Demo.bot ["https://x/one"] Demo.scenario []
         Demo.world0 = (Ok rs1, w1)
       /\ Scraper.scrape Demo.env Demo.bot "https://x/broken" Demo.scenario w1
          = (Ok [], w2)
       /\ Scraper.scrape_loop Demo.env Demo.bot ["https://x/three"]
            Demo.scenario [] w2 = (Ok rs2, w3)
       /\ Scraper.scrape_loop Demo.env Demo.bot
            (["https://x/one"] ++ "https://x/broken" :: ["https://x/three"])
            Demo.scenario [] Demo.world0 = (Ok (rs1 ++ rs2), w3).
Proof.
  cbv zeta.
  assert (Hurls : Forall (checkable Demo.env Demo.bot)
                    (["https://x/one"] ++ "https://x/broken"
                                          :: ["https://x/three"])).
  { repeat (apply Forall_cons; [right; eexists; reflexivity|]).
    apply Forall_nil. }
  assert (Hw : delay_fits Demo.world0) by reflexivity.
  assert (H : forall t req, req_url req = "https://x/broken" ->
                            Spec.is_failure (session_get Demo.env t req)).
  { intros t req E. simpl. rewrite E. simpl. exact I. }
  split; [exact Hurls|]. split; [exact Hw|]. split; [exact H|].
  split; [vm_compute; reflexivity|]. split.
  - exact (proj1 (proj2 (scrape_multiple_isolates_failures Demo.env Demo.bot
                           Demo.scenario)) _ Demo.world0 Hurls Hw).
  - exact (proj2 (proj2 (scrape_multiple_isolates_failures Demo.env Demo.bot
                           Demo.scenario))
             ["https://x/one"] "https://x/broken" ["https://x/three"]
             Demo.world0 Hurls Hw H).
Defined.

Section RecordFacts.
Variable env : Env.
Variable self : Scraper.t.
Variable sch : schema.
Variable urls : list string.

Lemma scrape_loop_records us : forall acc w rs w',
    incl us urls -> Forall (job_record env self sch urls) acc ->
    Scraper.scrape_loop env self us sch acc w = (Ok rs, w') ->
    Forall (job_record env self sch urls) rs.
  Proof.
    induction us as [|u us IH]; intros acc w rs w' Hincl Hacc H.
    - cbn in H. now inversion H; subst.
    - rewrite scrape_loop_cons in H.
      destruct (Scraper.scrape env self u sch w) as [[result|e] w1] eqn:E;
        [|discriminate].
      assert (Hus : incl us urls) by (intros x Hx; apply Hincl; now right).
      destruct (PyDict.truthy result) eqn:Et.
      + apply (IH _ _ _ _ Hus) in H; auto.
        apply Forall_app. split; auto. constructor; [|constructor].
        exists u, result, w. rewrite E. repeat split; auto.
        * apply Hincl. now left.
        * destruct result; [discriminate | congruence].
      + apply (IH _ _ _ _ Hus Hacc H).
  Qed.
End RecordFacts.

(** C10.  Every record a multi-URL job returns is what the scrape of one
    of its URLs extracted, a non-empty record, with that URL stored under
    the key ["url"] (replacing a field of that name) and every other field
    as extracted.  A URL whose scrape returns the empty record adds
    nothing to the list; a URL whose scrape returns a non-empty record
    adds that record. *)
Theorem scrape_multiple_records :
  forall (env : Env) (self : Scraper.t) (sch : schema),
    (forall urls w results w',
        Scraper.scrape_multiple env self urls sch w = (Ok results, w') ->
        Forall (fun r =>
                  r <> []
                  /\ exists url extracted w0,
                      In url urls
                      /\ fst (Scraper.scrape env self url sch w0) = Ok extracted
                      /\ extracted <> []
                      /\ r = PyDict.set extracted "url" (VStr url)
                      /\ PyDict.get r "url" = Some (VStr url)
                      /\ forall k, k <> "url" ->
                                   PyDict.get r k = PyDict.get extracted k)
               results)
    /\ (forall url urls acc w w1,
           Scraper.scrape env self url sch w = (Ok [], w1) ->
           Scraper.scrape_loop env self (url :: urls) sch acc w
           = Scraper.scrape_loop env self urls sch acc w1)
    /\ (forall url urls acc w w1 extracted,
           Scraper.scrape env self url sch w = (Ok extracted, w1) ->
           extracted <> [] ->
           Scraper.scrape_loop env self (url :: urls) sch acc w
           = Scraper.scrape_loop env self urls sch
               (acc ++ [PyDict.set extracted "url" (VStr url)]) w1).
Proof.
  intros env self sch. split; [|split].
  - intros urls w results w' H.
    rewrite scrape_multiple_unfold in H.
    destruct (Scraper.scrape_loop env self urls sch [] _) as [[rs|e] w1] eqn:E;
      [|discriminate].
    inversion H; subst results w'; clear H.
    apply (scrape_loop_records env self sch urls) in E;
      [|apply incl_refl | constructor].
    eapply Forall_impl; [|exact E].
    intros r [url [extracted [w0 [Hin [Hs [Hne ->]]]]]].
    split; [apply set_not_nil|].
    exists url, extracted, w0. repeat split; auto.
    + apply get_set_same.
    + intros k Hk. apply get_set_other. congruence.
  - intros url urls acc w w1 E. rewrite scrape_loop_cons, E. reflexivity.
  - intros url urls acc w w1 extracted E Hne.
    rewrite scrape_loop_cons, E.
    destruct extracted; [congruence | reflexivity].
Qed.

Lemma scrape_multiple_records_witness :
  let urls := ["https://x/one"; "https://x/private"] in
  let r := [("url", VStr "https://x/one"); ("title", VStr "Hi")] in
  Scraper.scrape_multiple Demo.env Demo.bot urls
    [("url", FStr "h1"); ("title", FStr "h1")] Demo.world0
  = (Ok [r], snd (Scraper.scrape_multiple Demo.env Demo.bot urls
                    [("url", FStr "h1"); ("title", FStr "h1")] Demo.world0))
  /\ Forall (fun r =>
               r <> []
               /\ exists url extracted w0,
                   In url urls
                   /\ fst (Scraper.scrape Demo.env Demo.bot url
                             [("url", FStr "h1"); ("title", FStr "h1")] w0)
                      = Ok extracted
                   /\ extracted <> []
                   /\ r = PyDict.set extracted "url" (VStr url)
                   /\ PyDict.get r "url" = Some (VStr url)
                   /\ forall k, k <> "url" ->
                                PyDict.get r k = PyDict.get extracted k)
            [r].
Proof.
  cbv zeta.
  assert (H : Scraper.scrape_multiple Demo.env Demo.bot
                ["https://x/one"; "https://x/private"]
                [("url", FStr "h1"); ("title", FStr "h1")] Demo.world0
              = (Ok [[("url", VStr "https://x/one"); ("title", VStr "Hi")]],
                 snd (Scraper.scrape_multiple Demo.env Demo.bot
                        ["https://x/one"; "https://x/private"]
                        [("url", FStr "h1"); ("title", FStr "h1")]
                        Demo.world0)))
    by (vm_compute; reflexivity).
  split; [exact H|].
  exact (proj1 (scrape_multiple_records Demo.env Demo.bot
                  [("url", FStr "h1"); ("title", FStr "h1")]) _ _ _ _ H).
Defined.

(** C9 (as amended).  The configuration is a mutable object.  The
    constructor of [Scraper] overwrites the [engine] field of the
    configuration it is given when its engine argument is not empty and
    differs, and leaves every other field as it was.  The scraping
    operations ([scrape] and [scrape_multiple] of the scraper, [scrape]
    of the engine, the robots.txt check, the proxy selection) only read
    it. *)
Theorem config_only_engine_overwritten :
  (forall _engines engine_arg w,
      config (snd (Scraper.init _engines engine_arg w))
      = if nonempty engine_arg
           && negb (String.eqb engine_arg (engine (config w)))
        then set_engine (config w) engine_arg
        else config w)
  /\ (forall env self url sch w,
         config (snd (Scraper.scrape env self url sch w)) = config w)
  /\ (forall env self urls sch w,
         config (snd (Scraper.scrape_multiple env self urls sch w)) = config w)
  /\ (forall env url sch w,
         config (snd (RequestsEngine.scrape env url sch w)) = config w)
  /\ (forall env ua url w,
         config (snd (RobotsTxtChecker.can_fetch env ua url w)) = config w)
  /\ (forall env file_path policy w,
         config (snd (proxy_manager.get_proxy env file_path policy w))
         = config w).
Proof.
  split; [|split; [|split; [|split; [|split]]]].
  - intros _engines engine_arg w. unfold Scraper.init.
    unfold bind at 1. cbn [gets]. unfold bind at 1.
    destruct (nonempty engine_arg
              && negb (String.eqb engine_arg (engine (config w))));
      cbn [modify ret]; unfold bind at 1; cbn [gets];
      match goal with |- context [str_in ?a ?b] => destruct (str_in a b) end;
      reflexivity.
  - intros env self url sch w.
    apply (proj1 (scraper_scrape_log env self url sch w)).
  - intros env self urls sch w.
    rewrite scrape_multiple_unfold.
    pose proof (scrape_loop_config env self sch urls []
                  (with_log w (log w ++ [(INFO, MsgScrapingMany (length urls))])))
      as H.
    destruct (Scraper.scrape_loop env self urls sch [] _) as [[rs|e] w1];
      cbn [snd] in *; exact H.
  - intros env url sch w. apply (frame_engine_scrape env url sch w).
  - intros env ua url w. apply (frame_can_fetch env ua url w).
  - intros env file_path policy w.
    apply (frame_get_proxy env file_path policy w).
Qed.

(** C9, refuted as stated: constructing a scraper with the default engine
    argument over a configuration that names another engine rewrites the
    [engine] field of that configuration object. *)
Lemma config_engine_mutated_by_init :
  engine (config Demo.world_selenium) = "selenium"
  /\ engine (config (snd (Scraper.init ["requests"; "selenium"]
                            "requests" Demo.world_selenium)))
     = "requests".
Proof. split; reflexivity. Qed.

(** ** The robots.txt cache *)

Section DelFacts.
Context {V : Type}.
Implicit Types (d : dict V) (k : string).

Lemma del_keys d : forall k d',
    PyDict.del d k = Some d' ->
    PyDict.keys d' = remove_key k (PyDict.keys d).
  Proof.
    induction d as [|[k0 v0] d IH]; simpl; intros k d' H; [discriminate|].
    destruct (String.eqb k0 k); [now inversion H|].
    destruct (PyDict.del d k) as [d''|] eqn:E; [|discriminate].
    inversion H; subst. simpl. f_equal. now apply IH.
  Qed.

Lemma del_some d : forall k,
    In k (PyDict.keys d) -> exists d', PyDict.del d k = Some d'.
  Proof.
    induction d as [|[k0 v0] d IH]; simpl; intros k H; [tauto|].
    destruct (String.eqb k0 k) eqn:E; [eauto|].
    apply String.eqb_neq in E. destruct H as [H|H]; [contradiction|].
    destruct (IH k H) as [d' ->]. eauto.
  Qed.

Lemma del_get_none d : forall k k' d',
    PyDict.del d k = Some d' ->
    PyDict.get d k' = None -> PyDict.get d' k' = None.
  Proof.
    induction d as [|[k0 v0] d IH]; simpl; intros k k' d' H Hn; [discriminate|].
    destruct (String.eqb k0 k') eqn:E'; [discriminate|].
    destruct (String.eqb k0 k); [now inversion H; subst|].
    destruct (PyDict.del d k) as [d''|] eqn:E; [|discriminate].
    inversion H; subst. simpl. rewrite E'. eapply IH; eauto.
  Qed.

Lemma del_get_some d : forall k k' d' v,
    NoDup (PyDict.keys d) ->
    PyDict.del d k = Some d' ->
    PyDict.get d' k' = Some v -> PyDict.get d k' = Some v.
  Proof.
    induction d as [|[k0 v0] d IH]; simpl; intros k k' d' v Hnd H Hg;
      [discriminate|].
    inversion Hnd as [|? ? Hk0 Hnd']; subst.
    destruct (String.eqb k0 k) eqn:E.
    - inversion H; subst d'. destruct (String.eqb k0 k') eqn:E'; auto.
      apply String.eqb_eq in E'. subst k'.
      apply get_some_in in Hg. exfalso. apply Hk0.
      change k0 with (fst (k0, v)). now apply in_map.
    - destruct (PyDict.del d k) as [d''|] eqn:Ed; [|discriminate].
      inversion H; subst d'. simpl in Hg.
      destruct (String.eqb k0 k'); auto. eapply IH; eauto.
  Qed.
End DelFacts.

Lemma remove_key_In k l : forall x,
  In x (remove_key k l) -> In x l.
Proof.
  induction l as [|y l IH]; simpl; intros x H; auto.
  destruct (String.eqb y k); simpl in *; intuition.
Qed.

Lemma remove_key_NoDup k l : NoDup l -> NoDup (remove_key k l).
Proof.
  induction 1 as [|y l Hy Hnd IH]; simpl; [constructor|].
  destruct (String.eqb y k); auto. constructor; auto.
  intros H. apply Hy. eapply remove_key_In; eauto.
Qed.

Lemma remove_key_keeps k l : forall x,
  x <> k -> In x l -> In x (remove_key k l).
Proof.
  induction l as [|y l IH]; simpl; intros x Hne H; auto.
  destruct (String.eqb y k) eqn:E.
  - apply String.eqb_eq in E. subst y. destruct H; [congruence|auto].
  - simpl. destruct H; auto.
Qed.

Lemma firstn_incl {A} (n : nat) (l : list A) : incl (firstn n l) l.
Proof.
  revert n. induction l as [|x l IH]; intros [|n] z Hz; simpl in *;
    try contradiction.
  destruct Hz as [->|Hz]; [now left | right; now apply (IH n)].
Qed.

Lemma firstn_NoDup {A} (n : nat) (l : list A) : NoDup l -> NoDup (firstn n l).
Proof.
  revert n. induction l as [|x l IH]; intros [|n] H; simpl; try constructor.
  - inversion H; subst. intros Hin. apply firstn_incl in Hin. contradiction.
  - inversion H; subst. now apply IH.
Qed.

Lemma for_each_map {A B} (f : A -> B) (body : B -> M unit) (l : list A) :
  for_each (map f l) body = for_each l (fun x => body (f x)).
Proof. induction l as [|x l IH]; simpl; auto. now rewrite IH. Qed.

Lemma insert_by_time_perm x l :
  Permutation (RobotsTxtChecker.insert_by_time x l) (x :: l).
Proof.
  induction l as [|y l IH]; simpl; auto.
  destruct (Qle_bool (snd x) (snd y)); auto.
  rewrite IH. apply perm_swap.
Qed.

Lemma sorted_by_time_perm l : Permutation (RobotsTxtChecker.sorted_by_time l) l.
Proof.
  induction l as [|x l IH]; simpl; auto.
  rewrite insert_by_time_perm. now constructor.
Qed.

Section CacheFacts.
Variable env : Env.

Lemma del_entry_eq k w :
    RobotsTxtChecker.del_entry k w
    = match PyDict.del (_robots_parsers w) k with
      | None => (Raise (KeyError k), w)
      | Some ps' =>
          match PyDict.del (_robots_parsers_last_used w) k with
          | None =>
              (Raise (KeyError k),
               with_robots w ps' (_robots_parsers_last_used w))
          | Some lu' =>
              (Ok tt,
               with_robots (with_robots w ps' (_robots_parsers_last_used w))
                           ps' lu')
          end
      end.
  Proof.
    unfold RobotsTxtChecker.del_entry, bind, gets, modify, raise.
    destruct (PyDict.del (_robots_parsers w) k) as [ps'|]; [|reflexivity].
    cbn. destruct (PyDict.del (_robots_parsers_last_used w) k); reflexivity.
  Qed.

Lemma stays_absent_refl base w : stays_absent base w w.
  Proof. intros H. exact H. Qed.

Lemma stays_absent_trans base w1 w2 w3 :
    stays_absent base w1 w2 -> stays_absent base w2 w3 ->
    stays_absent base w1 w3.
  Proof. unfold stays_absent. auto. Qed.

Lemma absent_del_entry base k :
    steps (stays_absent base) (RobotsTxtChecker.del_entry k).
  Proof.
    intros w Habs. rewrite del_entry_eq.
    destruct (PyDict.del (_robots_parsers w) k) as [ps'|] eqn:E; [|exact Habs].
    destruct (PyDict.del (_robots_parsers_last_used w) k); cbn;
      eapply del_get_none; eauto.
  Qed.

  (** The cleanup only deletes: an origin that is not cached stays so. *)
Lemma absent_cleanup base :
    steps (stays_absent base) (RobotsTxtChecker._cleanup_old_parsers env).
  Proof.
    unfold RobotsTxtChecker._cleanup_old_parsers, time.
    repeat first
      [ apply absent_del_entry
      | apply (steps_ret _ (stays_absent_refl base))
      | apply (steps_gets _ (stays_absent_refl base))
      | apply (steps_bind _ (stays_absent_trans base)); [|intros ?]
      | apply (steps_for_each _ (stays_absent_refl base)
                 (stays_absent_trans base)); intros ?
      | match goal with
        | |- steps _ (if ?b then _ else _) => destruct b
        | |- steps _ (let _ := _ in _) => cbv zeta
        | |- steps _ next_tick => intros w H; exact H
        end ].
  Qed.

  (** Deleting a cached origin succeeds and keeps the cache well formed. *)
Lemma del_entry_ok k w :
    cache_ok w -> In k (PyDict.keys (_robots_parsers w)) ->
    exists w',
      RobotsTxtChecker.del_entry k w = (Ok tt, w')
      /\ cache_ok w'
      /\ PyDict.keys (_robots_parsers w')
         = remove_key k (PyDict.keys (_robots_parsers w))
      /\ parsers_within w w'.
  Proof.
    intros [Hkeys Hnd] Hin. rewrite del_entry_eq.
    destruct (del_some _ k Hin) as [ps' Eps]. rewrite Eps.
    rewrite Hkeys in Hin. destruct (del_some _ k Hin) as [lu' Elu].
    rewrite Elu. eexists. split; [reflexivity|].
    unfold cache_ok, parsers_within.
    cbn [_robots_parsers _robots_parsers_last_used with_robots].
    rewrite (del_keys _ _ _ Eps). split; [|split; [reflexivity|]].
    - split.
      + rewrite (del_keys _ _ _ Elu). now rewrite Hkeys.
      + now apply remove_key_NoDup.
    - intros k' v Hg. eapply del_get_some; eauto.
  Qed.

Lemma parsers_within_refl w : parsers_within w w.
  Proof. intros k v H. exact H. Qed.

  (** A loop whose body either does nothing or deletes its key. *)
Lemma del_loop_ok (body : string -> M unit) :
    (forall k w, body k w = (Ok tt, w)
                 \/ body k w = RobotsTxtChecker.del_entry k w) ->
    forall ks w,
      NoDup ks -> cache_ok w ->
      (forall k, In k ks -> In k (PyDict.keys (_robots_parsers w))) ->
      exists w', for_each ks body w = (Ok tt, w')
                 /\ cache_ok w' /\ parsers_within w w'.
  Proof.
    intros Hbody. induction ks as [|k ks IH]; intros w Hnd Hok Hin.
    - exists w. split; [reflexivity|].
      split; [exact Hok | apply parsers_within_refl].
    - inversion Hnd as [|? ? Hk Hnd']; subst. cbn [for_each]. unfold bind.
      destruct (Hbody k w) as [-> | ->].
      + apply IH; auto. intros k' Hk'. apply Hin. now right.
      + destruct (del_entry_ok k w Hok (Hin k (or_introl eq_refl)))
          as [w1 [-> [Hok1 [Hkeys1 Hsub1]]]].
        destruct (IH w1 Hnd' Hok1) as [w' [E [Hok' Hsub']]].
        * intros k' Hk'. rewrite Hkeys1. apply remove_key_keeps.
          -- intros ->. contradiction.
          -- apply Hin. now right.
        * exists w'. split; [exact E|]. split; [exact Hok'|].
          intros k' v Hg. apply Hsub1, Hsub'. exact Hg.
  Qed.

  (** On a well-formed cache the cleanup returns normally, keeps the
      cache well formed and only deletes entries. *)
Lemma cleanup_ok w :
    cache_ok w ->
    exists w', RobotsTxtChecker._cleanup_old_parsers env w = (Ok tt, w')
               /\ cache_ok w' /\ parsers_within w w'.
  Proof.
    intros Hok. unfold RobotsTxtChecker._cleanup_old_parsers.
    unfold bind at 1. cbn [gets].
    destruct (length (_robots_parsers w)
              <=? RobotsTxtChecker._robots_parsers_max_cache_size).
    { exists w. split; [reflexivity|].
      split; [exact Hok | apply parsers_within_refl]. }
    unfold bind at 1, time, bind at 1, next_tick. cbn [ret].
    set (w0 := with_tick w (S (tick w))).
    assert (Hok0 : cache_ok w0) by exact Hok.
    unfold bind at 1.
    assert (Hin0 : forall k, In k (PyDict.keys (_robots_parsers w)) ->
                             In k (PyDict.keys (_robots_parsers w0))) by auto.
    match goal with |- context [for_each _ ?body w0] =>
      assert (Hb : forall k w', body k w' = (Ok tt, w')
                     \/ body k w' = RobotsTxtChecker.del_entry k w');
        [|destruct (del_loop_ok body Hb (PyDict.keys (_robots_parsers w)) w0
                      (proj2 Hok) Hok0 Hin0) as [w1 [E1 [Hok1 Hsub1]]]]
    end.
    { intros k w'. unfold bind, gets.
      destruct (Qltb _ _); [now right | now left]. }
    rewrite E1. unfold bind at 1. cbn [gets].
    destruct (RobotsTxtChecker._robots_parsers_max_cache_size
              <? length (_robots_parsers w1)).
    - unfold bind at 1. cbn [gets].
      rewrite <- (for_each_map fst RobotsTxtChecker.del_entry).
      set (ks := map fst (firstn _ _)).
      assert (Hnd2 : NoDup ks).
      { unfold ks. rewrite <- firstn_map. apply firstn_NoDup.
        eapply Permutation_NoDup.
        - apply Permutation_sym, Permutation_map, sorted_by_time_perm.
        - destruct Hok1 as [Hk Hn]. unfold PyDict.keys in Hk. rewrite <- Hk.
          exact Hn. }
      assert (Hin2 : forall k, In k ks ->
                               In k (PyDict.keys (_robots_parsers w1))).
      { intros k Hk. unfold ks in Hk. rewrite <- firstn_map in Hk.
        apply firstn_incl in Hk.
        destruct Hok1 as [Hkeys _]. rewrite Hkeys.
        eapply Permutation_in; [|exact Hk].
        apply Permutation_map, sorted_by_time_perm. }
      destruct (del_loop_ok RobotsTxtChecker.del_entry
                  (fun k w' => or_intror eq_refl) ks w1 Hnd2 Hok1 Hin2)
        as [w2 [E2 [Hok2 Hsub2]]].
      exists w2. rewrite E2. split; [reflexivity|]. split; [exact Hok2|].
      intros k v Hg. apply Hsub1, Hsub2. exact Hg.
    - exists w1. split; [reflexivity|]. split; [exact Hok1 | exact Hsub1].
  Qed.
End CacheFacts.

Section CanFetchFacts.
Variable env : Env.

  (** An origin that is not cached and whose robots.txt cannot be read:
      the lookup returns no parser and logs the error, unless the cleanup
      itself raised. *)
Lemma get_robots_parser_unreachable base_url w :
    PyDict.get (_robots_parsers w) base_url = None ->
    (forall t, exists e,
        robots_read env t (base_url ++ "/robots.txt") = Raise e) ->
    exists r w' l,
      RobotsTxtChecker._get_robots_parser env base_url w = (r, w')
      /\ log w' = log w ++ l
      /\ ((r = Ok None /\ exists m, In (ERROR, m) l) \/ exists e, r = Raise e).
  Proof.
    intros Habs Hdown. unfold RobotsTxtChecker._get_robots_parser.
    unfold bind at 1.
    pose proof (frame_cleanup env w) as Hf.
    pose proof (absent_cleanup env base_url w Habs) as Ha.
    destruct (RobotsTxtChecker._cleanup_old_parsers env w) as [[[]|e] w1].
    - cbn [snd] in *. destruct Hf as [_ [l1 [Hl1 _]]].
      unfold bind at 1. cbn [gets]. rewrite Ha.
      unfold bind at 1, next_tick. unfold bind at 1. cbn [modify].
      destruct (Hdown (tick w1)) as [e He]. rewrite He.
      rewrite bind_logger. cbn [ret].
      eexists. eexists. exists (l1 ++ [(ERROR, MsgErrorReadingRobots base_url e)]).
      split; [reflexivity|]. split.
      + cbn [log with_log with_tick with_urlopened].
        now rewrite Hl1, <- app_assoc.
      + left. split; [reflexivity|]. eexists. apply in_or_app. right. now left.
    - cbn [snd] in *. destruct Hf as [_ [l1 [Hl1 _]]].
      exists (Raise e), w1, l1. split; [reflexivity|]. split; eauto.
  Qed.

  (** An origin whose robots.txt reads as [p], and is cached as [p] if it
      is cached at all: the lookup returns [p]. *)
Lemma get_robots_parser_found base_url w p :
    cache_ok w ->
    (forall t, robots_read env t (base_url ++ "/robots.txt") = Ok p) ->
    (forall q, PyDict.get (_robots_parsers w) base_url = Some q -> q = p) ->
    exists w',
      RobotsTxtChecker._get_robots_parser env base_url w = (Ok (Some p), w').
  Proof.
    intros Hok Hread Hsame. unfold RobotsTxtChecker._get_robots_parser.
    unfold bind at 1.
    destruct (cleanup_ok env w Hok) as [w1 [-> [Hok1 Hsub]]].
    unfold bind at 1. cbn [gets].
    destruct (PyDict.get (_robots_parsers w1) base_url) as [q|] eqn:E.
    - rewrite (Hsame q (Hsub _ _ E)). eexists. reflexivity.
    - unfold bind at 1, next_tick. unfold bind at 1. cbn [modify].
      rewrite Hread. eexists. reflexivity.
  Qed.

Lemma keys_set {V} (d : dict V) k v :
    PyDict.keys (PyDict.set d k v)
    = if str_in k (PyDict.keys d) then PyDict.keys d else PyDict.keys d ++ [k].
  Proof.
    induction d as [|[k0 v0] d IH]; simpl; auto.
    destruct (String.eqb k0 k) eqn:E; simpl; auto.
    rewrite IH. destruct (str_in k (PyDict.keys d)); reflexivity.
  Qed.

  (** The lookup keeps the cache well formed, so [cache_ok] holds of every
      world reached from the empty cache. *)
Lemma get_robots_parser_cache_ok base_url w :
    cache_ok w ->
    cache_ok (snd (RobotsTxtChecker._get_robots_parser env base_url w)).
  Proof.
    intros Hok. unfold RobotsTxtChecker._get_robots_parser.
    unfold bind at 1.
    destruct (cleanup_ok env w Hok) as [w1 [-> [[Hkeys Hnd] _]]].
    unfold bind at 1. cbn [gets].
    destruct (PyDict.get (_robots_parsers w1) base_url) as [q|] eqn:E.
    - assert (Hin : str_in base_url (PyDict.keys (_robots_parsers_last_used w1))
                    = true).
      { apply str_in_In. rewrite <- Hkeys.
        apply get_some_in in E. change base_url with (fst (base_url, q)).
        now apply in_map. }
      unfold cache_ok. cbn -[PyDict.keys PyDict.set].
      rewrite (keys_set (_robots_parsers_last_used w1)), Hin. auto.
    - assert (Hout : str_in base_url (PyDict.keys (_robots_parsers w1)) = false).
      { apply get_none_not_in in E.
        destruct (str_in base_url (PyDict.keys (_robots_parsers w1))) eqn:Es;
          auto. apply str_in_In in Es. contradiction. }
      unfold bind at 1, next_tick. unfold bind at 1. cbn [modify].
      destruct (robots_read env (tick w1) _) as [p|e].
      + unfold cache_ok. cbn -[PyDict.keys PyDict.set].
        rewrite (keys_set (_robots_parsers w1)),
                (keys_set (_robots_parsers_last_used w1)).
        rewrite <- Hkeys, Hout. split; auto.
        apply NoDup_app; [exact Hnd | repeat constructor; intros [] |].
        intros x Hx [<-|[]]. apply get_none_not_in in E. contradiction.
      + unfold cache_ok. cbn -[PyDict.keys PyDict.set]. auto.
  Qed.
End CanFetchFacts.



(* ================================================================== *)
(** * Further properties of the code                                  *)
(* ================================================================== *)

(** ** Text utilities *)

Lemma string_app_assoc (a b c : string) :
  ((a ++ b) ++ c)%string = (a ++ (b ++ c))%string.
Proof. induction a as [|x a IH]; simpl; auto. now rewrite IH. Qed.

Lemma string_app_nil (a : string) : (a ++ EmptyString)%string = a.
Proof. induction a as [|x a IH]; simpl; auto. now rewrite IH. Qed.

Lemma no_space_app a b :
  no_space (a ++ b) = no_space a && no_space b.
Proof.
  induction a as [|x a IH]; simpl; auto. rewrite IH. now rewrite andb_assoc.
Qed.

Lemma no_space_rstrip s : no_space s = true -> rstrip s = s.
Proof.
  induction s as [|c s IH]; simpl; auto.
  intros H. apply andb_true_iff in H. destruct H as [Hc Hs].
  rewrite (IH Hs). destruct s; auto.
  apply negb_true_iff in Hc. now rewrite Hc.
Qed.

Lemma word_starts_clean s : no_space s = true -> starts_clean s.
Proof.
  destruct s as [|c s]; simpl; auto. intros H.
  apply andb_true_iff in H. now apply negb_true_iff.
Qed.

(** The words of a text are non-empty and free of whitespace. *)
Lemma split_from_words s : forall cur,
  no_space cur = true -> Forall is_word (split_from s cur).
Proof.
  induction s as [|c s IH]; intros cur Hcur; simpl.
  - destruct (nonempty cur) eqn:E; repeat constructor; auto.
  - destruct (isspace c) eqn:Ec.
    + destruct (nonempty cur) eqn:E.
      * constructor; [split; auto | now apply IH].
      * now apply IH.
    + apply IH. rewrite no_space_app, Hcur. simpl. now rewrite Ec.
Qed.

Lemma split_from_word w : forall rest cur,
  no_space w = true ->
  split_from (w ++ rest) cur = split_from rest (cur ++ w).
Proof.
  induction w as [|c w IH]; intros rest cur H; simpl.
  - now rewrite string_app_nil.
  - apply andb_true_iff in H. destruct H as [Hc Hw].
    apply negb_true_iff in Hc. rewrite Hc, IH by assumption.
    now rewrite string_app_assoc.
Qed.

(** Splitting the words joined by single spaces gives the words back. *)
Lemma split_join ws :
  Forall is_word ws -> split (String.concat " " ws) = ws.
Proof.
  unfold split. induction 1 as [|x ws [Hne Hns] HF IH]; [reflexivity|].
  destruct ws as [|y ws].
  - simpl. rewrite <- (string_app_nil x) at 1.
    rewrite split_from_word by assumption. simpl. now rewrite Hne.
  - change (String.concat " " (x :: y :: ws))
      with (x ++ String " " (String.concat " " (y :: ws)))%string.
    rewrite split_from_word by assumption. cbn [append split_from].
    replace (isspace " ") with true by reflexivity.
    rewrite Hne. f_equal. exact IH.
Qed.

Lemma join_words_trimmed ws :
  Forall is_word ws ->
  rstrip (String.concat " " ws) = String.concat " " ws
  /\ starts_clean (String.concat " " ws)
  /\ (ws <> [] -> String.concat " " ws <> EmptyString).
Proof.
  induction 1 as [|x ws [Hne Hns] HF [IHr [IHs IHn]]].
  - simpl. repeat split; auto; congruence.
  - assert (Hx : x <> EmptyString) by (now apply nonempty_true).
    destruct ws as [|y ws].
    + simpl. repeat split; auto.
      * now apply no_space_rstrip.
      * now apply word_starts_clean.
    + change (String.concat " " (x :: y :: ws))
        with (x ++ String " " (String.concat " " (y :: ws)))%string.
      assert (Hrest : String.concat " " (y :: ws) <> EmptyString)
        by (apply IHn; discriminate).
      repeat split.
      * apply rstrip_append; [discriminate|].
        cbn [rstrip]. rewrite IHr.
        destruct (String.concat " " (y :: ws)); [congruence | reflexivity].
      * apply starts_clean_append; auto. now apply word_starts_clean.
      * intros _. destruct x; simpl; congruence.
Qed.

(** X1.  [clean_text] returns the words of the text joined by single
    spaces: every maximal run of whitespace becomes one space and the
    ends are trimmed.  Cleaning a cleaned text changes nothing. *)
Theorem clean_text_normal_form :
  forall text : string,
    clean_text text = String.concat " " (split text)
    /\ Forall is_word (split text)
    /\ clean_text (clean_text text) = clean_text text.
Proof.
  intros text.
  assert (Hw : Forall is_word (split text))
    by (apply split_from_words; reflexivity).
  assert (E : forall t, clean_text t = String.concat " " (split t)).
  { intros t. unfold clean_text. destruct t as [|c t]; [reflexivity|].
    cbn [nonempty].
    destruct (join_words_trimmed (split (String c t))) as [Hr [Hs _]].
    - apply split_from_words. reflexivity.
    - now apply strip_fixed. }
  split; [apply E|]. split; [exact Hw|].
  rewrite (E (clean_text text)), (E text), split_join; auto.
Qed.

Lemma strip_idem s : strip (strip s) = strip s.
Proof. apply strip_fixed; [apply strip_rstrip | apply strip_starts_clean]. Qed.

(** ** The record of an extraction *)

Section RecordKeys.
Import RequestsEngine.

Lemma extract_field_key soup res name fs res' :
  extract_field soup res name fs = Ok res' ->
  if extractable fs then exists v, res' = PyDict.set res name v
  else res' = res.
Proof.
  destruct fs as [sel | sel attribute multiple ps | ]; simpl.
  - unfold soup_select.
    destruct (select_error soup sel); simpl; [discriminate|].
    destruct (select soup sel) as [|e [|e' es]]; intros [= <-]; eauto.
  - destruct sel as [sel|]; simpl; [|intros [= <-]; auto].
    destruct (nonempty sel); [|intros [= <-]; auto].
    unfold soup_select.
    destruct (select_error soup sel); simpl; [discriminate|].
    destruct (select soup sel) as [|e es]; [intros [= <-]; eauto|].
    destruct (extract_elements attribute ps (e :: es) []) as [vs|x];
      simpl; [|discriminate].
    destruct multiple; intros [= <-]; eauto.
  - intros [= <-]; auto.
Qed.

Lemma extract_fields_keys soup items : forall res rec,
  NoDup (map fst items) ->
  (forall name, In name (map fst items) -> ~ In name (PyDict.keys res)) ->
  extract_fields soup items res = Ok rec ->
  PyDict.keys rec
  = PyDict.keys res
    ++ map fst (filter (fun entry => extractable (snd entry)) items).
Proof.
  induction items as [|[name fs] items IH]; intros res rec Hnd Hfresh H.
  - simpl in *. inversion H. now rewrite app_nil_r.
  - cbn [extract_fields] in H.
    destruct (extract_field soup res name fs) as [res'|x] eqn:E;
      simpl in H; [|discriminate].
    inversion Hnd as [|? ? Hname Hnd']; subst.
    apply extract_field_key in E. cbn [filter snd].
    destruct (extractable fs).
    + destruct E as [v ->].
      assert (Hkeys : PyDict.keys (PyDict.set res name v)
                      = PyDict.keys res ++ [name]).
      { rewrite keys_set.
        destruct (str_in name (PyDict.keys res)) eqn:Es; auto.
        apply str_in_In in Es. exfalso.
        apply (Hfresh name); [now left | exact Es]. }
      assert (Hfresh' : forall n, In n (map fst items) ->
                 ~ In n (PyDict.keys (PyDict.set res name v))).
      { intros n Hn. rewrite Hkeys. intros Hin.
        apply in_app_or in Hin. destruct Hin as [Hin|[<-|[]]].
        - apply (Hfresh n); [now right | exact Hin].
        - contradiction. }
      rewrite (IH _ _ Hnd' Hfresh' H).
      rewrite Hkeys, <- app_assoc. reflexivity.
    + subst res'. apply IH; auto.
      intros n Hn. apply Hfresh. now right.
Qed.

Lemma apply_processors_fault ps : forall v e,
  apply_processors ps v = Raise e ->
  exists p v', In p ps /\ p v' = Raise e.
Proof.
  induction ps as [|p ps IH]; intros v e; simpl; [discriminate|].
  destruct (is_none v).
  - intros H. destruct (IH _ _ H) as [q [v' [Hq Hv]]]. exists q, v'. auto.
  - destruct (p v) as [v1|x] eqn:E; simpl.
    + intros H. destruct (IH _ _ H) as [q [v' [Hq Hv]]]. exists q, v'. auto.
    + intros [= <-]. exists p, v. auto.
Qed.

Lemma extract_elements_fault_origin attribute ps elements : forall acc e,
  extract_elements attribute ps elements acc = Raise e ->
  exists p v, In p ps /\ p v = Raise e.
Proof.
  induction elements as [|el els IH]; intros acc e; simpl; [discriminate|].
  destruct (extract_element attribute ps el) as [v|x] eqn:E; simpl.
  - apply IH.
  - intros [= <-]. unfold extract_element in E.
    eapply apply_processors_fault. exact E.
Qed.

Lemma extract_field_fault_origin soup res name fs e :
  extract_field soup res name fs = Raise e ->
  (exists sel, selector_of fs = Some sel /\ select_error soup sel = Some e)
  \/ (exists p v, In p (processors_of fs) /\ p v = Raise e).
Proof.
  destruct fs as [sel | sel attribute multiple ps | ]; simpl.
  - unfold soup_select. destruct (select_error soup sel) as [x|] eqn:Ex; simpl.
    + intros [= <-]. left. eauto.
    + destruct (select soup sel) as [|e1 [|e2 es]]; discriminate.
  - destruct sel as [sel|]; [|discriminate].
    destruct (nonempty sel); [|discriminate].
    unfold soup_select. destruct (select_error soup sel) as [x|] eqn:Ex; simpl.
    + intros [= <-]. left. eauto.
    + destruct (select soup sel) as [|e1 es]; [discriminate|].
      destruct (extract_elements attribute ps (e1 :: es) []) as [vs|x] eqn:Ee;
        simpl.
      * destruct multiple; discriminate.
      * intros [= <-]. right.
        eapply extract_elements_fault_origin. exact Ee.
  - discriminate.
Qed.
End RecordKeys.

(** X2.  When the extraction returns a record for a schema with distinct
    field names, the keys of the record are, in schema order, the names
    of the plain-selector fields and of the structured fields that have a
    non-empty selector; a structured field without selector and an entry
    that is neither a string nor a mapping leave no key. *)
Theorem extract_data_keys :
  forall (soup : Soup) (sch : schema) (rec : record),
    NoDup (map fst sch) ->
    RequestsEngine._extract_data soup sch = Ok rec ->
    PyDict.keys rec
    = map fst (filter (fun entry => extractable (snd entry)) sch).
Proof.
  intros soup sch rec Hnd H. unfold RequestsEngine._extract_data in H.
  apply (extract_fields_keys soup sch [] rec Hnd) in H; auto.
Qed.

Lemma extract_data_keys_witness :
  let sch := [ ("title", FStr "h1");
               ("skipped", FDict None None false []);
               ("odd", FOther);
               ("links", FDict (Some "a") (Some "href") true []) ] in
  NoDup (map fst sch)
  /\ RequestsEngine._extract_data Demo.page sch
     = Ok [("title", VStr "Hi"); ("links", VList [VStr "/a"; VStr "/b"])]
  /\ PyDict.keys [("title", VStr "Hi"); ("links", VList [VStr "/a"; VStr "/b"])]
     = ["title"; "links"].
Proof.
  cbv zeta.
  assert (H : NoDup (map fst [ ("title", FStr "h1");
                               ("skipped", FDict None None false []);
                               ("odd", FOther);
                               ("links", FDict (Some "a") (Some "href") true []) ])).
  { repeat constructor; simpl; intuition discriminate. }
  split; [exact H|]. split; [reflexivity|].
  exact (extract_data_keys Demo.page _ _ H eq_refl).
Defined.

(** X3.  The extraction fails only through a selector or a processor of
    the schema: when it raises, either [soup.select] rejected the
    selector of one of the schema's fields with that exception, or one of
    the processors of a field raised it on some value.  No match, a
    missing attribute and a missing selector never raise. *)
Theorem extract_data_failure_origin :
  forall (soup : Soup) (sch : schema) (e : exn),
    RequestsEngine._extract_data soup sch = Raise e ->
    (exists name fs sel,
        In (name, fs) sch /\ selector_of fs = Some sel
        /\ select_error soup sel = Some e)
    \/ (exists name fs p v,
           In (name, fs) sch /\ In p (processors_of fs) /\ p v = Raise e).
Proof.
  intros soup sch e. unfold RequestsEngine._extract_data.
  generalize (@nil (string * value)).
  induction sch as [|[name fs] sch IH]; intros res; simpl; [discriminate|].
  destruct (RequestsEngine.extract_field soup res name fs) as [res'|x] eqn:E;
    simpl.
  - intros H. destruct (IH _ H) as [[n [f [sel [Hin H']]]]|[n [f [p [v [Hin H']]]]]].
    + left. exists n, f, sel. auto.
    + right. exists n, f, p, v. auto.
  - intros [= <-].
    destruct (extract_field_fault_origin _ _ _ _ _ E)
      as [[sel [Hs He]]|[p [v [Hp Hv]]]].
    + left. exists name, fs, sel. auto.
    + right. exists name, fs, p, v. auto.
Qed.

Lemma extract_data_failure_origin_witness :
  RequestsEngine._extract_data Demo.page [("title", FStr "h1[")]
  = Raise (SelectorSyntaxError "h1[")
  /\ ((exists name fs sel,
          In (name, fs) [("title", FStr "h1[")] /\ selector_of fs = Some sel
          /\ select_error Demo.page sel = Some (SelectorSyntaxError "h1["))
      \/ (exists name fs p v,
             In (name, fs) [("title", FStr "h1[")]
             /\ In p (processors_of fs)
             /\ p v = Raise (SelectorSyntaxError "h1[")))
  /\ RequestsEngine._extract_data Demo.page Demo.faulty
     = Raise (ProcessorFault "bad value").
Proof.
  split; [reflexivity|]. split; [|reflexivity].
  exact (extract_data_failure_origin Demo.page [("title", FStr "h1[")]
           (SelectorSyntaxError "h1[") eq_refl).
Defined.

(** ** Attempts, retries and proxies *)

Lemma bind_sleep {A} (k : M A) w :
  bind (sleep (2 # 1)) (fun _ => k) w
  = k (with_sleeps w (sleeps w ++ [2 # 1])).
Proof. reflexivity. Qed.

Section AttemptFacts.
Variable env : Env.

Lemma fetch_attempt_outcome url w :
  plain_config (config w) ->
  let request := mkRequest url (session_headers w) (timeout (config w))
                           (verify_ssl (config w)) None in
  RequestsEngine.fetch_attempt env url w
  = (attempt_outcome (session_get env (tick w) request),
     with_sent (with_tick w (S (tick w))) (sent w ++ [request])).
Proof.
  intros [Hr Hp]. cbv zeta. rewrite (fetch_attempt_plain env url w Hr Hp).
  reflexivity.
Qed.

(** With proxies on, an attempt selects a proxy first and then sends one
    request through it; a failed selection is the attempt's failure. *)
Lemma fetch_attempt_with_proxy url w :
  user_agent_rotation (config w) = false ->
  use_proxies (config w) = true ->
  RequestsEngine.fetch_attempt env url w
  = match proxy_manager.get_proxy env (proxy_list_path (config w))
            (proxy_rotation_policy (config w)) w with
    | (Raise e, w1) => (Raise e, w1)
    | (Ok proxy, w1) =>
        let request :=
          mkRequest url (session_headers w1) (timeout (config w1))
            (verify_ssl (config w1))
            (if str_truthy proxy then
               match proxy with
               | Some p => through p
               | None => None
               end
             else None) in
        (attempt_outcome (session_get env (tick w1) request),
         with_sent (with_tick w1 (S (tick w1))) (sent w1 ++ [request]))
    end.
Proof.
  intros Hr Hp. unfold RequestsEngine.fetch_attempt, bind, gets.
  cbv beta. rewrite Hr. cbn [ret]. rewrite Hp.
  destruct (proxy_manager.get_proxy env (proxy_list_path (config w))
              (proxy_rotation_policy (config w)) w) as [[proxy|e] w1];
    [|reflexivity].
  cbn [ret next_tick modify]. cbv zeta.
  destruct (session_get env (tick w1) _) as [sc text|e]; cbn; auto.
  destruct (RequestsEngine.is_error_status sc); reflexivity.
Qed.

(** Failures followed by a success, within the budget [more]. *)
Lemma retry_until_success url text : forall k more w,
  k <= more ->
  plain_config (config w) ->
  (forall i req, i < k ->
                 exists e, attempt_outcome (session_get env (tick w + i) req)
                           = Raise e) ->
  (forall req, attempt_outcome (session_get env (tick w + k) req) = Ok text) ->
  exists w' l,
    RequestsEngine.retry_loop more (2 # 1) (RequestsEngine.fetch_attempt env url) w
    = (Ok text, w')
    /\ sent w' = sent w ++ l
    /\ length l = k + 1
    /\ Forall (fun r => req_url r = url /\ req_proxies r = None) l
    /\ sleeps w' = sleeps w ++ repeat (2 # 1) k.
Proof.
  induction k as [|k IH]; intros more w Hle Hplain Hfail Hok.
  - rewrite Nat.add_0_r in Hok.
    assert (E : RequestsEngine.retry_loop more (2 # 1)
                  (RequestsEngine.fetch_attempt env url) w
                = (Ok text,
                   with_sent (with_tick w (S (tick w)))
                     (sent w ++ [mkRequest url (session_headers w)
                                   (timeout (config w))
                                   (verify_ssl (config w)) None]))).
    { destruct more; cbn [RequestsEngine.retry_loop]; unfold try_except;
        rewrite (fetch_attempt_outcome url w Hplain); cbv zeta;
        rewrite Hok; reflexivity. }
    rewrite E. eexists.
    exists [mkRequest url (session_headers w) (timeout (config w))
              (verify_ssl (config w)) None].
    split; [reflexivity|]. cbn. rewrite app_nil_r.
    split; [reflexivity|]. split; [reflexivity|].
    split; [|reflexivity]. constructor; [split; reflexivity | constructor].
  - destruct more as [|more]; [lia|].
    cbn [RequestsEngine.retry_loop]. unfold try_except.
    rewrite (fetch_attempt_outcome url w Hplain). cbv zeta.
    set (request := mkRequest url (session_headers w) (timeout (config w))
                              (verify_ssl (config w)) None).
    destruct (Hfail 0 request ltac:(lia)) as [e He].
    rewrite Nat.add_0_r in He. rewrite He.
    rewrite bind_sleep.
    set (w2 := with_sleeps _ _).
    destruct (IH more w2) as [w' [l [E [Hs [Hl [Hall Hsl]]]]]].
    + lia.
    + exact Hplain.
    + intros i req Hi. replace (tick w2 + i) with (tick w + S i)
        by (unfold w2; cbn; lia). apply Hfail. lia.
    + intros req. replace (tick w2 + k) with (tick w + S k)
        by (unfold w2; cbn; lia). apply Hok.
    + exists w', (request :: l). split; [exact E|].
      split; [|split; [|split]].
      * rewrite Hs. unfold w2. cbn. now rewrite <- app_assoc.
      * simpl. lia.
      * constructor; auto.
      * rewrite Hsl. unfold w2. cbn. now rewrite <- app_assoc.
Qed.
End AttemptFacts.

(** X4.  With rotation and proxies off, a page whose first [k] attempts
    fail ([k <= 2]) and whose next attempt is answered with a non-error
    status is fetched: [_fetch_page] returns that body after [k + 1]
    requests to the URL, none through a proxy, having waited two seconds
    after each failure. *)
Theorem fetch_page_returns_first_success :
  forall (env : Env) (url text : string) (k : nat) (w : World),
    k <= 2 ->
    plain_config (config w) ->
    (forall i req, i < k ->
                   exists e, attempt_outcome (session_get env (tick w + i) req)
                             = Raise e) ->
    (forall req, attempt_outcome (session_get env (tick w + k) req) = Ok text) ->
    exists w' l,
      RequestsEngine._fetch_page env url w = (Ok text, w')
      /\ sent w' = sent w ++ l
      /\ length l = k + 1
      /\ Forall (fun r => req_url r = url /\ req_proxies r = None) l
      /\ sleeps w' = sleeps w ++ repeat (2 # 1) k.
Proof.
  intros env url text k w Hk Hplain Hfail Hok.
  unfold RequestsEngine._fetch_page, RequestsEngine.retry. cbn [Nat.sub].
  now apply retry_until_success.
Qed.

Lemma fetch_page_returns_first_success_witness :
  1 <= 2
  /\ plain_config (config Demo.world0)
  /\ exists w' l,
       RequestsEngine._fetch_page Examples.env_recovers "https://x/page"
         Demo.world0 = (Ok "<html/>", w')
       /\ sent w' = sent Demo.world0 ++ l
       /\ length l = 1 + 1
       /\ Forall (fun r => req_url r = "https://x/page"
                           /\ req_proxies r = None) l
       /\ sleeps w' = sleeps Demo.world0 ++ repeat (2 # 1) 1.
Proof.
  assert (H1 : 1 <= 2) by lia.
  assert (H2 : plain_config (config Demo.world0)) by (split; reflexivity).
  split; [exact H1|]. split; [exact H2|].
  apply (fetch_page_returns_first_success Examples.env_recovers
           "https://x/page" "<html/>" 1 Demo.world0 H1 H2).
  - intros i req Hi. assert (i = 0) by lia. subst i.
    eexists. reflexivity.
  - intros req. reflexivity.
Defined.

Section ProxyAttempts.
Variable env : Env.

Lemma get_proxy_stale file_path pool w :
  _proxies_cache w = Some pool -> pool <> [] ->
  length pool <= _current_proxy_index w ->
  proxy_manager.get_proxy env file_path "round-robin" w = (Raise IndexError, w).
Proof.
  intros Hc Hne Hidx. unfold proxy_manager.get_proxy, bind at 1.
  rewrite (load_cached env file_path pool w Hc).
  destruct pool as [|p pool]; [congruence|].
  cbn [String.eqb Ascii.eqb Bool.eqb andb]. unfold bind, gets.
  replace (nth_error (p :: pool) (_current_proxy_index w)) with (@None string)
    by (symmetry; now apply nth_error_None).
  reflexivity.
Qed.

(** One attempt through the proxy under the cursor. *)
Lemma attempt_round_robin url pool w :
  round_robin_config (config w) ->
  _proxies_cache w = Some pool ->
  Forall (fun p => nonempty p = true) pool ->
  _current_proxy_index w < length pool ->
  exists request,
    RequestsEngine.fetch_attempt env url w
    = (attempt_outcome
         (session_get env (tick w) request),
       with_sent
         (with_tick
            (with_proxy_index w
               ((_current_proxy_index w + 1) mod length pool))
            (S (tick w)))
         (sent w ++ [request]))
    /\ req_url request = url
    /\ req_proxies request
       = through (nth (_current_proxy_index w) pool EmptyString).
Proof.
  intros [Hr [Hp Hpol]] Hc Hne Hidx.
  rewrite (fetch_attempt_with_proxy env url w Hr Hp), Hpol.
  destruct (nth_error pool (_current_proxy_index w)) as [x|] eqn:Ex;
    [|apply nth_error_None in Ex; lia].
  rewrite (round_robin_step env _ pool w x Hc Ex). cbv zeta.
  assert (Hx : nonempty x = true).
  { apply nth_error_In in Ex. rewrite Forall_forall in Hne. now apply Hne. }
  cbn [str_truthy]. rewrite Hx.
  eexists. split; [reflexivity|]. split; [reflexivity|].
  cbn [req_proxies]. f_equal.
  erewrite nth_error_nth by exact Ex. reflexivity.
Qed.
End ProxyAttempts.

(** X5.  With proxies in round-robin (and no user-agent rotation), every
    attempt of a page fetch goes through the proxy under the cursor and
    moves the cursor on, whether the attempt fails or not: when all three
    attempts fail, the three requests went through three consecutive
    entries of the pool (modulo its size) and the cursor has advanced by
    three. *)
Theorem failed_fetch_rotates_proxies :
  forall (env : Env) (url : string) (pool : list string) (w : World),
    round_robin_config (config w) ->
    _proxies_cache w = Some pool ->
    Forall (fun p => nonempty p = true) pool ->
    _current_proxy_index w < length pool ->
    (forall t req, exists e, attempt_outcome (session_get env t req) = Raise e) ->
    exists e w' r1 r2 r3,
      RequestsEngine._fetch_page env url w = (Raise (RetryError e), w')
      /\ sent w' = sent w ++ [r1; r2; r3]
      /\ map req_proxies [r1; r2; r3]
         = map (fun i => through
                           (nth ((_current_proxy_index w + i) mod length pool)
                                pool EmptyString))
               [0; 1; 2]
      /\ _current_proxy_index w'
         = (_current_proxy_index w + 3) mod length pool.
Proof.
  intros env url pool w Hcfg Hc Hne Hidx Hfail.
  set (n := length pool) in *. set (c := _current_proxy_index w) in *.
  assert (Hn : n <> 0) by lia.
  unfold RequestsEngine._fetch_page, RequestsEngine.retry.
  cbn [Nat.sub RequestsEngine.retry_loop]. unfold try_except.
  destruct (attempt_round_robin env url pool w Hcfg Hc Hne Hidx)
    as [r1 [E1 [_ P1]]].
  fold n c in E1, P1. rewrite E1.
  destruct (Hfail (tick w) r1) as [e1 ->]. rewrite bind_sleep.
  set (w1 := with_sleeps _ _).
  assert (Hi1 : _current_proxy_index w1 = (c + 1) mod n) by reflexivity.
  assert (Hlt1 : _current_proxy_index w1 < length pool)
    by (rewrite Hi1; now apply Nat.mod_upper_bound).
  destruct (attempt_round_robin env url pool w1 Hcfg Hc Hne Hlt1)
    as [r2 [E2 [_ P2]]].
  fold n in E2, P2. rewrite Hi1 in E2, P2. rewrite E2.
  destruct (Hfail (tick w1) r2) as [e2 ->]. rewrite bind_sleep.
  set (w2 := with_sleeps _ _).
  assert (Hi2 : _current_proxy_index w2 = ((c + 1) mod n + 1) mod n)
    by reflexivity.
  assert (Hlt2 : _current_proxy_index w2 < length pool)
    by (rewrite Hi2; now apply Nat.mod_upper_bound).
  destruct (attempt_round_robin env url pool w2 Hcfg Hc Hne Hlt2)
    as [r3 [E3 [_ P3]]].
  fold n in E3, P3. rewrite Hi2 in E3, P3. rewrite E3.
  destruct (Hfail (tick w2) r3) as [e3 ->].
  assert (M2 : ((c + 1) mod n + 1) mod n = (c + 2) mod n).
  { rewrite Nat.Div0.add_mod_idemp_l. f_equal. lia. }
  assert (M3 : (((c + 1) mod n + 1) mod n + 1) mod n = (c + 3) mod n).
  { rewrite M2, Nat.Div0.add_mod_idemp_l. f_equal. lia. }
  exists e3. eexists. exists r1, r2, r3.
  split; [reflexivity|]. split; [|split].
  - cbn. rewrite <- !app_assoc. reflexivity.
  - cbn [map]. rewrite P1, P2, P3, M2, Nat.add_0_r.
    rewrite (Nat.mod_small c n Hidx). reflexivity.
  - cbn. exact M3.
Qed.

Lemma failed_fetch_rotates_proxies_witness :
  round_robin_config (config Examples.world_proxied)
  /\ _current_proxy_index Examples.world_proxied < 3
  /\ exists e w' r1 r2 r3,
       RequestsEngine._fetch_page Examples.env_down "https://y/page"
         Examples.world_proxied = (Raise (RetryError e), w')
       /\ sent w' = sent Examples.world_proxied ++ [r1; r2; r3]
       /\ map req_proxies [r1; r2; r3]
          = [through "http://p2:8080"; through "http://p3:8080";
             through "http://p1:8080"]
       /\ _current_proxy_index w' = 1.
Proof.
  assert (H1 : round_robin_config (config Examples.world_proxied))
    by (repeat split).
  assert (H2 : _current_proxy_index Examples.world_proxied < 3)
    by (simpl; lia).
  split; [exact H1|]. split; [exact H2|].
  apply (failed_fetch_rotates_proxies Examples.env_down "https://y/page"
           ["http://p1:8080"; "http://p2:8080"; "http://p3:8080"]
           Examples.world_proxied H1 eq_refl).
  - repeat constructor.
  - exact H2.
  - intros t req. eexists. reflexivity.
Defined.

(** X6.  With proxies in round-robin, a cursor that lies beyond the pool
    (the pool has shrunk since the cursor moved) makes every attempt fail
    with [IndexError] before any request is sent: the page fetch gives up
    after its two waits, the cursor stays where it is, and the engine's
    [scrape] returns the empty record. *)
Theorem stale_cursor_blocks_fetch :
  forall (env : Env) (url : string) (sch : schema) (pool : list string)
         (w : World),
    round_robin_config (config w) ->
    _proxies_cache w = Some pool -> pool <> [] ->
    length pool <= _current_proxy_index w ->
    RequestsEngine._fetch_page env url w
    = (Raise (RetryError IndexError),
       with_sleeps w (sleeps w ++ [2 # 1; 2 # 1]))
    /\ exists w',
         RequestsEngine.scrape env url sch w = (Ok [], w')
         /\ sent w' = sent w
         /\ _current_proxy_index w' = _current_proxy_index w.
Proof.
  intros env url sch pool w [Hr [Hp Hpol]] Hc Hne Hidx.
  assert (A : forall w0,
             config w0 = config w -> _proxies_cache w0 = Some pool ->
             _current_proxy_index w0 = _current_proxy_index w ->
             RequestsEngine.fetch_attempt env url w0 = (Raise IndexError, w0)).
  { intros w0 Hcfg Hc0 Hi0.
    rewrite (fetch_attempt_with_proxy env url w0) by (rewrite Hcfg; assumption).
    rewrite Hcfg, Hpol.
    rewrite (get_proxy_stale env _ pool w0 Hc0 Hne) by (rewrite Hi0; exact Hidx).
    reflexivity. }
  assert (E : RequestsEngine._fetch_page env url w
              = (Raise (RetryError IndexError),
                 with_sleeps w (sleeps w ++ [2 # 1; 2 # 1]))).
  { unfold RequestsEngine._fetch_page, RequestsEngine.retry.
    cbn [Nat.sub RequestsEngine.retry_loop]. unfold try_except.
    rewrite (A w eq_refl Hc eq_refl). rewrite bind_sleep.
    rewrite (A (with_sleeps w _) eq_refl Hc eq_refl). rewrite bind_sleep.
    rewrite (A (with_sleeps (with_sleeps w _) _) eq_refl Hc eq_refl).
    cbn. rewrite <- app_assoc. reflexivity. }
  split; [exact E|].
  unfold RequestsEngine.scrape, try_except, bind at 1. rewrite E.
  eexists. split; [reflexivity|]. split; reflexivity.
Qed.

Lemma stale_cursor_blocks_fetch_witness :
  round_robin_config (config Examples.world_stale_cursor)
  /\ length ["http://p1:8080"] <= _current_proxy_index Examples.world_stale_cursor
  /\ RequestsEngine._fetch_page Demo.env "https://x/page"
       Examples.world_stale_cursor
     = (Raise (RetryError IndexError),
        with_sleeps Examples.world_stale_cursor
          (sleeps Examples.world_stale_cursor ++ [2 # 1; 2 # 1])).
Proof.
  assert (H1 : round_robin_config (config Examples.world_stale_cursor))
    by (repeat split).
  assert (H2 : length ["http://p1:8080"]
               <= _current_proxy_index Examples.world_stale_cursor)
    by (simpl; lia).
  split; [exact H1|]. split; [exact H2|].
  exact (proj1 (stale_cursor_blocks_fetch Demo.env "https://x/page" []
                  ["http://p1:8080"] Examples.world_stale_cursor H1 eq_refl
                  ltac:(discriminate) H2)).
Defined.

(** ** Removing a proxy *)

Lemma list_remove_length proxy pool :
  str_in proxy pool = true ->
  length (proxy_manager.list_remove proxy pool) + 1 = length pool.
Proof.
  induction pool as [|p pool IH]; simpl; [discriminate|].
  destruct (String.eqb p proxy); simpl; [lia|].
  intros H. rewrite <- (IH H). lia.
Qed.

(** [remove_proxy] on a cached pool that holds the proxy: the cache loses
    the entry, whether the file can be written or not, and nothing else
    of the proxy state changes. *)
Lemma remove_proxy_cached env file_path proxy pool w :
  _proxies_cache w = Some pool ->
  str_in proxy pool = true ->
  exists w1,
    proxy_manager.remove_proxy env file_path proxy w = (Ok tt, w1)
    /\ _proxies_cache w1 = Some (proxy_manager.list_remove proxy pool)
    /\ _current_proxy_index w1 = _current_proxy_index w.
Proof.
  intros Hc Hin. unfold proxy_manager.remove_proxy.
  rewrite bind_run, (load_cached env file_path pool w Hc), Hin.
  cbn [negb]. cbv zeta. rewrite bind_run. cbn [modify]. rewrite Hc.
  rewrite bind_run. cbn [next_tick].
  destruct (write_file env _ _ _) as [e|].
  - eexists. split; [reflexivity|]. split; reflexivity.
  - eexists. split; [reflexivity|]. split; reflexivity.
Qed.

(** C7, evaluated on the code at the failing input.  [remove_proxy] takes
    an entry out of the cached pool and leaves the cursor where it is.
    After the removal of an entry from a pool of at least two entries
    whose cursor stood on the last position, the pool is not empty and
    the cursor lies beyond it: every round-robin selection raises
    [IndexError], so that consecutive selections return no entry at
    all. *)
Theorem round_robin_fails_after_removal :
  forall (env : Env) (file_path proxy : string) (pool : list string)
         (w : World),
    _proxies_cache w = Some pool ->
    str_in proxy pool = true ->
    2 <= length pool ->
    _current_proxy_index w + 1 = length pool ->
    exists w1,
      proxy_manager.remove_proxy env file_path proxy w = (Ok tt, w1)
      /\ _proxies_cache w1 = Some (proxy_manager.list_remove proxy pool)
      /\ length (proxy_manager.list_remove proxy pool) + 1 = length pool
      /\ _current_proxy_index w1 = _current_proxy_index w
      /\ proxy_manager.get_proxy env file_path "round-robin" w1
         = (Raise IndexError, w1)
      /\ forall n,
           proxy_manager.get_proxy_times env (S n) file_path "round-robin" w1
           = (Raise IndexError, w1).
Proof.
  intros env file_path proxy pool w Hc Hin Hlen Hidx.
  destruct (remove_proxy_cached env file_path proxy pool w Hc Hin)
    as [w1 [E [Hc1 Hi1]]].
  pose proof (list_remove_length proxy pool Hin) as Hl.
  assert (G : proxy_manager.get_proxy env file_path "round-robin" w1
              = (Raise IndexError, w1)).
  { apply (get_proxy_stale env file_path _ w1 Hc1).
    - intros H. rewrite H in Hl. simpl in Hl. lia.
    - rewrite Hi1. lia. }
  exists w1. split; [exact E|]. split; [exact Hc1|]. split; [exact Hl|].
  split; [exact Hi1|]. split; [exact G|].
  intros n. cbn [proxy_manager.get_proxy_times]. now rewrite bind_run, G.
Qed.

Lemma round_robin_fails_after_removal_witness :
  let path := "./config/proxies.txt" in
  let pool := ["http://p1:8080"; "http://p2:8080"; "http://p3:8080"] in
  let w := snd (proxy_manager.get_proxy_times Demo.env 2 path "round-robin"
                  Demo.world0) in
  fst (proxy_manager.get_proxy_times Demo.env 2 path "round-robin" Demo.world0)
  = Ok [Some "http://p1:8080"; Some "http://p2:8080"]
  /\ _proxies_cache w = Some pool
  /\ str_in "http://p3:8080" pool = true
  /\ 2 <= length pool
  /\ _current_proxy_index w + 1 = length pool
  /\ exists w1,
       proxy_manager.remove_proxy Demo.env path "http://p3:8080" w = (Ok tt, w1)
       /\ _proxies_cache w1
          = Some (proxy_manager.list_remove "http://p3:8080" pool)
       /\ length (proxy_manager.list_remove "http://p3:8080" pool) + 1
          = length pool
       /\ _current_proxy_index w1 = _current_proxy_index w
       /\ proxy_manager.get_proxy Demo.env path "round-robin" w1
          = (Raise IndexError, w1)
       /\ forall n,
            proxy_manager.get_proxy_times Demo.env (S n) path "round-robin" w1
            = (Raise IndexError, w1).
Proof.
  cbv zeta. split; [reflexivity|]. split; [reflexivity|].
  split; [reflexivity|]. split; [simpl; lia|]. split; [reflexivity|].
  exact (round_robin_fails_after_removal Demo.env "./config/proxies.txt"
           "http://p3:8080"
           ["http://p1:8080"; "http://p2:8080"; "http://p3:8080"]
           (snd (proxy_manager.get_proxy_times Demo.env 2
                   "./config/proxies.txt" "round-robin" Demo.world0))
           eq_refl eq_refl ltac:(simpl; lia) eq_refl).
Defined.

(** X7.  With proxies switched on but none available (the proxy file is
    missing, unreadable or holds no entry, so that the pool loads as
    empty), an attempt does not fail: it sends its request directly,
    without a proxy. *)
Theorem no_proxy_available_goes_direct :
  forall (env : Env) (url : string) (w w1 : World),
    user_agent_rotation (config w) = false ->
    use_proxies (config w) = true ->
    proxy_manager._load_proxies env (proxy_list_path (config w)) w
    = (Ok [], w1) ->
    let request := mkRequest url (session_headers w1) (timeout (config w1))
                             (verify_ssl (config w1)) None in
    RequestsEngine.fetch_attempt env url w
    = (attempt_outcome (session_get env (tick w1) request),
       with_sent (with_tick w1 (S (tick w1))) (sent w1 ++ [request])).
Proof.
  intros env url w w1 Hr Hp Hload. cbv zeta.
  rewrite (fetch_attempt_with_proxy env url w Hr Hp).
  unfold proxy_manager.get_proxy, bind at 1. rewrite Hload.
  reflexivity.
Qed.

Lemma no_proxy_available_goes_direct_witness :
  let w := with_config Demo.world0 Examples.proxied_config in
  let w1 := with_log (with_tick w 1)
              [(WARNING, MsgProxyFileNotFound "./config/proxies.txt")] in
  user_agent_rotation (config w) = false
  /\ use_proxies (config w) = true
  /\ proxy_manager._load_proxies Demo.env_flaky (proxy_list_path (config w)) w
     = (Ok [], w1)
  /\ fst (RequestsEngine.fetch_attempt Demo.env_flaky "https://x/page" w)
     = Raise (ConnectionError "reset")
  /\ map req_proxies
       (sent (snd (RequestsEngine.fetch_attempt Demo.env_flaky
                     "https://x/page" w)))
     = [None].
Proof.
  cbv zeta.
  split; [reflexivity|]. split; [reflexivity|]. split; [reflexivity|].
  rewrite (no_proxy_available_goes_direct Demo.env_flaky "https://x/page"
             (with_config Demo.world0 Examples.proxied_config)
             (with_log (with_tick (with_config Demo.world0
                                     Examples.proxied_config) 1)
                [(WARNING, MsgProxyFileNotFound "./config/proxies.txt")])
             eq_refl eq_refl eq_refl).
  split; reflexivity.
Defined.

(** ** Loading the pools *)

Lemma stripped_lines_clean ls :
  Forall (fun p => p <> EmptyString /\ strip p = p) (stripped_lines ls).
Proof.
  apply Forall_forall. intros p Hp. unfold stripped_lines in Hp.
  apply filter_In in Hp. destruct Hp as [Hin Hne].
  apply in_map_iff in Hin. destruct Hin as [s [<- _]].
  split; [now apply nonempty_true | apply strip_idem].
Qed.

(** X8.  The first successful load of the proxy file fills the cache with
    the non-blank lines of the file, each trimmed; from then on every
    load, whatever path it is given and whatever the files hold by then,
    returns that pool and touches nothing. *)
Theorem proxies_loaded_once :
  forall (env : Env) (file_path : string) (ls : list string) (w : World),
    _proxies_cache w = None ->
    read_file env (tick w) file_path = Lines ls ->
    stripped_lines ls <> [] ->
    exists w1,
      proxy_manager._load_proxies env file_path w = (Ok (stripped_lines ls), w1)
      /\ _proxies_cache w1 = Some (stripped_lines ls)
      /\ Forall (fun p => p <> EmptyString /\ strip p = p) (stripped_lines ls)
      /\ forall env' other_path,
           proxy_manager._load_proxies env' other_path w1
           = (Ok (stripped_lines ls), w1).
Proof.
  intros env file_path ls w Hc Hread Hne.
  unfold proxy_manager._load_proxies at 1, bind at 1, gets. rewrite Hc.
  unfold bind at 1, next_tick. rewrite Hread. cbv zeta.
  destruct (stripped_lines ls) as [|p ps] eqn:E; [congruence|].
  eexists. split; [reflexivity|]. split; [reflexivity|]. split.
  - rewrite <- E. apply stripped_lines_clean.
  - intros env' other_path. now apply load_cached.
Qed.

Lemma proxies_loaded_once_witness :
  _proxies_cache Demo.world0 = None
  /\ read_file Demo.env (tick Demo.world0) "./config/proxies.txt"
     = Lines ["http://p1:8080"; " http://p2:8080 "; EmptyString;
              "http://p3:8080"]
  /\ exists w1,
       proxy_manager._load_proxies Demo.env "./config/proxies.txt" Demo.world0
       = (Ok ["http://p1:8080"; "http://p2:8080"; "http://p3:8080"], w1)
       /\ forall env' other_path,
            proxy_manager._load_proxies env' other_path w1
            = (Ok ["http://p1:8080"; "http://p2:8080"; "http://p3:8080"], w1).
Proof.
  split; [reflexivity|]. split; [reflexivity|].
  destruct (proxies_loaded_once Demo.env "./config/proxies.txt"
              ["http://p1:8080"; " http://p2:8080 "; EmptyString;
               "http://p3:8080"]
              Demo.world0 eq_refl eq_refl ltac:(discriminate))
    as [w1 [H1 [_ [_ H2]]]].
  exists w1. split; [exact H1 | exact H2].
Defined.

(** X9.  A load that finds no proxy (file missing, unreadable or without
    a non-blank line) returns the empty pool, logs it, and leaves the
    cache empty, so that the next load reads the file again; the
    selection then returns no proxy, whatever the policy. *)
Theorem failed_proxy_load_not_cached :
  forall (env : Env) (file_path policy : string) (w : World),
    _proxies_cache w = None ->
    yields_nothing (read_file env (tick w) file_path) ->
    exists w1 entry,
      proxy_manager._load_proxies env file_path w = (Ok [], w1)
      /\ proxy_manager.get_proxy env file_path policy w = (Ok None, w1)
      /\ _proxies_cache w1 = None
      /\ tick w1 = S (tick w)
      /\ log w1 = log w ++ [entry]
      /\ _current_proxy_index w1 = _current_proxy_index w.
Proof.
  intros env file_path policy w Hc Hnone.
  assert (H : exists w1 entry,
             proxy_manager._load_proxies env file_path w = (Ok [], w1)
             /\ _proxies_cache w1 = None /\ tick w1 = S (tick w)
             /\ log w1 = log w ++ [entry]
             /\ _current_proxy_index w1 = _current_proxy_index w).
  { unfold proxy_manager._load_proxies, bind at 1, gets. rewrite Hc.
    unfold bind at 1, next_tick.
    destruct (read_file env (tick w) file_path) as [|e|ls]; simpl in Hnone.
    - eexists. eexists. split; [reflexivity|]. cbn.
      repeat split; auto.
    - eexists. eexists. split; [reflexivity|]. cbn.
      repeat split; auto.
    - cbv zeta. rewrite Hnone.
      eexists. eexists. split; [reflexivity|]. cbn.
      repeat split; auto. }
  destruct H as [w1 [entry [E [H1 [H2 [H3 H4]]]]]].
  exists w1, entry. split; [exact E|]. split; [|auto].
  unfold proxy_manager.get_proxy, bind. rewrite E. reflexivity.
Qed.

Lemma failed_proxy_load_not_cached_witness :
  _proxies_cache Demo.world0 = None
  /\ yields_nothing (read_file Demo.env (tick Demo.world0) "./nowhere.txt")
  /\ exists w1 entry,
       proxy_manager._load_proxies Demo.env "./nowhere.txt" Demo.world0
       = (Ok [], w1)
       /\ proxy_manager.get_proxy Demo.env "./nowhere.txt" "round-robin"
            Demo.world0 = (Ok None, w1)
       /\ _proxies_cache w1 = None
       /\ tick w1 = S (tick Demo.world0)
       /\ log w1 = log Demo.world0 ++ [entry]
       /\ _current_proxy_index w1 = _current_proxy_index Demo.world0.
Proof.
  split; [reflexivity|]. split; [exact I|].
  exact (failed_proxy_load_not_cached Demo.env "./nowhere.txt" "round-robin"
           Demo.world0 eq_refl I).
Defined.

(** X10.  Unless the cache holds an empty list (which no load ever
    stores), picking a random user agent never fails: it returns an
    entry of the cached list, or, when nothing is cached and the file
    yields no entry, one of the built-in defaults, which are not
    cached. *)
Theorem random_user_agent_from_pool :
  forall (env : Env) (file_path : string) (w : World),
    _user_agents_cache w <> Some [] ->
    exists ua w',
      user_agent_manager.get_random_user_agent env file_path w = (Ok ua, w')
      /\ _user_agents_cache w' <> Some []
      /\ match _user_agents_cache w' with
         | Some pool => In ua pool
         | None => In ua user_agent_manager.DEFAULT_USER_AGENTS
         end.
Proof.
  intros env file_path w Hc.
  unfold user_agent_manager.get_random_user_agent, bind at 1.
  unfold user_agent_manager._load_user_agents, bind at 1, gets.
  destruct (_user_agents_cache w) as [pool|] eqn:Ec.
  - assert (Hne : pool <> []) by congruence.
    destruct (random_choice_in env pool w Hne) as [ua [Hin E]].
    cbn [ret]. rewrite E. exists ua. eexists. split; [reflexivity|].
    cbn. rewrite Ec. auto.
  - unfold bind at 1, next_tick.
    assert (D : forall w0, _user_agents_cache w0 = None ->
               exists ua w',
                 random_choice env user_agent_manager.DEFAULT_USER_AGENTS w0
                 = (Ok ua, w')
                 /\ _user_agents_cache w' <> Some []
                 /\ match _user_agents_cache w' with
                    | Some pool => In ua pool
                    | None => In ua user_agent_manager.DEFAULT_USER_AGENTS
                    end).
    { intros w0 H0.
      destruct (random_choice_in env user_agent_manager.DEFAULT_USER_AGENTS w0)
        as [ua [Hin E]]; [discriminate|].
      exists ua. eexists. split; [exact E|]. cbn. rewrite H0.
      split; [discriminate | exact Hin]. }
    destruct (read_file env (tick w) file_path) as [|e|ls].
    + rewrite bind_logger. cbn [ret]. apply D. exact Ec.
    + rewrite bind_logger. cbn [ret]. apply D. exact Ec.
    + cbv zeta. destruct (stripped_lines ls) as [|p ps] eqn:El.
      * rewrite bind_logger. cbn [ret]. apply D. exact Ec.
      * unfold bind at 1. cbn [modify]. rewrite bind_logger. cbn [ret].
        destruct (random_choice_in env (p :: ps)
                    (with_log
                       (with_user_agents_cache (with_tick w (S (tick w)))
                          (Some (p :: ps)))
                       (log (with_user_agents_cache (with_tick w (S (tick w)))
                               (Some (p :: ps)))
                        ++ [(INFO, MsgLoadedUserAgents (length (p :: ps))
                                     file_path)])))
          as [ua [Hin E]]; [discriminate|].
        rewrite E. exists ua. eexists. split; [reflexivity|].
        cbn. split; [discriminate | exact Hin].
Qed.

Lemma random_user_agent_from_pool_witness :
  _user_agents_cache Demo.world0 <> Some []
  /\ exists ua w',
       user_agent_manager.get_random_user_agent Demo.env
         "./config/user_agents.txt" Demo.world0 = (Ok ua, w')
       /\ _user_agents_cache w' <> Some []
       /\ match _user_agents_cache w' with
          | Some pool => In ua pool
          | None => In ua user_agent_manager.DEFAULT_USER_AGENTS
          end.
Proof.
  assert (H : _user_agents_cache Demo.world0 <> Some []) by discriminate.
  split; [exact H|].
  exact (random_user_agent_from_pool Demo.env "./config/user_agents.txt"
           Demo.world0 H).
Defined.

(** ** The robots.txt cache: hits, misses and size *)

Lemma remove_key_length k l :
  In k l -> S (length (remove_key k l)) = length l.
Proof.
  induction l as [|x l IH]; simpl; [tauto|].
  destruct (String.eqb x k) eqn:E; [reflexivity|].
  apply String.eqb_neq in E. intros [H|H]; [contradiction|].
  simpl. now rewrite IH.
Qed.

Lemma keys_length {V} (d : dict V) : length (PyDict.keys d) = length d.
Proof. apply length_map. Qed.

Section CacheSize.
Variable env : Env.

Lemma cleanup_small w :
  length (_robots_parsers w) <= RobotsTxtChecker._robots_parsers_max_cache_size ->
  RobotsTxtChecker._cleanup_old_parsers env w = (Ok tt, w).
Proof.
  intros H. unfold RobotsTxtChecker._cleanup_old_parsers, bind at 1, gets.
  apply Nat.leb_le in H. rewrite H. reflexivity.
Qed.

(** Deleting distinct cached origins shrinks the cache by their number. *)
Lemma del_all_ok : forall ks w,
  NoDup ks -> cache_ok w ->
  (forall k, In k ks -> In k (PyDict.keys (_robots_parsers w))) ->
  exists w',
    for_each ks RobotsTxtChecker.del_entry w = (Ok tt, w')
    /\ cache_ok w'
    /\ length (_robots_parsers w') + length ks = length (_robots_parsers w).
Proof.
  induction ks as [|k ks IH]; intros w Hnd Hok Hin.
  - exists w. split; [reflexivity|]. split; [exact Hok|]. simpl. lia.
  - inversion Hnd as [|? ? Hk Hnd']; subst. cbn [for_each]. unfold bind.
    destruct (del_entry_ok k w Hok (Hin k (or_introl eq_refl)))
      as [w1 [-> [Hok1 [Hkeys1 _]]]].
    destruct (IH w1 Hnd' Hok1) as [w' [E [Hok' Hlen]]].
    + intros k' Hk'. rewrite Hkeys1. apply remove_key_keeps.
      * intros ->. contradiction.
      * apply Hin. now right.
    + exists w'. split; [exact E|]. split; [exact Hok'|].
      pose proof (remove_key_length k (PyDict.keys (_robots_parsers w))
                    (Hin k (or_introl eq_refl))) as Hr.
      rewrite <- Hkeys1, !keys_length in Hr. simpl. lia.
Qed.

(** The cleanup of a well-formed cache leaves at most a hundred entries. *)
Lemma cleanup_bound w :
  cache_ok w ->
  exists w', RobotsTxtChecker._cleanup_old_parsers env w = (Ok tt, w')
             /\ cache_ok w'
             /\ length (_robots_parsers w')
                <= RobotsTxtChecker._robots_parsers_max_cache_size.
Proof.
  intros Hok. unfold RobotsTxtChecker._cleanup_old_parsers.
  unfold bind at 1. cbn [gets].
  destruct (length (_robots_parsers w)
            <=? RobotsTxtChecker._robots_parsers_max_cache_size) eqn:Esmall.
  { exists w. split; [reflexivity|]. split; [exact Hok|].
    now apply Nat.leb_le. }
  unfold bind at 1, time, bind at 1, next_tick. cbn [ret].
  set (w0 := with_tick w (S (tick w))).
  assert (Hok0 : cache_ok w0) by exact Hok.
  unfold bind at 1.
  assert (Hin0 : forall k, In k (PyDict.keys (_robots_parsers w)) ->
                           In k (PyDict.keys (_robots_parsers w0))) by auto.
  match goal with |- context [for_each _ ?body w0] =>
    assert (Hb : forall k w', body k w' = (Ok tt, w')
                   \/ body k w' = RobotsTxtChecker.del_entry k w');
      [|destruct (del_loop_ok body Hb (PyDict.keys (_robots_parsers w)) w0
                    (proj2 Hok) Hok0 Hin0) as [w1 [E1 [Hok1 _]]]]
  end.
  { intros k w'. unfold bind, gets.
    destruct (Qltb _ _); [now right | now left]. }
  rewrite E1. unfold bind at 1. cbn [gets].
  destruct (RobotsTxtChecker._robots_parsers_max_cache_size
            <? length (_robots_parsers w1)) eqn:Ebig.
  - apply Nat.ltb_lt in Ebig.
    unfold bind at 1. cbn [gets].
    rewrite <- (for_each_map fst RobotsTxtChecker.del_entry).
    set (ks := map fst (firstn _ _)).
    assert (Hlen : length ks
                   = length (_robots_parsers w1)
                     - RobotsTxtChecker._robots_parsers_max_cache_size).
    { unfold ks. rewrite length_map, length_firstn.
      rewrite (Permutation_length (sorted_by_time_perm _)).
      destruct Hok1 as [Hk _]. apply (f_equal (@length string)) in Hk.
      rewrite !keys_length in Hk. lia. }
    assert (Hnd2 : NoDup ks).
    { unfold ks. rewrite <- firstn_map. apply firstn_NoDup.
      eapply Permutation_NoDup.
      - apply Permutation_sym, Permutation_map, sorted_by_time_perm.
      - destruct Hok1 as [Hk Hn]. unfold PyDict.keys in Hk. rewrite <- Hk.
        exact Hn. }
    assert (Hin2 : forall k, In k ks ->
                             In k (PyDict.keys (_robots_parsers w1))).
    { intros k Hk. unfold ks in Hk. rewrite <- firstn_map in Hk.
      apply firstn_incl in Hk.
      destruct Hok1 as [Hkeys _]. rewrite Hkeys.
      eapply Permutation_in; [|exact Hk].
      apply Permutation_map, sorted_by_time_perm. }
    destruct (del_all_ok ks w1 Hnd2 Hok1 Hin2) as [w2 [E2 [Hok2 Hl2]]].
    exists w2. rewrite E2. split; [reflexivity|]. split; [exact Hok2|].
    unfold RobotsTxtChecker._robots_parsers_max_cache_size in *. lia.
  - apply Nat.ltb_ge in Ebig.
    exists w1. split; [reflexivity|]. split; [exact Hok1 | exact Ebig].
Qed.
End CacheSize.

(** X11.  A lookup for an origin that is cached, in a cache of at most a
    hundred entries, is answered from the cache: it returns the cached
    parser whatever the network would answer now, leaves the cached
    parsers as they are, and only stamps the origin with the current
    time. *)
Theorem robots_cache_hit :
  forall (env : Env) (base_url : string) (w : World) (q : RobotFileParser),
    PyDict.get (_robots_parsers w) base_url = Some q ->
    length (_robots_parsers w) <= 100 ->
    exists w',
      RobotsTxtChecker._get_robots_parser env base_url w = (Ok (Some q), w')
      /\ _robots_parsers w' = _robots_parsers w
      /\ PyDict.get (_robots_parsers_last_used w') base_url
         = Some (time_time env (tick w))
      /\ tick w' = S (tick w)
      /\ log w' = log w.
Proof.
  intros env base_url w q Hq Hsmall.
  unfold RobotsTxtChecker._get_robots_parser, bind at 1.
  rewrite (cleanup_small env w Hsmall).
  unfold bind at 1. cbn [gets]. rewrite Hq.
  eexists. split; [reflexivity|]. cbn -[PyDict.get PyDict.set].
  repeat split; auto. apply get_set_same.
Qed.

Lemma robots_cache_hit_witness :
  let w := with_robots Demo.world0 [("https://x", Demo.robots_x)]
                       [("https://x", 0%Q)] in
  PyDict.get (_robots_parsers w) "https://x" = Some Demo.robots_x
  /\ length (_robots_parsers w) <= 100
  /\ exists w',
       RobotsTxtChecker._get_robots_parser Examples.env_down "https://x" w
       = (Ok (Some Demo.robots_x), w')
       /\ _robots_parsers w' = _robots_parsers w
       /\ PyDict.get (_robots_parsers_last_used w') "https://x"
          = Some (time_time Examples.env_down (tick w))
       /\ tick w' = S (tick w)
       /\ log w' = log w.
Proof.
  cbv zeta. split; [reflexivity|]. split; [simpl; lia|].
  exact (robots_cache_hit Examples.env_down "https://x"
           (with_robots Demo.world0 [("https://x", Demo.robots_x)]
                        [("https://x", 0%Q)])
           Demo.robots_x eq_refl ltac:(simpl; lia)).
Defined.

(** X12.  On a well-formed cache, a lookup for an origin that is not
    cached caches the parser when robots.txt can be read, so that later
    lookups find it; when robots.txt cannot be read nothing is cached for
    the origin, and the next lookup will try to read it again. *)
Theorem robots_cache_fill :
  forall (env : Env) (base_url : string) (w : World),
    cache_ok w ->
    PyDict.get (_robots_parsers w) base_url = None ->
    (forall p,
        (forall t, robots_read env t (base_url ++ "/robots.txt") = Ok p) ->
        exists w',
          RobotsTxtChecker._get_robots_parser env base_url w = (Ok (Some p), w')
          /\ PyDict.get (_robots_parsers w') base_url = Some p
          /\ PyDict.contains (_robots_parsers_last_used w') base_url = true
          /\ cache_ok w')
    /\ ((forall t, exists e,
            robots_read env t (base_url ++ "/robots.txt") = Raise e) ->
        exists w',
          RobotsTxtChecker._get_robots_parser env base_url w = (Ok None, w')
          /\ PyDict.get (_robots_parsers w') base_url = None
          /\ cache_ok w').
Proof.
  intros env base_url w Hok Habs.
  pose proof (get_robots_parser_cache_ok env base_url w Hok) as Hok'.
  pose proof (absent_cleanup env base_url w Habs) as Ha.
  destruct (cleanup_ok env w Hok) as [w1 [E [Hok1 _]]].
  rewrite E in Ha. cbn [snd] in Ha.
  split.
  - intros p Hread.
    assert (L : exists w',
               RobotsTxtChecker._get_robots_parser env base_url w
               = (Ok (Some p), w')
               /\ PyDict.get (_robots_parsers w') base_url = Some p
               /\ PyDict.contains (_robots_parsers_last_used w') base_url
                  = true).
    { unfold RobotsTxtChecker._get_robots_parser, bind at 1. rewrite E.
      unfold bind at 1. cbn [gets]. rewrite Ha.
      unfold bind at 1, next_tick. rewrite Hread.
      eexists. split; [reflexivity|]. split.
      - cbn -[PyDict.get PyDict.set]. apply get_set_same.
      - cbn -[PyDict.get PyDict.set PyDict.contains].
        unfold PyDict.contains. now rewrite get_set_same. }
    destruct L as [w' [L [G1 G2]]]. rewrite L in Hok'.
    exists w'. repeat split; auto; apply Hok'.
  - intros Hdown. destruct (Hdown (tick w1)) as [e He].
    assert (L : exists w',
               RobotsTxtChecker._get_robots_parser env base_url w
               = (Ok None, w')
               /\ PyDict.get (_robots_parsers w') base_url = None).
    { unfold RobotsTxtChecker._get_robots_parser, bind at 1. rewrite E.
      unfold bind at 1. cbn [gets]. rewrite Ha.
      unfold bind at 1, next_tick. rewrite He.
      eexists. split; [reflexivity | exact Ha]. }
    destruct L as [w' [L G]]. rewrite L in Hok'.
    exists w'. repeat split; auto; apply Hok'.
Qed.

Lemma robots_cache_fill_witness :
  cache_ok Demo.world0
  /\ PyDict.get (_robots_parsers Demo.world0) "https://x" = None
  /\ exists w',
       RobotsTxtChecker._get_robots_parser Demo.env "https://x" Demo.world0
       = (Ok (Some Demo.robots_x), w')
       /\ PyDict.get (_robots_parsers w') "https://x" = Some Demo.robots_x
       /\ PyDict.contains (_robots_parsers_last_used w') "https://x" = true
       /\ cache_ok w'.
Proof.
  assert (H : cache_ok Demo.world0) by (split; [reflexivity | constructor]).
  split; [exact H|]. split; [reflexivity|].
  apply (proj1 (robots_cache_fill Demo.env "https://x" Demo.world0 H eq_refl)).
  intros t. reflexivity.
Defined.

(** X13.  The robots.txt cache is bounded: from a well-formed cache
    (same origins, in the same order, in both dictionaries) a lookup
    never raises, keeps the cache well formed, and leaves at most 101
    cached parsers, the cleanup at its start having cut the cache down to
    100. *)
Theorem robots_cache_bounded :
  forall (env : Env) (base_url : string) (w : World),
    cache_ok w ->
    exists r w',
      RobotsTxtChecker._get_robots_parser env base_url w = (Ok r, w')
      /\ cache_ok w'
      /\ length (_robots_parsers w') <= 101.
Proof.
  intros env base_url w Hok.
  pose proof (get_robots_parser_cache_ok env base_url w Hok) as Hok'.
  unfold RobotsTxtChecker._get_robots_parser in *.
  unfold bind at 1 in Hok'. unfold bind at 1.
  destruct (cleanup_bound env w Hok) as [w1 [E [_ Hlen]]].
  unfold RobotsTxtChecker._robots_parsers_max_cache_size in Hlen.
  rewrite E in *.
  unfold bind at 1 in Hok'. unfold bind at 1. cbn [gets] in *.
  destruct (PyDict.get (_robots_parsers w1) base_url) as [q|] eqn:Eq.
  - eexists. eexists. split; [reflexivity|]. split; [exact Hok'|].
    cbn -[PyDict.set]. lia.
  - unfold bind at 1, next_tick in Hok'. unfold bind at 1, next_tick.
    destruct (robots_read env (tick w1) _) as [p|e].
    + eexists. eexists. split; [reflexivity|]. split; [exact Hok'|].
      cbn -[PyDict.set PyDict.keys].
      rewrite <- keys_length, keys_set.
      destruct (str_in base_url (PyDict.keys (_robots_parsers w1))).
      * rewrite keys_length. lia.
      * rewrite length_app, keys_length. simpl. lia.
    + eexists. eexists. split; [reflexivity|]. split; [exact Hok'|].
      cbn. lia.
Qed.

Lemma robots_cache_bounded_witness :
  cache_ok Demo.world0
  /\ exists r w',
       RobotsTxtChecker._get_robots_parser Demo.env "https://x" Demo.world0
       = (Ok r, w')
       /\ cache_ok w'
       /\ length (_robots_parsers w') <= 101.
Proof.
  assert (H : cache_ok Demo.world0) by (split; [reflexivity | constructor]).
  split; [exact H|].
  exact (robots_cache_bounded Demo.env "https://x" Demo.world0 H).
Defined.

(** ** What a scrape sends and how long it waits *)

Lemma same_refl {X} (f : World -> X) w : same f w w.
Proof. reflexivity. Qed.

Lemma same_trans {X} (f : World -> X) w1 w2 w3 :
  same f w1 w2 -> same f w2 w3 -> same f w1 w3.
Proof. unfold same. congruence. Qed.

Lemma same_modify {X} (f : World -> X) (g : World -> World) :
  (forall w, f (g w) = f w) -> steps (same f) (modify g).
Proof. intros H w. apply H. Qed.

Lemma same_next_tick {X} (f : World -> X) :
  (forall w t, f (with_tick w t) = f w) -> steps (same f) next_tick.
Proof. intros H w. apply H. Qed.

(** Walks through a computation that does not touch the component [f]. *)
Ltac untouched f :=
  repeat first
    [ apply (steps_ret (same f) (same_refl f))
    | apply (steps_raise (same f) (same_refl f))
    | apply (steps_gets (same f) (same_refl f))
    | apply same_next_tick; reflexivity
    | apply same_modify; reflexivity
    | apply (steps_bind (same f) (same_trans f)); [|intros ?]
    | apply (steps_try_except (same f) (same_trans f)); [|intros ?]
    | apply (steps_for_each (same f) (same_refl f) (same_trans f)); intros ?
    | match goal with
      | |- steps _ (let _ := _ in _) => cbv zeta
      | |- steps _ (if ?b then _ else _) => destruct b
      | |- steps _ (match ?x with _ => _ end) => destruct x
      end ].

Section TrafficFacts.
Variable env : Env.

Lemma can_fetch_same_sent ua url :
  steps (same sent) (RobotsTxtChecker.can_fetch env ua url).
Proof.
  unfold RobotsTxtChecker.can_fetch, RobotsTxtChecker._get_robots_parser,
    RobotsTxtChecker._cleanup_old_parsers, RobotsTxtChecker.del_entry,
    time, logger.
  untouched sent.
Qed.

Lemma can_fetch_same_sleeps ua url :
  steps (same sleeps) (RobotsTxtChecker.can_fetch env ua url).
Proof.
  unfold RobotsTxtChecker.can_fetch, RobotsTxtChecker._get_robots_parser,
    RobotsTxtChecker._cleanup_old_parsers, RobotsTxtChecker.del_entry,
    time, logger.
  untouched sleeps.
Qed.

Lemma fetch_attempt_same_sleeps url :
  steps (same sleeps) (RequestsEngine.fetch_attempt env url).
Proof.
  unfold RequestsEngine.fetch_attempt,
    user_agent_manager.get_random_user_agent,
    user_agent_manager._load_user_agents,
    proxy_manager.get_proxy, proxy_manager._load_proxies,
    random_choice, logger.
  untouched sleeps.
Qed.

(** The waits of the retry loop: two seconds after each failed attempt
    but the last. *)
Lemma retry_loop_waits {A} (fn : M A) :
  steps (same sleeps) fn ->
  forall more w, exists k,
    k <= more
    /\ sleeps (snd (RequestsEngine.retry_loop more (2 # 1) fn w))
       = sleeps w ++ repeat (2 # 1) k.
Proof.
  intros Hfn. induction more as [|more IH]; intros w;
    cbn [RequestsEngine.retry_loop]; unfold try_except;
    pose proof (Hfn w) as Hw; unfold same in Hw;
    destruct (fn w) as [[a|e] w1]; cbn [snd] in *.
  - exists 0. split; [lia|]. cbn. now rewrite app_nil_r.
  - exists 0. split; [lia|]. cbn. now rewrite app_nil_r.
  - exists 0. split; [lia|]. cbn. now rewrite app_nil_r.
  - rewrite bind_sleep.
    destruct (IH (with_sleeps w1 (sleeps w1 ++ [2 # 1]))) as [k [Hk Hs]].
    exists (S k). split; [lia|]. rewrite Hs. cbn. rewrite Hw.
    now rewrite <- app_assoc.
Qed.

Lemma engine_scrape_waits url sch w :
  exists k,
    k <= 2
    /\ sleeps (snd (RequestsEngine.scrape env url sch w))
       = sleeps w ++ repeat (2 # 1) k.
Proof.
  destruct (retry_loop_waits (RequestsEngine.fetch_attempt env url)
              (fetch_attempt_same_sleeps url) 2 w) as [k [Hk Hs]].
  exists k. split; [exact Hk|].
  unfold RequestsEngine.scrape, try_except, bind at 1.
  unfold RequestsEngine._fetch_page, RequestsEngine.retry. cbn [Nat.sub].
  destruct (RequestsEngine.retry_loop 2 (2 # 1)
              (RequestsEngine.fetch_attempt env url) w) as [[html|e] w1];
    cbn [snd] in Hs.
  - unfold bind at 1. rewrite for_each_logger. unfold RequestsEngine.lift.
    destruct (RequestsEngine._extract_data (BeautifulSoup env html) sch);
      cbn; exact Hs.
  - cbn. exact Hs.
Qed.
End TrafficFacts.

(** ** The politeness check when robots.txt is answered with an error *)

(** An [HTTPError] with the status 401 or 403, or with a status from 500
    on, leaves a parser that refuses every path. *)
Lemma robots_read_http_error env t url code :
  urlopen_robots env t url = RobotsHTTPError code ->
  (code = 401 \/ code = 403 \/ 500 <= code)%Z ->
  exists p,
    robots_read env t url = Ok p
    /\ forall ua path, rp_can_fetch p ua path = false.
Proof.
  intros H Hcode. unfold robots_read. rewrite H.
  destruct ((code =? 401) || (code =? 403))%Z eqn:E1.
  - eexists. split; reflexivity.
  - apply orb_false_iff in E1. destruct E1 as [E401 E403].
    apply Z.eqb_neq in E401. apply Z.eqb_neq in E403.
    assert (E2 : ((400 <=? code) && (code <? 500))%Z = false).
    { apply andb_false_iff. right. apply Z.ltb_ge. lia. }
    rewrite E2. eexists. split; reflexivity.
Qed.

Section ClosedFacts.
Variable env : Env.

Lemma cleanup_same_log :
  steps (same log) (RobotsTxtChecker._cleanup_old_parsers env).
Proof.
  unfold RobotsTxtChecker._cleanup_old_parsers, RobotsTxtChecker.del_entry,
    time.
  untouched log.
Qed.

(** A lookup that misses the cache and reads a parser: the parser is
    cached, one robots.txt is opened, nothing is logged. *)
Lemma get_robots_parser_miss base_url w p :
  cache_ok w ->
  PyDict.get (_robots_parsers w) base_url = None ->
  (forall t, robots_read env t (base_url ++ "/robots.txt") = Ok p) ->
  exists w',
    RobotsTxtChecker._get_robots_parser env base_url w = (Ok (Some p), w')
    /\ log w' = log w
    /\ PyDict.get (_robots_parsers w') base_url = Some p
    /\ urlopened w' = urlopened w ++ [(base_url ++ "/robots.txt")%string].
Proof.
  intros Hok Habs Hread.
  pose proof (absent_cleanup env base_url w Habs) as Ha.
  pose proof (cleanup_same_log w) as Hlog.
  assert (Hopened : steps (same urlopened)
                      (RobotsTxtChecker._cleanup_old_parsers env)).
  { unfold RobotsTxtChecker._cleanup_old_parsers, RobotsTxtChecker.del_entry,
      time. untouched urlopened. }
  specialize (Hopened w).
  destruct (cleanup_ok env w Hok) as [w1 [E _]].
  rewrite E in Ha, Hlog, Hopened. unfold same in *. cbn [snd] in *.
  unfold RobotsTxtChecker._get_robots_parser, bind at 1. rewrite E.
  unfold bind at 1. cbn [gets]. rewrite Ha.
  unfold bind at 1, next_tick. unfold bind at 1. cbn [modify].
  rewrite Hread.
  eexists. split; [reflexivity|]. split; [|split].
  - cbn. exact Hlog.
  - cbn -[PyDict.get PyDict.set]. apply get_set_same.
  - cbn. now rewrite Hopened.
Qed.
End ClosedFacts.

(** C5, evaluated on the code at the failing inputs.  When the request
    for the robots.txt of the URL's origin is answered with the status
    401 or 403, or with a status from 500 on, [RobotFileParser.read]
    absorbs the error and [can_fetch] returns false, for every path and
    every user agent; nothing is logged, and the refusing parser is
    cached for the origin.  When [urlparse] rejects the URL, its
    exception leaves [can_fetch]: the call is made before the [try]. *)
Theorem can_fetch_closed_on_http_error :
  (forall (env : Env) (user_agent url : string) (parsed_url : ParseResult)
          (code : Z) (w : World),
      urlparse env url = Ok parsed_url ->
      let base_url :=
        (scheme parsed_url ++ "://" ++ netloc parsed_url)%string in
      cache_ok w ->
      PyDict.get (_robots_parsers w) base_url = None ->
      (forall t, urlopen_robots env t (base_url ++ "/robots.txt")
                 = RobotsHTTPError code) ->
      (code = 401 \/ code = 403 \/ 500 <= code)%Z ->
      exists w' p,
        RobotsTxtChecker.can_fetch env user_agent url w = (Ok false, w')
        /\ log w' = log w
        /\ PyDict.get (_robots_parsers w') base_url = Some p
        /\ forall ua path, rp_can_fetch p ua path = false)
  /\ (forall (env : Env) (user_agent url : string) (e : exn) (w : World),
         urlparse env url = Raise e ->
         RobotsTxtChecker.can_fetch env user_agent url w = (Raise e, w)).
Proof.
  split.
  - intros env user_agent url parsed_url code w Hp base_url Hok Habs Hopen
           Hcode.
    destruct (robots_read_http_error env 0 _ code (Hopen 0) Hcode)
      as [p [Hp0 Hdeny]].
    assert (Hread : forall t, robots_read env t (base_url ++ "/robots.txt")
                              = Ok p).
    { intros t. unfold robots_read in *. rewrite (Hopen t).
      rewrite (Hopen 0) in Hp0. exact Hp0. }
    destruct (get_robots_parser_miss env base_url w p Hok Habs Hread)
      as [w' [E [Hlog [Hget _]]]].
    exists w', p. unfold RobotsTxtChecker.can_fetch. rewrite Hp.
    fold base_url. unfold try_except, bind at 1. rewrite E. cbn [ret].
    rewrite Hdeny. auto.
  - intros env user_agent url e w Hp.
    unfold RobotsTxtChecker.can_fetch. now rewrite Hp.
Qed.

Lemma can_fetch_closed_on_http_error_witness :
  (urlparse Outage.env "https://x/public" = Ok (mkParse "https" "x" "/public")
   /\ cache_ok Demo.world0
   /\ PyDict.get (_robots_parsers Demo.world0) "https://x" = None
   /\ (forall t, urlopen_robots Outage.env t "https://x/robots.txt"
                 = RobotsHTTPError 503)
   /\ exists w' p,
        RobotsTxtChecker.can_fetch Outage.env "bot" "https://x/public"
          Demo.world0 = (Ok false, w')
        /\ log w' = log Demo.world0
        /\ PyDict.get (_robots_parsers w') "https://x" = Some p
        /\ forall ua path, rp_can_fetch p ua path = false)
  /\ (urlparse Demo.env "http://[" = Raise (ValueError "Invalid IPv6 URL")
      /\ RobotsTxtChecker.can_fetch Demo.env "bot" "http://[" Demo.world0
         = (Raise (ValueError "Invalid IPv6 URL"), Demo.world0)).
Proof.
  assert (H : cache_ok Demo.world0) by (split; [reflexivity | constructor]).
  split.
  - split; [reflexivity|]. split; [exact H|]. split; [reflexivity|].
    split; [intros t; reflexivity|].
    apply (proj1 can_fetch_closed_on_http_error Outage.env "bot"
             "https://x/public" (mkParse "https" "x" "/public") 503%Z
             Demo.world0 eq_refl H eq_refl).
    + intros t. reflexivity.
    + right. right. lia.
  - split; [reflexivity|].
    exact (proj2 can_fetch_closed_on_http_error Demo.env "bot" "http://["
             (ValueError "Invalid IPv6 URL") Demo.world0 eq_refl).
Defined.

(** X14.  When [urlparse] accepts the URL and reading the robots.txt of
    its origin leaves a parser that refuses the URL's path to the
    checker's user agent, [Scraper.scrape]
    returns the empty record without sending a request and without
    waiting: the politeness delay is not applied to a URL that is not
    fetched.  The refusal is logged as a warning. *)
Theorem robots_denial_sends_nothing :
  forall (env : Env) (self : Scraper.t) (ua url : string) (sch : schema)
         (w : World) (p : RobotFileParser) (parsed_url : ParseResult),
    urlparse env url = Ok parsed_url ->
    let base_url := (scheme parsed_url ++ "://" ++ netloc parsed_url)%string in
    let url_path :=
      if nonempty (path parsed_url) then path parsed_url else "/"%string in
    Scraper.robots_checker self = Some ua ->
    cache_ok w ->
    (forall t, robots_read env t (base_url ++ "/robots.txt") = Ok p) ->
    (forall q, PyDict.get (_robots_parsers w) base_url = Some q -> q = p) ->
    rp_can_fetch p ua url_path = false ->
    exists w' l,
      Scraper.scrape env self url sch w = (Ok [], w')
      /\ sent w' = sent w
      /\ sleeps w' = sleeps w
      /\ log w' = log w ++ (INFO, MsgScrapingURL url) :: l
                        ++ [(WARNING, MsgRobotsDisallows url)].
Proof.
  intros env self ua url sch w p parsed_url Hp base_url url_path
         Hself Hok Hread Hsame Hdeny.
  set (w0 := with_log w (log w ++ [(INFO, MsgScrapingURL url)])).
  destruct (get_robots_parser_found env base_url w0 p Hok Hread Hsame)
    as [w1 E].
  assert (C : RobotsTxtChecker.can_fetch env ua url w0 = (Ok false, w1)).
  { unfold RobotsTxtChecker.can_fetch. rewrite Hp. fold base_url.
    unfold try_except, bind at 1. rewrite E. cbn [ret].
    fold url_path. now rewrite Hdeny. }
  pose proof (can_fetch_same_sent env ua url w0) as Hsent.
  pose proof (can_fetch_same_sleeps env ua url w0) as Hsleeps.
  pose proof (frame_can_fetch env ua url w0) as [_ [l [Hl _]]].
  rewrite C in Hsent, Hsleeps, Hl. unfold same in *. cbn [snd] in *.
  unfold Scraper.scrape. rewrite bind_logger. fold w0. unfold bind at 1.
  rewrite Hself, C. cbn [negb]. rewrite bind_logger. cbn [ret].
  eexists. exists l. split; [reflexivity|]. cbn [sent sleeps log with_log].
  split; [exact Hsent|]. split; [exact Hsleeps|].
  rewrite Hl. unfold w0. cbn [log with_log]. now rewrite <- !app_assoc.
Qed.

Lemma robots_denial_sends_nothing_witness :
  urlparse Demo.env "https://x/private" = Ok (mkParse "https" "x" "/private")
  /\ Scraper.robots_checker Demo.bot = Some "bot"
  /\ cache_ok Demo.world0
  /\ rp_can_fetch Demo.robots_x "bot" "/private" = false
  /\ exists w' l,
       Scraper.scrape Demo.env Demo.bot "https://x/private" Demo.scenario
         Demo.world0 = (Ok [], w')
       /\ sent w' = sent Demo.world0
       /\ sleeps w' = sleeps Demo.world0
       /\ log w' = log Demo.world0
                   ++ (INFO, MsgScrapingURL "https://x/private") :: l
                   ++ [(WARNING, MsgRobotsDisallows "https://x/private")].
Proof.
  assert (H : cache_ok Demo.world0) by (split; [reflexivity | constructor]).
  split; [reflexivity|].
  split; [reflexivity|]. split; [exact H|]. split; [reflexivity|].
  apply (robots_denial_sends_nothing Demo.env Demo.bot "bot"
           "https://x/private" Demo.scenario Demo.world0 Demo.robots_x
           (mkParse "https" "x" "/private") eq_refl eq_refl H).
  - intros t. reflexivity.
  - intros q Hq. discriminate Hq.
  - reflexivity.
Defined.

(** X15.  One call of [Scraper.scrape] waits at most once for the
    politeness delay and at most twice for a retry: either it does not
    wait at all (the URL was refused), or it waits [request_delay]
    seconds when that is positive and then two seconds after each failed
    attempt but the last, at most twice. *)
Theorem scraper_scrape_waits :
  forall (env : Env) (self : Scraper.t) (url : string) (sch : schema)
         (w : World),
    let delay := request_delay (config w) in
    let w' := snd (Scraper.scrape env self url sch w) in
    sleeps w' = sleeps w
    \/ exists k,
         k <= 2
         /\ sleeps w' = sleeps w
                        ++ (if Qltb 0 delay then [delay] else [])
                        ++ repeat (2 # 1) k.
Proof.
  intros env self url sch w. cbv zeta.
  unfold Scraper.scrape. rewrite bind_logger.
  set (w0 := with_log w (log w ++ [(INFO, MsgScrapingURL url)])).
  set (delay := request_delay (config w)).
  match goal with |- context [bind ?g ?k w0] =>
    assert (K : forall allowed w1,
               sleeps w1 = sleeps w -> config w1 = config w ->
               sleeps (snd (k allowed w1)) = sleeps w
               \/ exists n,
                    n <= 2
                    /\ sleeps (snd (k allowed w1))
                       = sleeps w ++ (if Qltb 0 delay then [delay] else [])
                         ++ repeat (2 # 1) n);
    [|assert (A : sleeps (snd (g w0)) = sleeps w
                  /\ config (snd (g w0)) = config w);
      [|rewrite bind_run; destruct (g w0) as [[allowed|e] w1];
        cbn [snd] in A; destruct A as [Hs1 Hc1];
        [apply K; assumption | left; exact Hs1]]]
  end.
  - intros allowed w1 Hs1 Hc1. destruct allowed; cbn [negb].
    + rewrite bind_run. cbn [gets]. rewrite Hc1. fold delay.
      rewrite bind_run.
      assert (E : forall w2, sleeps w2 = sleeps w
                    ++ (if Qltb 0 delay then [delay] else []) ->
                exists n,
                  n <= 2
                  /\ sleeps (snd (try_except
                         (result <- RequestsEngine.scrape env url sch ;;
                          logger INFO (MsgScraped url) ;; ret result)
                         (fun e => logger ERROR (MsgErrorScraping url e) ;;
                                   ret []) w2))
                     = sleeps w ++ (if Qltb 0 delay then [delay] else [])
                       ++ repeat (2 # 1) n).
      { intros w2 Hs2.
        destruct (engine_scrape_waits env url sch w2) as [n [Hn Hs]].
        exists n. split; [exact Hn|].
        unfold try_except. rewrite bind_run.
        destruct (RequestsEngine.scrape env url sch w2) as [[result|e] w3];
          cbn [snd] in Hs; cbn; rewrite Hs, Hs2; now rewrite <- app_assoc. }
      destruct (Qltb 0 delay) eqn:Ed.
      * rewrite bind_logger. unfold sleep.
        destruct (Qle_bool sleep_limit delay).
        -- left. cbn. exact Hs1.
        -- right. cbn [modify]. apply E. cbn. now rewrite Hs1.
      * right. cbn [ret]. apply E. now rewrite Hs1, app_nil_r.
    + left. cbn. exact Hs1.
  - destruct (Scraper.robots_checker self) as [ua|].
    + split; [apply (can_fetch_same_sleeps env ua url w0)
             | apply (frame_can_fetch env ua url w0)].
    + split; reflexivity.
Qed.

Section SendFacts.
Variable env : Env.
Variable P : Request -> Prop.

Lemma sends_untouched {A} (m : M A) : steps (same sent) m -> sends P 0 m.
Proof.
  intros H w. exists []. rewrite app_nil_r. split; [apply H|].
  split; [reflexivity | constructor].
Qed.

Lemma sends_bind {A B} n1 n2 (m : M A) (f : A -> M B) :
  sends P n1 m -> (forall a, sends P n2 (f a)) -> sends P (n1 + n2) (bind m f).
Proof.
  intros Hm Hf w. rewrite bind_run. destruct (Hm w) as [l1 [E1 [L1 F1]]].
  destruct (m w) as [[a|e] w1]; cbn [snd] in *.
  - destruct (Hf a w1) as [l2 [E2 [L2 F2]]]. exists (l1 ++ l2).
    rewrite E2, E1, <- app_assoc, length_app.
    split; [reflexivity|]. split; [lia | now apply Forall_app].
  - exists l1. split; [exact E1|]. split; [lia | exact F1].
Qed.

Lemma sends_try_except {A} n1 n2 (body : M A) (handler : exn -> M A) :
  sends P n1 body -> (forall e, sends P n2 (handler e)) ->
  sends P (n1 + n2) (try_except body handler).
Proof.
  intros Hb Hh w. unfold try_except. destruct (Hb w) as [l1 [E1 [L1 F1]]].
  destruct (body w) as [[a|e] w1]; cbn [snd] in *.
  - exists l1. split; [exact E1|]. split; [lia | exact F1].
  - destruct (Hh e w1) as [l2 [E2 [L2 F2]]]. exists (l1 ++ l2).
    rewrite E2, E1, <- app_assoc, length_app.
    split; [reflexivity|]. split; [lia | now apply Forall_app].
Qed.

Lemma sends_more {A} n n' (m : M A) : n <= n' -> sends P n m -> sends P n' m.
Proof.
  intros Hn H w. destruct (H w) as [l [E [L F]]]. exists l.
  split; [exact E|]. split; [lia | exact F].
Qed.

Lemma sends_retry_loop {A} (wait : Q) (fn : M A) :
  sends P 1 fn ->
  forall more, sends P (S more) (RequestsEngine.retry_loop more wait fn).
Proof.
  intros Hfn. induction more as [|more IH]; cbn [RequestsEngine.retry_loop].
  - apply (sends_try_except 1 0); [exact Hfn|]. intros e.
    apply sends_untouched. untouched sent.
  - apply (sends_try_except 1 (S more)); [exact Hfn|]. intros e.
    apply (sends_bind 0 (S more)); [|intros _; exact IH].
    apply sends_untouched. unfold sleep. untouched sent.
Qed.
End SendFacts.

Section TrafficBound.
Variable env : Env.

Lemma attempt_prefix_same_sent url :
  steps (same sent)
    (user_agent_manager.get_random_user_agent env url)
  /\ forall file_path policy,
       steps (same sent) (proxy_manager.get_proxy env file_path policy).
Proof.
  split; [|intros file_path policy];
    unfold user_agent_manager.get_random_user_agent,
      user_agent_manager._load_user_agents,
      proxy_manager.get_proxy, proxy_manager._load_proxies,
      random_choice, logger;
    untouched sent.
Qed.

(** An attempt sends at most one request, to its URL. *)
Lemma fetch_attempt_sends url :
  sends (fun r => req_url r = url) 1 (RequestsEngine.fetch_attempt env url).
Proof.
  unfold RequestsEngine.fetch_attempt.
  apply (sends_bind _ 0 1); [apply sends_untouched; untouched sent|].
  intros rotation.
  apply (sends_bind _ 0 1).
  { apply sends_untouched. destruct rotation; [|untouched sent].
    apply (steps_bind _ (same_trans sent)); [untouched sent|]. intros path.
    apply (steps_bind _ (same_trans sent));
      [apply (proj1 (attempt_prefix_same_sent path)) | intros ua].
    untouched sent. }
  intros _.
  apply (sends_bind _ 0 1); [apply sends_untouched; untouched sent|].
  intros use.
  apply (sends_bind _ 0 1).
  { apply sends_untouched. destruct use; [|untouched sent].
    apply (steps_bind _ (same_trans sent)); [untouched sent|]. intros cfg.
    apply (steps_bind _ (same_trans sent));
      [apply (proj2 (attempt_prefix_same_sent EmptyString)) | intros proxy].
    untouched sent. }
  intros proxies.
  apply (sends_bind _ 0 1); [apply sends_untouched; untouched sent|].
  intros cfg.
  apply (sends_bind _ 0 1); [apply sends_untouched; untouched sent|].
  intros hs. cbv zeta.
  apply (sends_bind _ 0 1); [apply sends_untouched; untouched sent|].
  intros t.
  apply (sends_bind _ 1 0).
  - intros w. eexists. split; [reflexivity|].
    split; [simpl; lia | repeat constructor].
  - intros _. apply sends_untouched.
    destruct (session_get env t _) as [sc text|e]; untouched sent.
Qed.

Lemma engine_scrape_sends url sch :
  sends (fun r => req_url r = url) 3 (RequestsEngine.scrape env url sch).
Proof.
  unfold RequestsEngine.scrape.
  apply (sends_try_except _ 3 0).
  - apply (sends_bind _ 3 0).
    + apply sends_retry_loop. apply fetch_attempt_sends.
    + intros html. apply sends_untouched. unfold logger.
      apply (steps_bind _ (same_trans sent)); [untouched sent | intros _].
      intros w. reflexivity.
  - intros e. apply sends_untouched. unfold logger. untouched sent.
Qed.

Lemma scraper_scrape_sends self url sch :
  sends (fun r => req_url r = url) 3 (Scraper.scrape env self url sch).
Proof.
  unfold Scraper.scrape.
  apply (sends_bind _ 0 3);
    [apply sends_untouched; unfold logger; untouched sent | intros _].
  apply (sends_bind _ 0 3).
  { apply sends_untouched. destruct (Scraper.robots_checker self);
      [apply can_fetch_same_sent | untouched sent]. }
  intros allowed. destruct (negb allowed).
  { apply (sends_more _ 0 3); [lia|]. apply sends_untouched.
    unfold logger. untouched sent. }
  apply (sends_bind _ 0 3); [apply sends_untouched; untouched sent|].
  intros delay.
  apply (sends_bind _ 0 3).
  { apply sends_untouched. unfold logger, sleep. untouched sent. }
  intros _. apply (sends_try_except _ 3 0).
  - apply (sends_bind _ 3 0); [apply engine_scrape_sends|].
    intros result. apply sends_untouched. unfold logger. untouched sent.
  - intros e. apply sends_untouched. unfold logger. untouched sent.
Qed.

Lemma scrape_loop_sends self sch all : forall urls acc,
  incl urls all ->
  sends (fun r => In (req_url r) all) (3 * length urls)
        (Scraper.scrape_loop env self urls sch acc).
Proof.
  induction urls as [|url urls IH]; intros acc Hincl;
    cbn [Scraper.scrape_loop].
  - apply sends_untouched. untouched sent.
  - apply (sends_more _ (3 + 3 * length urls));
      [change (length (url :: urls)) with (S (length urls)); lia|].
    apply sends_bind.
    + intros w. destruct (scraper_scrape_sends self url sch w)
        as [l [E [L F]]].
      exists l. split; [exact E|]. split; [exact L|].
      eapply Forall_impl; [|exact F]. intros r ->. apply Hincl. now left.
    + intros result.
      assert (Hrest : incl urls all) by (intros x Hx; apply Hincl; now right).
      destruct (PyDict.truthy result); now apply IH.
Qed.
End TrafficBound.

Section OpenFacts.
Variable env : Env.
Variable P : string -> Prop.

Lemma opens_untouched {A} (m : M A) : steps (same urlopened) m -> opens P 0 m.
Proof.
  intros H w. exists []. rewrite app_nil_r. split; [apply H|].
  split; [reflexivity | constructor].
Qed.

Lemma opens_bind {A B} n1 n2 (m : M A) (f : A -> M B) :
  opens P n1 m -> (forall a, opens P n2 (f a)) -> opens P (n1 + n2) (bind m f).
Proof.
  intros Hm Hf w. rewrite bind_run. destruct (Hm w) as [l1 [E1 [L1 F1]]].
  destruct (m w) as [[a|e] w1]; cbn [snd] in *.
  - destruct (Hf a w1) as [l2 [E2 [L2 F2]]]. exists (l1 ++ l2).
    rewrite E2, E1, <- app_assoc, length_app.
    split; [reflexivity|]. split; [lia | now apply Forall_app].
  - exists l1. split; [exact E1|]. split; [lia | exact F1].
Qed.

Lemma opens_try_except {A} n1 n2 (body : M A) (handler : exn -> M A) :
  opens P n1 body -> (forall e, opens P n2 (handler e)) ->
  opens P (n1 + n2) (try_except body handler).
Proof.
  intros Hb Hh w. unfold try_except. destruct (Hb w) as [l1 [E1 [L1 F1]]].
  destruct (body w) as [[a|e] w1]; cbn [snd] in *.
  - exists l1. split; [exact E1|]. split; [lia | exact F1].
  - destruct (Hh e w1) as [l2 [E2 [L2 F2]]]. exists (l1 ++ l2).
    rewrite E2, E1, <- app_assoc, length_app.
    split; [reflexivity|]. split; [lia | now apply Forall_app].
Qed.

Lemma opens_more {A} n n' (m : M A) : n <= n' -> opens P n m -> opens P n' m.
Proof.
  intros Hn H w. destruct (H w) as [l [E [L F]]]. exists l.
  split; [exact E|]. split; [lia | exact F].
Qed.
End OpenFacts.

Section RobotsTraffic.
Variable env : Env.

(** A lookup opens at most one URL, the robots.txt of its origin. *)
Lemma get_robots_parser_opens base_url :
  opens (fun u => u = (base_url ++ "/robots.txt")%string) 1
        (RobotsTxtChecker._get_robots_parser env base_url).
Proof.
  unfold RobotsTxtChecker._get_robots_parser.
  apply (opens_bind _ 0 1).
  { apply opens_untouched.
    unfold RobotsTxtChecker._cleanup_old_parsers, RobotsTxtChecker.del_entry,
      time. untouched urlopened. }
  intros _. apply (opens_bind _ 0 1); [apply opens_untouched; untouched urlopened|].
  intros ps. destruct (PyDict.get ps base_url) as [parser|].
  - apply (opens_more _ 0 1); [lia|]. apply opens_untouched.
    unfold time. untouched urlopened.
  - apply (opens_bind _ 0 1); [apply opens_untouched; untouched urlopened|].
    intros t. apply (opens_bind _ 1 0).
    + intros w. eexists. split; [reflexivity|].
      split; [simpl; lia | repeat constructor].
    + intros _. apply opens_untouched.
      destruct (robots_read env t _) as [parser|e];
        unfold time, logger; untouched urlopened.
Qed.

Lemma can_fetch_opens ua url :
  opens (robots_url_of env url) 1 (RobotsTxtChecker.can_fetch env ua url).
Proof.
  unfold RobotsTxtChecker.can_fetch.
  destruct (urlparse env url) as [parsed|e] eqn:Ep.
  - cbv zeta. apply (opens_try_except _ 1 0).
    + apply (opens_bind _ 1 0).
      * intros w.
        destruct (get_robots_parser_opens
                    (scheme parsed ++ "://" ++ netloc parsed)%string w)
          as [l [E [L F]]].
        exists l. split; [exact E|]. split; [exact L|].
        eapply Forall_impl; [|exact F]. intros u ->. exists parsed. auto.
      * intros parser. apply opens_untouched.
        destruct parser; untouched urlopened.
    + intros e. apply opens_untouched. unfold logger. untouched urlopened.
  - apply (opens_more _ 0 1); [lia|]. apply opens_untouched.
    untouched urlopened.
Qed.

Lemma fetch_attempt_same_opened url :
  steps (same urlopened) (RequestsEngine.fetch_attempt env url).
Proof.
  unfold RequestsEngine.fetch_attempt,
    user_agent_manager.get_random_user_agent,
    user_agent_manager._load_user_agents,
    proxy_manager.get_proxy, proxy_manager._load_proxies,
    random_choice, logger.
  untouched urlopened.
Qed.

Lemma engine_scrape_same_opened url sch :
  steps (same urlopened) (RequestsEngine.scrape env url sch).
Proof.
  unfold RequestsEngine.scrape, RequestsEngine._fetch_page,
    RequestsEngine.retry.
  apply (steps_try_except _ (same_trans urlopened)).
  - apply (steps_bind _ (same_trans urlopened)).
    + apply (steps_retry_loop _ (same_trans urlopened));
        [apply fetch_attempt_same_opened | unfold sleep; untouched urlopened].
    + intros html. cbv zeta.
      apply (steps_bind _ (same_trans urlopened)).
      * unfold logger. untouched urlopened.
      * intros _ w. reflexivity.
  - intros e. unfold logger. untouched urlopened.
Qed.

(** A scrape opens at most one robots.txt, that of the URL's origin. *)
Lemma scraper_scrape_opens self url sch :
  opens (robots_url_of env url) 1 (Scraper.scrape env self url sch).
Proof.
  unfold Scraper.scrape.
  apply (opens_bind _ 0 1);
    [apply opens_untouched; unfold logger; untouched urlopened | intros _].
  apply (opens_bind _ 1 0).
  { destruct (Scraper.robots_checker self) as [ua|].
    - apply can_fetch_opens.
    - apply (opens_more _ 0 1); [lia|]. apply opens_untouched.
      untouched urlopened. }
  intros allowed. apply opens_untouched. destruct (negb allowed).
  { unfold logger. untouched urlopened. }
  apply (steps_bind _ (same_trans urlopened)); [untouched urlopened|].
  intros delay.
  apply (steps_bind _ (same_trans urlopened)).
  { unfold logger, sleep. untouched urlopened. }
  intros _. apply (steps_try_except _ (same_trans urlopened)).
  - apply (steps_bind _ (same_trans urlopened));
      [apply engine_scrape_same_opened|].
    intros result. unfold logger. untouched urlopened.
  - intros e. unfold logger. untouched urlopened.
Qed.

Lemma scrape_loop_opens self sch all : forall urls acc,
  incl urls all ->
  opens (fun u => exists url, In url all /\ robots_url_of env url u)
        (length urls) (Scraper.scrape_loop env self urls sch acc).
Proof.
  induction urls as [|url urls IH]; intros acc Hincl;
    cbn [Scraper.scrape_loop].
  - apply opens_untouched. untouched urlopened.
  - change (length (url :: urls)) with (1 + length urls).
    apply opens_bind.
    + intros w. destruct (scraper_scrape_opens self url sch w)
        as [l [E [L F]]].
      exists l. split; [exact E|]. split; [exact L|].
      eapply Forall_impl; [|exact F]. intros u Hu. exists url.
      split; [apply Hincl; now left | exact Hu].
    + intros result.
      assert (Hrest : incl urls all) by (intros x Hx; apply Hincl; now right).
      destruct (PyDict.truthy result); now apply IH.
Qed.
End RobotsTraffic.


Section OrderFacts.
Variable env : Env.
Variable self : Scraper.t.
Variable sch : schema.

Lemma scrape_loop_order urls : forall w rs w',
  Scraper.scrape_loop env self urls sch [] w = (Ok rs, w') ->
  exists us,
    subseq us urls
    /\ map (fun r => PyDict.get r "url") rs = map (fun u => Some (VStr u)) us.
Proof.
  induction urls as [|url urls IH]; intros w rs w' H.
  - cbn in H. inversion H; subst. exists []. split; [constructor | reflexivity].
  - rewrite scrape_loop_cons in H.
    destruct (Scraper.scrape env self url sch w) as [[result|e] w1];
      [|discriminate].
    destruct (PyDict.truthy result).
    + rewrite scrape_loop_acc in H.
      destruct (Scraper.scrape_loop env self urls sch [] w1)
        as [[rs2|e] w2] eqn:E; [|discriminate].
      inversion H; subst rs w'; clear H.
      destruct (IH w1 rs2 w2 E) as [us [Hsub Hmap]].
      exists (url :: us). split; [now constructor|].
      cbn [app map]. rewrite get_set_same, Hmap. reflexivity.
    + destruct (IH w1 rs w' H) as [us [Hsub Hmap]].
      exists us. split; [now constructor | exact Hmap].
Qed.

Lemma subseq_length {A} (l1 l2 : list A) :
  subseq l1 l2 -> length l1 <= length l2.
Proof. induction 1; simpl; lia. Qed.
End OrderFacts.

(** X17.  The records of a multi-URL job come in the order of the URLs:
    their ["url"] values are the URLs of the list with some left out, so
    there is at most one record per position of the list and never more
    records than URLs. *)
Theorem scrape_multiple_keeps_order :
  forall (env : Env) (self : Scraper.t) (urls : list string) (sch : schema)
         (w w' : World) (results : list record),
    Scraper.scrape_multiple env self urls sch w = (Ok results, w') ->
    (exists us,
        subseq us urls
        /\ map (fun r => PyDict.get r "url") results
           = map (fun u => Some (VStr u)) us)
    /\ length results <= length urls.
Proof.
  intros env self urls sch w w' results H.
  rewrite scrape_multiple_unfold in H.
  destruct (Scraper.scrape_loop env self urls sch [] _) as [[rs|e] w1] eqn:E;
    [|discriminate].
  inversion H; subst results w'; clear H.
  destruct (scrape_loop_order env self sch urls _ _ _ E) as [us [Hsub Hmap]].
  split; [exists us; auto|].
  apply subseq_length in Hsub.
  apply (f_equal (@length (option value))) in Hmap.
  rewrite !length_map in Hmap.
  apply Nat.le_trans with (length us); [|exact Hsub].
  apply Nat.eq_le_incl. exact Hmap.
Qed.

Lemma scrape_multiple_keeps_order_witness :
  let urls := ["https://x/one"; "https://x/broken"; "https://x/three"] in
  exists results w',
    Scraper.scrape_multiple Demo.env Demo.bot urls Demo.scenario Demo.world0
    = (Ok results, w')
    /\ (exists us,
           subseq us urls
           /\ map (fun r => PyDict.get r "url") results
              = map (fun u => Some (VStr u)) us)
    /\ length results <= length urls.
Proof.
  cbv zeta.
  destruct (Scraper.scrape_multiple Demo.env Demo.bot
              ["https://x/one"; "https://x/broken"; "https://x/three"]
              Demo.scenario Demo.world0) as [[results|e] w'] eqn:E.
  - exists results, w'. split; [reflexivity|].
    exact (scrape_multiple_keeps_order Demo.env Demo.bot _ Demo.scenario
             Demo.world0 w' results E).
  - vm_compute in E. discriminate E.
Defined.

(** X18.  Constructing a scraper for an engine that is not registered
    raises [ValueError]; by then the [engine] field of the configuration
    object has already been overwritten with the requested name, while
    the session headers are untouched. *)
Theorem init_unknown_engine :
  forall (_engines : list string) (engine_arg : string) (w : World),
    nonempty engine_arg = true ->
    str_in engine_arg _engines = false ->
    exists msg w',
      Scraper.init _engines engine_arg w = (Raise (ValueError msg), w')
      /\ engine (config w') = engine_arg
      /\ session_headers w' = session_headers w.
Proof.
  intros _engines engine_arg w Hne Hunk. unfold Scraper.init.
  rewrite bind_run. cbn [gets]. rewrite Hne. cbn [andb].
  destruct (String.eqb engine_arg (engine (config w))) eqn:E.
  - apply String.eqb_eq in E. cbn [negb]. rewrite bind_run. cbn [ret].
    rewrite bind_run. cbn [gets]. rewrite <- E, Hunk.
    eexists. eexists. split; [reflexivity|]. split; [now rewrite <- E | reflexivity].
  - cbn [negb]. rewrite bind_run. cbn [modify]. rewrite bind_run. cbn [gets].
    cbn [config with_config set_engine engine]. rewrite Hunk.
    eexists. eexists. split; [reflexivity|]. split; reflexivity.
Qed.

Lemma init_unknown_engine_witness :
  nonempty "lynx" = true
  /\ str_in "lynx" ["requests"; "selenium"] = false
  /\ exists msg w',
       Scraper.init ["requests"; "selenium"] "lynx" Demo.world0
       = (Raise (ValueError msg), w')
       /\ engine (config w') = "lynx"
       /\ session_headers w' = session_headers Demo.world0.
Proof.
  split; [reflexivity|]. split; [reflexivity|].
  exact (init_unknown_engine ["requests"; "selenium"] "lynx" Demo.world0
           eq_refl eq_refl).
Defined.

(** X19.  The CSV file is rectangular: for records with distinct keys the
    export never fails, an empty list gives an empty file without header,
    and otherwise the file has one row more than there are records (the
    header comes first), every row as long as the header. *)
Theorem csv_export_rectangular :
  forall (py_str : value -> string) (data : list record),
    Forall (fun r => NoDup (PyDict.keys r)) data ->
    exists rows,
      CSVExporter.export py_str (CSVExporter.Records data) = Ok rows
      /\ (data = [] -> rows = [])
      /\ (data <> [] -> length rows = S (length data))
      /\ Forall (fun row => length row = length (hd [] rows)) rows.
Proof.
  intros py_str data Hnd. destruct data as [|first rest].
  - exists []. repeat split; auto. congruence.
  - unfold CSVExporter.export.
    rewrite fieldnames_key_union by (now inversion Hnd).
    rewrite write_rows_ok; auto.
    + eexists. split; [reflexivity|]. split; [discriminate|]. split.
      * intros _. cbn [app length]. now rewrite length_map.
      * cbn [app hd]. constructor; [reflexivity|].
        apply Forall_forall. intros row Hrow. apply in_map_iff in Hrow.
        destruct Hrow as [item [<- _]]. unfold Spec.row_cells.
        apply length_map.
    + intros r k Hr Hk. apply key_union_In. eauto.
Qed.

Lemma csv_export_rectangular_witness :
  let data := [ [("a", VStr "1"); ("b", VList [VStr "x"])];
                [("c", VNone); ("a", VStr "2")] ] in
  Forall (fun r => NoDup (PyDict.keys r)) data
  /\ exists rows,
       CSVExporter.export Demo.py_str (CSVExporter.Records data) = Ok rows
       /\ (data = [] -> rows = [])
       /\ (data <> [] -> length rows = S (length data))
       /\ Forall (fun row => length row = length (hd [] rows)) rows.
Proof.
  cbv zeta.
  assert (H : Forall (fun r : record => NoDup (PyDict.keys r))
                [ [("a", VStr "1"); ("b", VList [VStr "x"])];
                  [("c", VNone); ("a", VStr "2")] ]).
  { repeat constructor; simpl; intuition discriminate. }
  split; [exact H|].
  exact (csv_export_rectangular Demo.py_str _ H).
Defined.

(** ** The robots.txt cache: which entries the cleanup evicts *)

Lemma remove_key_gone k l : NoDup l -> ~ In k (remove_key k l).
Proof.
  induction 1 as [|y l Hy Hnd IH]; simpl; [tauto|].
  destruct (String.eqb y k) eqn:E.
  - apply String.eqb_eq in E. now subst.
  - apply String.eqb_neq in E. simpl. intros [H|H]; [contradiction | auto].
Qed.

Lemma remove_key_only k l x : In x l -> ~ In x (remove_key k l) -> x = k.
Proof.
  intros Hin Hout. destruct (string_dec x k) as [|Hne]; auto.
  exfalso. apply Hout. now apply remove_key_keeps.
Qed.

Lemma in_keys_get {V} (d : dict V) k :
  In k (PyDict.keys d) -> exists v, PyDict.get d k = Some v.
Proof.
  intros H. destruct (PyDict.get d k) eqn:E; eauto.
  apply get_none_not_in in E. contradiction.
Qed.

Lemma get_in_keys {V} (d : dict V) k v :
  PyDict.get d k = Some v -> In k (PyDict.keys d).
Proof.
  intros H. apply get_some_in in H. change k with (fst (k, v)).
  now apply in_map.
Qed.

Lemma in_get {V} (d : dict V) k v :
  NoDup (PyDict.keys d) -> In (k, v) d -> PyDict.get d k = Some v.
Proof.
  induction d as [|[k0 v0] d IH]; simpl; intros Hnd H; [tauto|].
  inversion Hnd as [|? ? Hk0 Hnd']; subst. destruct H as [H|H].
  - inversion H; subst. now rewrite String.eqb_refl.
  - destruct (String.eqb k0 k) eqn:E; auto.
    apply String.eqb_eq in E. subst. exfalso. apply Hk0.
    change k with (fst (k, v)). now apply in_map.
Qed.

Lemma distinct_NoDup l : distinct l = true -> NoDup l.
Proof.
  induction l as [|x l IH]; simpl; intros H; constructor;
    apply andb_true_iff in H; destruct H as [Hx Hl]; auto.
  intros Hin. apply str_in_In in Hin. rewrite Hin in Hx. discriminate.
Qed.

(** The sort puts the entries in the order of their time stamps. *)
Lemma insert_by_time_sorted x l :
  StronglySorted (fun a b : string * Q => (snd a <= snd b)%Q) l ->
  StronglySorted (fun a b : string * Q => (snd a <= snd b)%Q)
                 (RobotsTxtChecker.insert_by_time x l).
Proof.
  induction 1 as [|y l Hs IH Hy]; simpl.
  - constructor; constructor.
  - destruct (Qle_bool (snd x) (snd y)) eqn:E.
    + apply Qle_bool_iff in E. constructor.
      * constructor; assumption.
      * constructor; [exact E|]. eapply Forall_impl; [|exact Hy].
        intros z Hz. cbv beta in *. eapply Qle_trans; eauto.
    + assert (Hyx : (snd y <= snd x)%Q).
      { apply Qlt_le_weak, Qnot_le_lt. intros H.
        apply Qle_bool_iff in H. congruence. }
      constructor; [exact IH|].
      eapply Permutation_Forall.
      * apply Permutation_sym, insert_by_time_perm.
      * constructor; assumption.
Qed.

Lemma sorted_by_time_sorted l :
  StronglySorted (fun a b : string * Q => (snd a <= snd b)%Q)
                 (RobotsTxtChecker.sorted_by_time l).
Proof.
  induction l as [|x l IH]; simpl; [constructor|].
  now apply insert_by_time_sorted.
Qed.

Lemma skipn_incl {A} (n : nat) (l : list A) : incl (skipn n l) l.
Proof.
  intros x H. rewrite <- (firstn_skipn n l). apply in_or_app. now right.
Qed.

Lemma sorted_firstn_skipn {A} (R : A -> A -> Prop) (l : list A) :
  StronglySorted R l ->
  forall n a b, In a (firstn n l) -> In b (skipn n l) -> R a b.
Proof.
  induction 1 as [|x l Hs IH Hx]; intros [|n] a b Ha Hb; simpl in *;
    try contradiction.
  destruct Ha as [<-|Ha].
  - apply skipn_incl in Hb. rewrite Forall_forall in Hx. auto.
  - eapply IH; eauto.
Qed.

Lemma fresh_after_stale (now ttl tk te : Q) :
  Qltb ttl (now - tk) = false -> Qltb ttl (now - te) = true ->
  (te <= tk)%Q.
Proof.
  unfold Qltb. intros Hk He.
  apply negb_false_iff, Qle_bool_iff in Hk.
  apply negb_true_iff in He.
  assert (H : ~ (now - te <= ttl)%Q).
  { intros H. apply Qle_bool_iff in H. congruence. }
  apply Qnot_le_lt in H. lra.
Qed.

Section Eviction.
Variable env : Env.

Lemma within_keys w w' k :
  cache_ok w -> cache_ok w' -> times_within w w' ->
  In k (PyDict.keys (_robots_parsers w')) ->
  In k (PyDict.keys (_robots_parsers w)).
Proof.
  intros [Hk _] [Hk' _] Hin H. rewrite Hk' in H.
  apply in_keys_get in H as [t Ht]. rewrite Hk.
  eapply get_in_keys. apply Hin. exact Ht.
Qed.

Lemma stale_within now w w' k :
  cache_ok w' -> times_within w w' ->
  In k (PyDict.keys (_robots_parsers w')) ->
  is_stale now (_robots_parsers_last_used w') k
  = is_stale now (_robots_parsers_last_used w) k.
Proof.
  intros [Hk' _] Hin H. rewrite Hk' in H.
  apply in_keys_get in H as [t Ht]. unfold is_stale.
  now rewrite Ht, (Hin _ _ Ht).
Qed.

Lemma times_within_trans w1 w2 w3 :
  times_within w1 w2 -> times_within w2 w3 -> times_within w1 w3.
Proof. unfold times_within. auto. Qed.

Lemma del_entry_times k w :
  cache_ok w -> In k (PyDict.keys (_robots_parsers w)) ->
  exists w',
    RobotsTxtChecker.del_entry k w = (Ok tt, w')
    /\ cache_ok w'
    /\ PyDict.keys (_robots_parsers w')
       = remove_key k (PyDict.keys (_robots_parsers w))
    /\ times_within w w'.
Proof.
  intros [Hkeys Hnd] Hin. rewrite del_entry_eq.
  destruct (del_some _ k Hin) as [ps' Eps]. rewrite Eps.
  pose proof Hin as Hin'. rewrite Hkeys in Hin'.
  destruct (del_some _ k Hin') as [lu' Elu].
  rewrite Elu. eexists. split; [reflexivity|].
  unfold cache_ok, times_within.
  cbn [_robots_parsers _robots_parsers_last_used with_robots].
  rewrite (del_keys _ _ _ Eps). split; [|split; [reflexivity|]].
  - split.
    + rewrite (del_keys _ _ _ Elu). now rewrite Hkeys.
    + now apply remove_key_NoDup.
  - intros k' v Hg. eapply del_get_some; eauto. rewrite <- Hkeys. exact Hnd.
Qed.

(** The first loop of the cleanup deletes exactly the stale origins. *)
Lemma stale_loop (body : string -> M unit) (now : Q) :
  (forall k w,
      body k w
      = if is_stale now (_robots_parsers_last_used w) k
        then RobotsTxtChecker.del_entry k w else (Ok tt, w)) ->
  forall ks w,
    NoDup ks -> cache_ok w ->
    (forall k, In k ks -> In k (PyDict.keys (_robots_parsers w))) ->
    exists w',
      for_each ks body w = (Ok tt, w')
      /\ cache_ok w'
      /\ times_within w w'
      /\ (forall k, In k (PyDict.keys (_robots_parsers w)) ->
                    ~ In k (PyDict.keys (_robots_parsers w')) ->
                    is_stale now (_robots_parsers_last_used w) k = true)
      /\ (forall k, In k ks ->
                    In k (PyDict.keys (_robots_parsers w')) ->
                    is_stale now (_robots_parsers_last_used w) k = false).
Proof.
  intros Hbody. induction ks as [|k ks IH]; intros w Hnd Hok Hin.
  - exists w. split; [reflexivity|]. split; [exact Hok|].
    split; [intros ? ? H; exact H|]. split; [intros; contradiction|].
    intros ? [].
  - inversion Hnd as [|? ? Hk Hnd']; subst. cbn [for_each]. rewrite bind_run.
    rewrite Hbody.
    destruct (is_stale now (_robots_parsers_last_used w) k) eqn:Est.
    + destruct (del_entry_times k w Hok (Hin k (or_introl eq_refl)))
        as [w1 [-> [Hok1 [Hkeys1 Htw1]]]].
      destruct (IH w1 Hnd' Hok1) as [w' [E [Hok' [Htw' [Hgone Hkept]]]]].
      { intros k' Hk'. rewrite Hkeys1. apply remove_key_keeps.
        - intros ->. contradiction.
        - apply Hin. now right. }
      exists w'. split; [exact E|]. split; [exact Hok'|].
      split; [eapply times_within_trans; eauto|]. split.
      * intros k' Hin' Hout'.
        destruct (in_dec string_dec k' (PyDict.keys (_robots_parsers w1)))
          as [H1|H1].
        -- rewrite <- (stale_within now w w1 k' Hok1 Htw1 H1). auto.
        -- rewrite Hkeys1 in H1.
           now rewrite (remove_key_only _ _ _ Hin' H1).
      * intros k' [<-|Hk'] Hin'.
        -- exfalso. apply (within_keys w1 w' k Hok1 Hok' Htw') in Hin'.
           rewrite Hkeys1 in Hin'.
           exact (remove_key_gone _ _ (proj2 Hok) Hin').
        -- rewrite <- (stale_within now w w1 k' Hok1 Htw1); auto.
           eapply within_keys; eauto.
    + destruct (IH w Hnd' Hok) as [w' [E [Hok' [Htw' [Hgone Hkept]]]]].
      { intros k' Hk'. apply Hin. now right. }
      exists w'. split; [exact E|]. split; [exact Hok'|].
      split; [exact Htw'|]. split; [exact Hgone|].
      intros k' [<-|Hk'] Hin'; auto.
Qed.

(** The second loop deletes exactly the origins it is given. *)
Lemma del_all_times : forall ks w,
  NoDup ks -> cache_ok w ->
  (forall k, In k ks -> In k (PyDict.keys (_robots_parsers w))) ->
  exists w',
    for_each ks RobotsTxtChecker.del_entry w = (Ok tt, w')
    /\ cache_ok w'
    /\ times_within w w'
    /\ (forall k, In k ks -> ~ In k (PyDict.keys (_robots_parsers w')))
    /\ (forall k, In k (PyDict.keys (_robots_parsers w)) -> ~ In k ks ->
                  In k (PyDict.keys (_robots_parsers w'))).
Proof.
  induction ks as [|k ks IH]; intros w Hnd Hok Hin.
  - exists w. split; [reflexivity|]. split; [exact Hok|].
    split; [intros ? ? H; exact H|]. split; [intros ? []|]. auto.
  - inversion Hnd as [|? ? Hk Hnd']; subst. cbn [for_each]. rewrite bind_run.
    destruct (del_entry_times k w Hok (Hin k (or_introl eq_refl)))
      as [w1 [-> [Hok1 [Hkeys1 Htw1]]]].
    destruct (IH w1 Hnd' Hok1) as [w' [E [Hok' [Htw' [Hgone Hstay]]]]].
    { intros k' Hk'. rewrite Hkeys1. apply remove_key_keeps.
      - intros ->. contradiction.
      - apply Hin. now right. }
    exists w'. split; [exact E|]. split; [exact Hok'|].
    split; [eapply times_within_trans; eauto|]. split.
    + intros k' [<-|Hk'] Hin'; [|exact (Hgone k' Hk' Hin')].
      apply (within_keys w1 w' k Hok1 Hok' Htw') in Hin'.
      rewrite Hkeys1 in Hin'. exact (remove_key_gone _ _ (proj2 Hok) Hin').
    + intros k' Hin' Hnot. apply Hstay.
      * rewrite Hkeys1. apply remove_key_keeps; auto.
        intros ->. apply Hnot. now left.
      * intros H. apply Hnot. now right.
Qed.
End Eviction.

(** X20.  The cleanup of the robots.txt cache evicts the least recently
    used origins: from a well-formed cache it returns normally with at
    most a hundred parsers left, each as it was cached, and no origin it
    evicts was used later than an origin it keeps.  When the cache was
    over its limit, no origin that is left is older than the time to
    live. *)
Theorem cleanup_evicts_least_recently_used :
  forall (env : Env) (w : World),
    cache_ok w ->
    exists w',
      RobotsTxtChecker._cleanup_old_parsers env w = (Ok tt, w')
      /\ length (_robots_parsers w') <= 100
      /\ parsers_within w w'
      /\ (forall kept evicted tk te,
             PyDict.get (_robots_parsers_last_used w) kept = Some tk ->
             PyDict.get (_robots_parsers_last_used w) evicted = Some te ->
             PyDict.contains (_robots_parsers w') kept = true ->
             PyDict.contains (_robots_parsers w') evicted = false ->
             (te <= tk)%Q)
      /\ (100 < length (_robots_parsers w) ->
          forall k t,
            PyDict.get (_robots_parsers_last_used w') k = Some t ->
            (time_time env (tick w) - t
             <= RobotsTxtChecker._robots_parsers_cache_ttl)%Q).
Proof.
  intros env w Hok.
  destruct (cleanup_bound env w Hok) as [w' [E [Hok' Hlen]]].
  destruct (cleanup_ok env w Hok) as [w'' [E' [_ Hpw]]].
  rewrite E in E'. inversion E'; subst w''. clear E'.
  exists w'. split; [exact E|]. split; [exact Hlen|]. split; [exact Hpw|].
  clear Hpw Hlen.
  assert (Hin_keys : forall d k, PyDict.contains (V:=RobotFileParser) d k = true ->
                                 In k (PyDict.keys d)).
  { intros d k H. unfold PyDict.contains in H.
    destruct (PyDict.get d k) eqn:G; [|discriminate].
    eapply get_in_keys; eauto. }
  assert (Hout_keys : forall d k, PyDict.contains (V:=RobotFileParser) d k = false ->
                                  ~ In k (PyDict.keys d)).
  { intros d k H. unfold PyDict.contains in H.
    destruct (PyDict.get d k) eqn:G; [discriminate|].
    now apply get_none_not_in. }
  revert E. unfold RobotsTxtChecker._cleanup_old_parsers.
  unfold bind at 1. cbn [gets].
  destruct (length (_robots_parsers w)
            <=? RobotsTxtChecker._robots_parsers_max_cache_size) eqn:Esmall.
  { intros E. inversion E; subst w'. split.
    - intros kept evicted tk te _ He _ Hce. exfalso.
      apply Hout_keys in Hce. apply Hce. rewrite (proj1 Hok).
      eapply get_in_keys; eauto.
    - intros Hbig. apply Nat.leb_le in Esmall.
      unfold RobotsTxtChecker._robots_parsers_max_cache_size in Esmall. lia. }
  unfold bind at 1, time, bind at 1, next_tick. cbn [ret].
  set (w0 := with_tick w (S (tick w))).
  set (now := time_time env (tick w)).
  assert (Hok0 : cache_ok w0) by exact Hok.
  unfold bind at 1.
  assert (Hin0 : forall k, In k (PyDict.keys (_robots_parsers w)) ->
                           In k (PyDict.keys (_robots_parsers w0))) by auto.
  match goal with |- context [for_each _ ?body w0] =>
    assert (Hb : forall k w1,
               body k w1
               = if is_stale now (_robots_parsers_last_used w1) k
                 then RobotsTxtChecker.del_entry k w1 else (Ok tt, w1));
      [|destruct (stale_loop body now Hb (PyDict.keys (_robots_parsers w)) w0
                    (proj2 Hok) Hok0 Hin0)
          as [w1 [E1 [Hok1 [Htw1 [Hst1 Hfr1]]]]]]
  end.
  { intros k w1. unfold bind, gets, is_stale.
    destruct (Qltb _ _); reflexivity. }
  change (_robots_parsers_last_used w0) with (_robots_parsers_last_used w)
    in Hst1, Hfr1.
  change (_robots_parsers w0) with (_robots_parsers w) in Hst1.
  assert (Htw1' : times_within w w1) by exact Htw1.
  assert (Hfresh : forall k t,
             In k (PyDict.keys (_robots_parsers w1)) ->
             PyDict.get (_robots_parsers_last_used w) k = Some t ->
             Qltb RobotsTxtChecker._robots_parsers_cache_ttl (now - t) = false).
  { intros k t Hk Ht.
    assert (H : In k (PyDict.keys (_robots_parsers w))).
    { rewrite (proj1 Hok). eapply get_in_keys; eauto. }
    specialize (Hfr1 k H Hk). unfold is_stale in Hfr1.
    now rewrite Ht in Hfr1. }
  assert (Hstale : forall k t,
             ~ In k (PyDict.keys (_robots_parsers w1)) ->
             PyDict.get (_robots_parsers_last_used w) k = Some t ->
             Qltb RobotsTxtChecker._robots_parsers_cache_ttl (now - t) = true).
  { intros k t Hk Ht.
    assert (H : In k (PyDict.keys (_robots_parsers w))).
    { rewrite (proj1 Hok). eapply get_in_keys; eauto. }
    specialize (Hst1 k H Hk). unfold is_stale in Hst1.
    now rewrite Ht in Hst1. }
  rewrite E1. unfold bind at 1. cbn [gets].
  destruct (RobotsTxtChecker._robots_parsers_max_cache_size
            <? length (_robots_parsers w1)) eqn:Ebig.
  - unfold bind at 1. cbn [gets].
    rewrite <- (for_each_map fst RobotsTxtChecker.del_entry).
    set (n := length (_robots_parsers w1)
              - RobotsTxtChecker._robots_parsers_max_cache_size).
    set (sorted := RobotsTxtChecker.sorted_by_time
                     (_robots_parsers_last_used w1)).
    set (ks := map fst (firstn n sorted)).
    assert (Hperm : Permutation sorted (_robots_parsers_last_used w1))
      by apply sorted_by_time_perm.
    assert (Hnd_lu : NoDup (PyDict.keys (_robots_parsers_last_used w1))).
    { rewrite <- (proj1 Hok1). exact (proj2 Hok1). }
    assert (Hnd2 : NoDup ks).
    { unfold ks. rewrite <- firstn_map. apply firstn_NoDup.
      eapply Permutation_NoDup; [|exact Hnd_lu].
      apply Permutation_sym, Permutation_map, Hperm. }
    assert (Hin2 : forall k, In k ks ->
                             In k (PyDict.keys (_robots_parsers w1))).
    { intros k Hk. unfold ks in Hk. rewrite <- firstn_map in Hk.
      apply firstn_incl in Hk. rewrite (proj1 Hok1).
      eapply Permutation_in; [|exact Hk].
      apply Permutation_map, Hperm. }
    destruct (del_all_times ks w1 Hnd2 Hok1 Hin2)
      as [w2 [E2 [Hok2 [Htw2 [Hgone Hstay]]]]].
    rewrite E2. intros E. inversion E; subst w'. clear E. split.
    + intros kept evicted tk te Hk He Hck Hce.
      apply Hin_keys in Hck. apply Hout_keys in Hce.
      assert (Hk1 : In kept (PyDict.keys (_robots_parsers w1)))
        by (eapply within_keys; eauto).
      destruct (in_dec string_dec evicted
                  (PyDict.keys (_robots_parsers w1))) as [He1|He1].
      * destruct (in_dec string_dec evicted ks) as [Hev|Hev];
          [|exfalso; apply Hce; now apply Hstay].
        assert (Hlu : forall k t,
                   In k (PyDict.keys (_robots_parsers w1)) ->
                   PyDict.get (_robots_parsers_last_used w) k = Some t ->
                   In (k, t) sorted).
        { intros k t Hk1' Ht. eapply Permutation_in;
            [apply Permutation_sym, Hperm|].
          apply get_some_in. rewrite (proj1 Hok1) in Hk1'.
          apply in_keys_get in Hk1' as [t' Ht'].
          pose proof (Htw1' _ _ Ht') as Ht''. congruence. }
        pose proof (Hlu _ _ Hk1 Hk) as Hks.
        unfold ks in Hev. apply in_map_iff in Hev.
        destruct Hev as [[e te'] [Hfst Hfirst]]. cbn in Hfst. subst e.
        assert (te' = te).
        { apply firstn_incl in Hfirst.
          eapply Permutation_in in Hfirst; [|exact Hperm].
          apply (in_get _ _ _ Hnd_lu) in Hfirst.
          pose proof (Htw1' _ _ Hfirst). congruence. }
        subst te'.
        rewrite <- (firstn_skipn n sorted) in Hks.
        apply in_app_or in Hks. destruct Hks as [Hks|Hks].
        -- exfalso. apply (Hgone kept); [|exact Hck].
           unfold ks. change kept with (fst (kept, tk)). now apply in_map.
        -- exact (sorted_firstn_skipn _ _ (sorted_by_time_sorted _)
                    n _ _ Hfirst Hks).
      * eapply fresh_after_stale; [eapply Hfresh | eapply Hstale]; eauto.
    + intros _ k t Ht.
      assert (Hk2 : In k (PyDict.keys (_robots_parsers w2))).
      { rewrite (proj1 Hok2). eapply get_in_keys; eauto. }
      assert (Hk1 : In k (PyDict.keys (_robots_parsers w1)))
        by (eapply within_keys; eauto).
      specialize (Hfresh k t Hk1 (Htw1' _ _ (Htw2 _ _ Ht))).
      unfold Qltb in Hfresh.
      now apply negb_false_iff, Qle_bool_iff in Hfresh.
  - intros E. inversion E; subst w'. clear E. split.
    + intros kept evicted tk te Hk He Hck Hce.
      apply Hin_keys in Hck. apply Hout_keys in Hce.
      eapply fresh_after_stale; [eapply Hfresh | eapply Hstale]; eauto.
    + intros _ k t Ht.
      assert (Hk1 : In k (PyDict.keys (_robots_parsers w1))).
      { rewrite (proj1 Hok1). eapply get_in_keys; eauto. }
      specialize (Hfresh k t Hk1 (Htw1' _ _ Ht)).
      unfold Qltb in Hfresh.
      now apply negb_false_iff, Qle_bool_iff in Hfresh.
Qed.

Lemma cleanup_evicts_least_recently_used_witness :
  cache_ok FullCache.world
  /\ exists w',
       RobotsTxtChecker._cleanup_old_parsers Demo.env FullCache.world
       = (Ok tt, w')
       /\ length (_robots_parsers w') <= 100
       /\ parsers_within FullCache.world w'
       /\ (forall kept evicted tk te,
              PyDict.get (_robots_parsers_last_used FullCache.world) kept
              = Some tk ->
              PyDict.get (_robots_parsers_last_used FullCache.world) evicted
              = Some te ->
              PyDict.contains (_robots_parsers w') kept = true ->
              PyDict.contains (_robots_parsers w') evicted = false ->
              (te <= tk)%Q)
       /\ (100 < length (_robots_parsers FullCache.world) ->
           forall k t,
             PyDict.get (_robots_parsers_last_used w') k = Some t ->
             (time_time Demo.env (tick FullCache.world) - t
              <= RobotsTxtChecker._robots_parsers_cache_ttl)%Q).
Proof.
  assert (H : cache_ok FullCache.world).
  { split; [vm_compute; reflexivity|].
    apply distinct_NoDup. vm_compute. reflexivity. }
  split; [exact H|].
  exact (cleanup_evicts_least_recently_used Demo.env FullCache.world H).
Defined.
